(** * MC protocol client (4E frames): a shallow embedding of [src/MCProtocol.ts]

    The development follows the class [MCProtocol]:
    - Node [Buffer] writes and reads with their range checks,
    - [encodeValue], [makeDeviceData], [getDeviceBase] (device address codec),
    - [create4EReadFrame], [create4EWriteFrame] (frame builder),
    - [validateResponse], [parseReadResponse] (validator / decoder),
    - the register-name parser of [plcRead],
    - the connection object as a state machine: [sendRequest],
      [handleResponse], [processResponse], [cleanup], [connect],
      [disconnect], driven by the events the runtime delivers.

    JavaScript numbers are modelled by [Z] (the integers a double holds
    exactly), buffers by [list byte], strings by [string].  Arithmetic,
    [parseInt] and [toString] are exact on [Z]; they agree with the
    doubles of the program on the safe integers, of magnitude at most
    2^53 - 1 = 9007199254740991, and the statements about offsets and
    register numbers are made inside that range. *)

From Stdlib Require Import ZArith String Ascii List Bool Lia.
From coqutil Require Import Byte Word.LittleEndianList.
Import ListNotations.
Local Open Scope string_scope.
Local Open Scope list_scope.
Local Open Scope Z_scope.

(* ===================================================================== *)
(** ** Errors and the exception monad *)
(* ===================================================================== *)

(** The message templates of the [MCProtocolError]s the class throws. *)
Inductive message : Type :=
| ConnectionTimeout                          (* 'Connection timeout' *)
| ConnectionError                            (* `Connection error: ${error.message}` *)
| NotConnectedToPLC                          (* 'Not connected to PLC' *)
| NoDataReceived (key : string)              (* `No data received for ${key}` *)
| UnknownEncodeMode (mode : string)          (* `Unknown encode mode: ${mode}` *)
| InvalidDevice (device : string)            (* `Invalid device: ${device}` *)
| UnknownDeviceType (deviceType : string)    (* `Unknown device type: ${deviceType}` *)
| NotConnected                               (* 'Not connected' *)
| RequestTimeout                             (* 'Request timeout' *)
| WriteError                                 (* `Write error: ${error.message}` *)
| InvalidSubheader (subheader : Z)           (* `Invalid subheader: 0x${subheader.toString(16)}` *)
| PlcError (errorCode : Z)                   (* `PLC error: 0x${errorCode.toString(16)}` *)
| ConnectionClosed                           (* 'Connection closed' *)
| InvalidRegisterFormat (reg : string)       (* `Invalid register format: ${reg}` *)
| NoDataReceivedForRegister (reg : string).  (* `No data received for register ${reg}` *)

(** What can be thrown: the class's own error with its two optional
    fields, or the [RangeError] (ERR_OUT_OF_RANGE) of a [Buffer] access. *)
Inductive exn : Type :=
| MCProtocolError (msg : message) (errorCode : option Z) (plcErrorCode : option Z)
| RangeError.

Inductive result (A : Type) : Type :=
| Ok (a : A)
| Throw (e : exn).
Arguments Ok {A} a.
Arguments Throw {A} e.

Definition bind {A B : Type} (r : result A) (k : A -> result B) : result B :=
  match r with
  | Ok a => k a
  | Throw e => Throw e
  end.

Notation "x <- e ;; k" := (bind e (fun x => k))
  (at level 61, e at next level, right associativity).

(* ===================================================================== *)
(** ** Node [Buffer] primitives *)
(* ===================================================================== *)

(** [checkInt] of Node's buffer module: the value must lie in [min, max]. *)
Definition checkInt (value min max : Z) : result unit :=
  if (max <? value) || (value <? min) then Throw RangeError else Ok tt.

(** Little-endian writes into a fresh buffer of the given width.  The
    stored bytes are the low bytes of the two's complement of [value]. *)
Definition writeUInt8 (value : Z) : result (list byte) :=
  _ <- checkInt value 0 0xff ;; Ok (le_split 1 value).
Definition writeInt8 (value : Z) : result (list byte) :=
  _ <- checkInt value (-0x80) 0x7f ;; Ok (le_split 1 value).
Definition writeUInt16LE (value : Z) : result (list byte) :=
  _ <- checkInt value 0 0xffff ;; Ok (le_split 2 value).
Definition writeInt16LE (value : Z) : result (list byte) :=
  _ <- checkInt value (-0x8000) 0x7fff ;; Ok (le_split 2 value).
Definition writeUInt32LE (value : Z) : result (list byte) :=
  _ <- checkInt value 0 0xffffffff ;; Ok (le_split 4 value).
Definition writeInt32LE (value : Z) : result (list byte) :=
  _ <- checkInt value (-0x80000000) 0x7fffffff ;; Ok (le_split 4 value).
(** [writeUIntLE(value, 0, 3)] *)
Definition writeUIntLE3 (value : Z) : result (list byte) :=
  _ <- checkInt value 0 0xffffff ;; Ok (le_split 3 value).
(** [writeUInt16BE] *)
Definition writeUInt16BE (value : Z) : result (list byte) :=
  _ <- checkInt value 0 0xffff ;; Ok (rev (le_split 2 value)).

(** [buf.subarray(start, start + n)] for in-range arguments. *)
Definition slice (buf : list byte) (start n : nat) : list byte :=
  firstn n (skipn start buf).

(** Reads throw [RangeError] when the field does not fit in the buffer. *)
Definition readUInt16LE (buf : list byte) (offset : nat) : result Z :=
  if (offset + 2 <=? length buf)%nat then Ok (le_combine (slice buf offset 2))
  else Throw RangeError.
Definition readUInt16BE (buf : list byte) (offset : nat) : result Z :=
  if (offset + 2 <=? length buf)%nat then Ok (le_combine (rev (slice buf offset 2)))
  else Throw RangeError.
Definition readInt16LE (buf : list byte) (offset : nat) : result Z :=
  v <- readUInt16LE buf offset ;;
  Ok (if 0x8000 <=? v then v - 0x10000 else v).

(* ===================================================================== *)
(** ** [encodeValue] *)
(* ===================================================================== *)

Definition encodeValue (value : Z) (mode : string) (isSigned : bool)
  : result (list byte) :=
  if (mode =? "byte")%string then
    if isSigned then writeInt8 value else writeUInt8 value
  else if (mode =? "short")%string then
    if isSigned then writeInt16LE value else writeUInt16LE value
  else if (mode =? "long")%string then
    if isSigned then writeInt32LE value else writeUInt32LE value
  else Throw (MCProtocolError (UnknownEncodeMode mode) None None).

(* ===================================================================== *)
(** ** [Number.prototype.toString] and [parseInt] on integers *)
(* ===================================================================== *)

Definition isDigit (c : ascii) : bool :=
  let n := N_of_ascii c in ((48 <=? n) && (n <=? 57))%N.
Definition isUpper (c : ascii) : bool :=
  let n := N_of_ascii c in ((65 <=? n) && (n <=? 90))%N.
Definition isLower (c : ascii) : bool :=
  let n := N_of_ascii c in ((97 <=? n) && (n <=? 122))%N.
Definition isSpace (c : ascii) : bool :=
  let n := N_of_ascii c in (((9 <=? n) && (n <=? 13)) || (n =? 32))%N.

Definition digitChar (d : Z) : ascii := ascii_of_N (Z.to_N (48 + d)).

(** Decimal digits of a non-negative integer, most significant first. *)
Fixpoint digitsOf (fuel : nat) (n : Z) (acc : string) : string :=
  match fuel with
  | O => acc
  | S fuel' =>
      let acc' := String (digitChar (n mod 10)) acc in
      if n / 10 =? 0 then acc' else digitsOf fuel' (n / 10) acc'
  end.

(** [n.toString()] for an integer [n]: every decimal digit.  This is what
    the program prints for safe integers; from 2^53 on it prints the
    shortest digits that round-trip, and from 1e21 on an exponent. *)
Definition toString (n : Z) : string :=
  if n <? 0 then String "-" (digitsOf (S (Z.to_nat (Z.log2 (- n)))) (- n) "")
  else digitsOf (S (Z.to_nat (Z.log2 n))) n "".

(** The value of a character as a digit (case-insensitive letters). *)
Definition digitValue (c : ascii) : option Z :=
  let n := Z.of_N (N_of_ascii c) in
  if isDigit c then Some (n - 48)
  else if isUpper c then Some (n - 65 + 10)
  else if isLower c then Some (n - 97 + 10)
  else None.

(** The longest prefix of [s] made of digits of [radix]; [None] when it is
    empty. *)
Fixpoint parseDigits (radix : Z) (s : string) (acc : option Z) : option Z :=
  match s with
  | EmptyString => acc
  | String c s' =>
      match digitValue c with
      | Some d =>
          if d <? radix
          then parseDigits radix s'
                 (Some (match acc with Some a => a * radix + d | None => d end))
          else acc
      | None => acc
      end
  end.

Fixpoint skipSpaces (s : string) : string :=
  match s with
  | String c s' => if isSpace c then skipSpaces s' else s
  | EmptyString => s
  end.

Definition stripHexPrefix (s : string) : option string :=
  match s with
  | String c0 (String c1 r) =>
      if ((c0 =? "0") && ((c1 =? "x") || (c1 =? "X")))%char then Some r else None
  | _ => None
  end.

Definition splitSign (s : string) : Z * string :=
  match s with
  | String c r =>
      if (c =? "-")%char then (-1, r)
      else if (c =? "+")%char then (1, r)
      else (1, s)
  | EmptyString => (1, s)
  end.

(** [parseInt(s, radix)]; [radix = None] is the one-argument call.  The
    result [None] is NaN.  The value is the exact integer of the digits;
    the program gets the nearest double, the same number up to 2^53 - 1. *)
Definition parseInt (s : string) (radix : option Z) : option Z :=
  let s := skipSpaces s in
  let '(sign, s) := splitSign s in
  let '(R, strip) :=
    match radix with
    | None => (10, true)
    | Some r => if r =? 0 then (10, true) else (r, r =? 16)
    end in
  if (R <? 2) || (36 <? R) then None else
  let '(R, s) :=
    if strip then
      match stripHexPrefix s with
      | Some r => (16, r)
      | None => (R, s)
      end
    else (R, s) in
  option_map (Z.mul sign) (parseDigits R s None).

(* ===================================================================== *)
(** ** Device address codec *)
(* ===================================================================== *)

Definition DEVICE_CODES : list (string * Z) :=
  [ ("D", 0xa8); ("R", 0xaf); ("ZR", 0xb0); ("M", 0x90); ("X", 0x9c);
    ("Y", 0x9d); ("B", 0xa0); ("F", 0x93); ("V", 0x94); ("S", 0x98);
    ("SS", 0xc9); ("SC", 0xc6); ("SB", 0xa1); ("DX", 0xa2); ("DY", 0xa3);
    ("T", 0xc2); ("ST", 0xc7); ("C", 0xc5); ("TC", 0xc0); ("TS", 0xc1);
    ("TN", 0xc2); ("CN", 0xc5); ("CS", 0xc4); ("CC", 0xc3); ("W", 0xb4);
    ("SW", 0xb5); ("RD", 0x2c); ("SD", 0xa9); ("Z", 0xcc) ].

(** Lookup of a table's own keys.  (Names a JavaScript object inherits,
    such as "constructor", are not keys of the model's table.) *)
Fixpoint lookup (key : string) (table : list (string * Z)) : option Z :=
  match table with
  | [] => None
  | (k, v) :: rest => if (k =? key)%string then Some v else lookup key rest
  end.

Definition hexDevices : list string :=
  ["X"; "Y"; "B"; "W"; "SB"; "SW"; "DX"; "DY"; "ZR"].

Definition getDeviceBase (deviceType : string) : Z :=
  if existsb (String.eqb deviceType) hexDevices then 16 else 10.

(** [device.match(/\D+/)]: the first maximal run of non-digit characters. *)
Fixpoint takeWhile (p : ascii -> bool) (s : string) : string :=
  match s with
  | String c s' => if p c then String c (takeWhile p s') else EmptyString
  | EmptyString => EmptyString
  end.
Fixpoint dropWhile (p : ascii -> bool) (s : string) : string :=
  match s with
  | String c s' => if p c then dropWhile p s' else s
  | EmptyString => EmptyString
  end.

Definition matchNonDigits (device : string) : option string :=
  match takeWhile (fun c => negb (isDigit c)) (dropWhile isDigit device) with
  | EmptyString => None
  | run => Some run
  end.

(** A NaN handed to a buffer write passes the range check and is stored
    as zero. *)
Definition numberOrNaN (v : option Z) : Z :=
  match v with Some z => z | None => 0 end.

(** [makeDeviceData(device, address)], for a safe-integer [address] and a
    device whose letters are not a name every object inherits (see
    [toString] and [lookup]). *)
Definition makeDeviceData (plcType device : string) (address : Z)
  : result (list byte) :=
  let deviceData : list byte := [] in
  match matchNonDigits device with
  | None => Throw (MCProtocolError (InvalidDevice device) None None)
  | Some deviceType =>
      match lookup deviceType DEVICE_CODES with
      | None => Throw (MCProtocolError (UnknownDeviceType deviceType) None None)
      | Some deviceCode =>
          let deviceBase := getDeviceBase deviceType in
          let deviceNum := numberOrNaN (parseInt (toString address) (Some deviceBase)) in
          if (plcType =? "iQ-R")%string then
            numBuffer <- writeUInt32LE deviceNum ;;
            let deviceData := deviceData ++ numBuffer in
            codeBuffer <- writeUInt16LE deviceCode ;;
            let deviceData := deviceData ++ codeBuffer in
            Ok deviceData
          else
            numBuffer <- writeUIntLE3 deviceNum ;;
            let deviceData := deviceData ++ numBuffer in
            codeBuffer <- writeUInt8 deviceCode ;;
            let deviceData := deviceData ++ codeBuffer in
            Ok deviceData
      end
  end.

(* ===================================================================== *)
(** ** Frame builder *)
(* ===================================================================== *)

Definition wordSize : Z := 2.

Definition create4EReadFrame (plcType device : string) (address count : Z)
  : result (list byte) :=
  let requestData : list byte := [] in
  let command := 0x0401 in
  let subcommand := if (plcType =? "iQ-R")%string then 0x0002 else 0x0000 in
  b <- encodeValue command "short" false ;;
  let requestData := requestData ++ b in
  b <- encodeValue subcommand "short" false ;;
  let requestData := requestData ++ b in
  b <- makeDeviceData plcType device address ;;
  let requestData := requestData ++ b in
  b <- encodeValue count "short" false ;;
  let requestData := requestData ++ b in
  let mcData : list byte := [] in
  subheaderBuffer <- writeUInt16BE 0x5400 ;;
  let mcData := mcData ++ subheaderBuffer in
  b <- encodeValue 0x0000 "short" false ;; let mcData := mcData ++ b in
  b <- encodeValue 0 "short" false ;; let mcData := mcData ++ b in
  b <- encodeValue 0 "byte" false ;; let mcData := mcData ++ b in
  b <- encodeValue 0xff "byte" false ;; let mcData := mcData ++ b in
  b <- encodeValue 0x03ff "short" false ;; let mcData := mcData ++ b in
  b <- encodeValue 0x00 "byte" false ;; let mcData := mcData ++ b in
  b <- encodeValue (wordSize + Z.of_nat (length requestData)) "short" false ;;
  let mcData := mcData ++ b in
  b <- encodeValue 4 "short" false ;; let mcData := mcData ++ b in
  let mcData := mcData ++ requestData in
  Ok mcData.

(** The [for (const value of values)] loop of the write frame. *)
Fixpoint appendValues (requestData : list byte) (values : list Z)
  : result (list byte) :=
  match values with
  | [] => Ok requestData
  | value :: rest =>
      b <- encodeValue value "short" true ;;
      appendValues (requestData ++ b) rest
  end.

Definition create4EWriteFrame (plcType device : string) (address : Z)
  (values : list Z) : result (list byte) :=
  let requestData : list byte := [] in
  let command := 0x1401 in
  let subcommand := if (plcType =? "iQ-R")%string then 0x0002 else 0x0000 in
  b <- encodeValue command "short" false ;;
  let requestData := requestData ++ b in
  b <- encodeValue subcommand "short" false ;;
  let requestData := requestData ++ b in
  b <- makeDeviceData plcType device address ;;
  let requestData := requestData ++ b in
  b <- encodeValue (Z.of_nat (length values)) "short" false ;;
  let requestData := requestData ++ b in
  requestData <- appendValues requestData values ;;
  let mcData : list byte := [] in
  subheaderBuffer <- writeUInt16BE 0x5400 ;;
  let mcData := mcData ++ subheaderBuffer in
  b <- encodeValue 0x0000 "short" false ;; let mcData := mcData ++ b in
  b <- encodeValue 0 "short" false ;; let mcData := mcData ++ b in
  b <- encodeValue 0 "byte" false ;; let mcData := mcData ++ b in
  b <- encodeValue 0xff "byte" false ;; let mcData := mcData ++ b in
  b <- encodeValue 0x03ff "short" false ;; let mcData := mcData ++ b in
  b <- encodeValue 0x00 "byte" false ;; let mcData := mcData ++ b in
  b <- encodeValue (wordSize + Z.of_nat (length requestData)) "short" false ;;
  let mcData := mcData ++ b in
  b <- encodeValue 4 "short" false ;; let mcData := mcData ++ b in
  let mcData := mcData ++ requestData in
  Ok mcData.

(** The command bodies ([requestData]) on their own, as the two builders
    assemble them before the header is put in front. *)
Definition readRequestData (plcType device : string) (address count : Z)
  : result (list byte) :=
  c <- encodeValue 0x0401 "short" false ;;
  s <- encodeValue (if (plcType =? "iQ-R")%string then 0x0002 else 0x0000) "short" false ;;
  d <- makeDeviceData plcType device address ;;
  n <- encodeValue count "short" false ;;
  Ok (((([] ++ c) ++ s) ++ d) ++ n).

Definition writeRequestData (plcType device : string) (address : Z)
  (values : list Z) : result (list byte) :=
  c <- encodeValue 0x1401 "short" false ;;
  s <- encodeValue (if (plcType =? "iQ-R")%string then 0x0002 else 0x0000) "short" false ;;
  d <- makeDeviceData plcType device address ;;
  n <- encodeValue (Z.of_nat (length values)) "short" false ;;
  appendValues (((([] ++ c) ++ s) ++ d) ++ n) values.

(** Header layout: 11 bytes of subheader and routing fields, the 2-byte
    length field at offset 11, the 2-byte timer at offset 13. *)
Definition fixedHeaderLength : nat := 13.
Definition timerFieldWidth : nat := 2.
Definition lengthFieldOffset : nat := 11.

(* ===================================================================== *)
(** ** Response validator and decoder *)
(* ===================================================================== *)

Definition validateResponse (response : list byte) : result unit :=
  subheader <- readUInt16BE response 0 ;;
  if negb (subheader =? 0xd400) then
    Throw (MCProtocolError (InvalidSubheader subheader) None None)
  else
    dataLength <- readUInt16LE response 9 ;;
    if (15 <=? length response)%nat then
      errorCode <- readUInt16LE response 13 ;;
      if negb (errorCode =? 0x0000) then
        Throw (MCProtocolError (PlcError errorCode) None (Some errorCode))
      else Ok tt
    else Ok tt.

(** [for (let i = dataStart; i < response.length; i += 2)] *)
Fixpoint parseLoop (fuel : nat) (response : list byte) (i : nat)
  (values : list Z) : result (list Z) :=
  match fuel with
  | O => Ok values
  | S fuel' =>
      if (i <? length response)%nat then
        if (i + 1 <? length response)%nat then
          value <- readInt16LE response i ;;
          parseLoop fuel' response (i + 2) (values ++ [value])
        else parseLoop fuel' response (i + 2) values
      else Ok values
  end.

Definition dataStart : nat := 15.

Definition parseReadResponse (response : list byte) : result (list Z) :=
  _ <- validateResponse response ;;
  parseLoop (length response) response dataStart [].

(** The signed 16-bit little-endian value of the two bytes at [offset]. *)
Definition int16At (response : list byte) (offset : nat) : Z :=
  let v := le_combine (slice response offset 2) in
  if 0x8000 <=? v then v - 0x10000 else v.

(* ===================================================================== *)
(** ** Register names of [plcRead] *)
(* ===================================================================== *)

Fixpoint allChars (p : ascii -> bool) (s : string) : bool :=
  match s with
  | String c s' => p c && allChars p s'
  | EmptyString => true
  end.

(** [reg.match(/^([A-Z]+)(\d+)$/)]: the two capture groups. *)
Definition matchRegister (reg : string) : option (string * string) :=
  let letters := takeWhile isUpper reg in
  let rest := dropWhile isUpper reg in
  match letters, rest with
  | EmptyString, _ => None
  | _, EmptyString => None
  | _, _ => if allChars isDigit rest then Some (letters, rest) else None
  end.

(** The callback of [registers.map]: a [{device, address}] pair.  The
    address is exact, as [parseInt] is. *)
Definition parseRegister (reg : string) : result (string * Z) :=
  match matchRegister reg with
  | None => Throw (MCProtocolError (InvalidRegisterFormat reg) None None)
  | Some (m1, m2) => Ok (m1, numberOrNaN (parseInt m2 None))
  end.

(** [registers.map(...)]: stops at the first element whose callback
    throws. *)
Fixpoint mapRegisters (registers : list string) : result (list (string * Z)) :=
  match registers with
  | [] => Ok []
  | reg :: rest =>
      a <- parseRegister reg ;;
      others <- mapRegisters rest ;;
      Ok (a :: others)
  end.

(* ===================================================================== *)
(** ** The connection object *)
(* ===================================================================== *)

(** A pending entry [{resolve, reject, timeout}]: the promise whose
    continuations it holds and the handle of its timer. *)
Record request : Type := mkRequest { promise : Z; timeout : Z }.

Inductive outcome : Type :=
| Resolved (response : list byte)
| Rejected (error : exn).

(** The fields of the instance, followed by the part of the runtime the
    instance interacts with (timers, sockets, write callbacks) and by the
    observations made of it (bytes written, frames extracted, calls of
    promise continuations). *)
Record state : Type := mkState {
  socket : option nat;                  (* null, or the k-th socket created *)
  isConnected : bool;
  responseBuffer : list byte;
  pendingRequests : list (Z * request); (* a Map, in insertion order *)
  requestCounter : Z;
  sockets : nat;                        (* sockets created so far *)
  timers : list Z;                      (* armed request timers *)
  connectTimers : list nat;             (* armed connect timers *)
  writes : list Z;                      (* write callbacks not yet run *)
  written : list (list byte);           (* frames given to socket.write *)
  processed : list (list byte);         (* frames given to processResponse *)
  calls : list (Z * outcome);           (* resolve/reject calls, per promise *)
  connectCalls : list (nat * option exn)
}.

Definition initial : state :=
  mkState None false [] [] 0 0 [] [] [] [] [] [] [].

Definition set_socket v st :=
  mkState v (isConnected st) (responseBuffer st) (pendingRequests st)
    (requestCounter st) (sockets st) (timers st) (connectTimers st) (writes st)
    (written st) (processed st) (calls st) (connectCalls st).
Definition set_isConnected v st :=
  mkState (socket st) v (responseBuffer st) (pendingRequests st)
    (requestCounter st) (sockets st) (timers st) (connectTimers st) (writes st)
    (written st) (processed st) (calls st) (connectCalls st).
Definition set_responseBuffer v st :=
  mkState (socket st) (isConnected st) v (pendingRequests st)
    (requestCounter st) (sockets st) (timers st) (connectTimers st) (writes st)
    (written st) (processed st) (calls st) (connectCalls st).
Definition set_pendingRequests v st :=
  mkState (socket st) (isConnected st) (responseBuffer st) v
    (requestCounter st) (sockets st) (timers st) (connectTimers st) (writes st)
    (written st) (processed st) (calls st) (connectCalls st).
Definition set_requestCounter v st :=
  mkState (socket st) (isConnected st) (responseBuffer st) (pendingRequests st)
    v (sockets st) (timers st) (connectTimers st) (writes st)
    (written st) (processed st) (calls st) (connectCalls st).
Definition set_sockets v st :=
  mkState (socket st) (isConnected st) (responseBuffer st) (pendingRequests st)
    (requestCounter st) v (timers st) (connectTimers st) (writes st)
    (written st) (processed st) (calls st) (connectCalls st).
Definition set_timers v st :=
  mkState (socket st) (isConnected st) (responseBuffer st) (pendingRequests st)
    (requestCounter st) (sockets st) v (connectTimers st) (writes st)
    (written st) (processed st) (calls st) (connectCalls st).
Definition set_connectTimers v st :=
  mkState (socket st) (isConnected st) (responseBuffer st) (pendingRequests st)
    (requestCounter st) (sockets st) (timers st) v (writes st)
    (written st) (processed st) (calls st) (connectCalls st).
Definition set_writes v st :=
  mkState (socket st) (isConnected st) (responseBuffer st) (pendingRequests st)
    (requestCounter st) (sockets st) (timers st) (connectTimers st) v
    (written st) (processed st) (calls st) (connectCalls st).
Definition set_written v st :=
  mkState (socket st) (isConnected st) (responseBuffer st) (pendingRequests st)
    (requestCounter st) (sockets st) (timers st) (connectTimers st) (writes st)
    v (processed st) (calls st) (connectCalls st).
Definition set_processed v st :=
  mkState (socket st) (isConnected st) (responseBuffer st) (pendingRequests st)
    (requestCounter st) (sockets st) (timers st) (connectTimers st) (writes st)
    (written st) v (calls st) (connectCalls st).
Definition set_calls v st :=
  mkState (socket st) (isConnected st) (responseBuffer st) (pendingRequests st)
    (requestCounter st) (sockets st) (timers st) (connectTimers st) (writes st)
    (written st) (processed st) v (connectCalls st).
Definition set_connectCalls v st :=
  mkState (socket st) (isConnected st) (responseBuffer st) (pendingRequests st)
    (requestCounter st) (sockets st) (timers st) (connectTimers st) (writes st)
    (written st) (processed st) (calls st) v.

(** [Map.prototype.set] and [delete] on an insertion-ordered map. *)
Fixpoint mapSet (k : Z) (v : request) (m : list (Z * request))
  : list (Z * request) :=
  match m with
  | [] => [(k, v)]
  | (k', v') :: rest =>
      if k' =? k then (k, v) :: rest else (k', v') :: mapSet k v rest
  end.
Definition mapDelete (k : Z) (m : list (Z * request)) : list (Z * request) :=
  filter (fun kv => negb (fst kv =? k)) m.

(** [clearTimeout(handle)] *)
Definition clearTimeout (handle : Z) (st : state) : state :=
  set_timers (filter (fun h => negb (h =? handle)) (timers st)) st.

(** A call of the [resolve] or [reject] continuation of promise [p]. *)
Definition settle (p : Z) (o : outcome) (st : state) : state :=
  set_calls (calls st ++ [(p, o)]) st.

(** The body of [sendRequest]'s promise executor.  The second component
    is the error the returned promise is rejected with on the spot;
    otherwise the request is registered under the new [requestCounter]. *)
Definition sendRequest (frame : list byte) (st : state) : state * option exn :=
  match socket st with
  | None => (st, Some (MCProtocolError NotConnected None None))
  | Some _ =>
      if negb (isConnected st) then
        (st, Some (MCProtocolError NotConnected None None))
      else
        let requestId := requestCounter st + 1 in
        let st := set_requestCounter requestId st in
        let timeout := requestId in
        let st := set_timers (timers st ++ [timeout]) st in
        let st := set_pendingRequests
                    (mapSet requestId (mkRequest requestId timeout)
                       (pendingRequests st)) st in
        let st := set_written (written st ++ [frame]) st in
        let st := set_writes (writes st ++ [requestId]) st in
        (st, None)
  end.

(** The timer callback armed by [sendRequest]. *)
Definition onRequestTimeout (requestId : Z) (st : state) : state :=
  let st := set_pendingRequests (mapDelete requestId (pendingRequests st)) st in
  settle requestId (Rejected (MCProtocolError RequestTimeout None None)) st.

(** The callback given to [socket.write]. *)
Definition onWriteDone (requestId : Z) (error : bool) (st : state) : state :=
  if error then
    let st := set_pendingRequests (mapDelete requestId (pendingRequests st)) st in
    let st := clearTimeout requestId st in
    settle requestId (Rejected (MCProtocolError WriteError None None)) st
  else st.

Definition processResponse (response : list byte) (st : state) : state :=
  let st := set_processed (processed st ++ [response]) st in
  match pendingRequests st with
  | [] => st
  | (requestId, request) :: _ =>
      let st := set_pendingRequests (mapDelete requestId (pendingRequests st)) st in
      let st := clearTimeout (timeout request) st in
      match validateResponse response with
      | Ok _ => settle (promise request) (Resolved response) st
      | Throw error => settle (promise request) (Rejected error) st
      end
  end.

(** The [while] loop of [handleResponse]; every round consumes at least
    13 bytes, so the buffer length bounds the number of rounds. *)
Fixpoint handleLoop (fuel : nat) (st : state) : state :=
  match fuel with
  | O => st
  | S fuel' =>
      if (13 <=? length (responseBuffer st))%nat then
        match readUInt16LE (responseBuffer st) 11 with
        | Ok dataLength =>
            let totalLength := Z.to_nat (13 + dataLength) in
            if (totalLength <=? length (responseBuffer st))%nat then
              let response := firstn totalLength (responseBuffer st) in
              let st := set_responseBuffer
                          (skipn totalLength (responseBuffer st)) st in
              handleLoop fuel' (processResponse response st)
            else st
        | Throw _ => st
        end
      else st
  end.

Definition handleResponse (data : list byte) (st : state) : state :=
  let st := set_responseBuffer (responseBuffer st ++ data) st in
  handleLoop (length (responseBuffer st)) st.

(** The body of the [for ... of this.pendingRequests] loop of [cleanup]. *)
Definition rejectClosed (st : state) (entry : Z * request) : state :=
  let '(requestId, request) := entry in
  let st := clearTimeout (timeout request) st in
  settle (promise request)
    (Rejected (MCProtocolError ConnectionClosed None None)) st.

Definition cleanup (st : state) : state :=
  let st := set_isConnected false st in
  let st := set_responseBuffer [] st in
  let st := fold_left rejectClosed (pendingRequests st) st in
  set_pendingRequests [] st.

(** [connect()]: the flag tells whether the returned promise is resolved
    before the call returns. *)
Definition connect (st : state) : state * bool :=
  if isConnected st then (st, true)
  else
    let k := sockets st in
    let st := set_sockets (S k) st in
    let st := set_socket (Some k) st in
    let st := set_connectTimers (connectTimers st ++ [k]) st in
    (st, false).

Definition clearConnectTimeout (k : nat) (st : state) : state :=
  set_connectTimers (filter (fun h => negb (h =? k)%nat) (connectTimers st)) st.

(** The handlers [connect] installs on the socket it creates. *)
Definition onConnect (k : nat) (st : state) : state :=
  let st := clearConnectTimeout k st in
  let st := set_isConnected true st in
  set_connectCalls (connectCalls st ++ [(k, None)]) st.
Definition onError (k : nat) (st : state) : state :=
  let st := clearConnectTimeout k st in
  let st := set_isConnected false st in
  set_connectCalls
    (connectCalls st ++ [(k, Some (MCProtocolError ConnectionError None None))]) st.
Definition onClose (st : state) : state :=
  let st := set_isConnected false st in
  cleanup st.
Definition onConnectTimeout (k : nat) (st : state) : state :=
  set_connectCalls
    (connectCalls st ++ [(k, Some (MCProtocolError ConnectionTimeout None None))]) st.

(** [disconnect()]: [socket.destroy()] followed by [cleanup()]. *)
Definition disconnect (st : state) : state :=
  match socket st with
  | None => st
  | Some _ => if negb (isConnected st) then st else cleanup st
  end.

(** What can happen to a connection object: calls made by the application
    and callbacks run by the event loop. *)
Inductive event : Type :=
| CallConnect
| CallDisconnect
| CallSendRequest (frame : list byte)
| RequestTimerFires (requestId : Z)
| WriteCallback (requestId : Z) (error : bool)
| SocketConnect (k : nat)
| SocketError (k : nat)
| SocketClose (k : nat)
| SocketData (k : nat) (data : list byte)
| ConnectTimerFires (k : nat).

Definition memZ (x : Z) (l : list Z) : bool := existsb (Z.eqb x) l.
Definition memNat (x : nat) (l : list nat) : bool := existsb (Nat.eqb x) l.

(** One step; [None] when the runtime cannot deliver the event in this
    state: a timer fires only while armed, a write callback runs once per
    write, socket events come from sockets that exist. *)
Definition step (st : state) (ev : event) : option state :=
  match ev with
  | CallConnect => Some (fst (connect st))
  | CallDisconnect => Some (disconnect st)
  | CallSendRequest frame => Some (fst (sendRequest frame st))
  | RequestTimerFires requestId =>
      if memZ requestId (timers st)
      then Some (onRequestTimeout requestId (clearTimeout requestId st))
      else None
  | WriteCallback requestId error =>
      if memZ requestId (writes st)
      then Some (onWriteDone requestId error
                   (set_writes (filter (fun w => negb (w =? requestId)) (writes st)) st))
      else None
  | SocketConnect k =>
      if (k <? sockets st)%nat then Some (onConnect k st) else None
  | SocketError k =>
      if (k <? sockets st)%nat then Some (onError k st) else None
  | SocketClose k =>
      if (k <? sockets st)%nat then Some (onClose st) else None
  | SocketData k data =>
      if (k <? sockets st)%nat then Some (handleResponse data st) else None
  | ConnectTimerFires k =>
      if memNat k (connectTimers st)
      then Some (onConnectTimeout k (clearConnectTimeout k st))
      else None
  end.

Fixpoint run (st : state) (trace : list event) : option state :=
  match trace with
  | [] => Some st
  | ev :: rest =>
      match step st ev with
      | Some st' => run st' rest
      | None => None
      end
  end.

(** The calls of continuations made so far for promise [p], oldest first.
    A promise is settled by the first of them and ignores the others. *)
Definition callsFor (p : Z) (st : state) : list outcome :=
  map snd (filter (fun c => fst c =? p) (calls st)).

Definition pendingIds (st : state) : list Z := map fst (pendingRequests st).

(** Feeding the reassembler a sequence of chunks. *)
Definition feed (chunks : list (list byte)) (st : state) : state :=
  fold_left (fun st data => handleResponse data st) chunks st.

(** The synchronous part of [plcRead]: the names are parsed, then
    [batchReadWordUnits] checks the connection, builds the first frame and
    sends it.  [plcType] is the [options.plcType] of the instance. *)
Definition batchReadWordUnits_start (plcType : string)
  (addresses : list (string * Z)) (st : state) : state * result unit :=
  match socket st with
  | None => (st, Throw (MCProtocolError NotConnectedToPLC None None))
  | Some _ =>
      if negb (isConnected st) then
        (st, Throw (MCProtocolError NotConnectedToPLC None None))
      else
        match addresses with
        | [] => (st, Ok tt)
        | (device, address) :: _ =>
            match create4EReadFrame plcType device address 1 with
            | Throw e => (st, Throw e)
            | Ok frame =>
                let '(st', rejected) := sendRequest frame st in
                (st', match rejected with Some e => Throw e | None => Ok tt end)
            end
        end
  end.

Definition plcRead_start (plcType : string) (registers : list string)
  (st : state) : state * result unit :=
  match mapRegisters registers with
  | Throw e => (st, Throw e)
  | Ok addresses => batchReadWordUnits_start plcType addresses st
  end.

(** The two builders share their header code; [wrap4E] is that common
    suffix, applied to a finished command body. *)
Definition header11 : list byte :=
  map byte.of_Z [0x54; 0x00; 0; 0; 0; 0; 0; 0xff; 0xff; 0x03; 0].

Definition wrap4E (requestData : list byte) : result (list byte) :=
  b <- encodeValue (wordSize + Z.of_nat (length requestData)) "short" false ;;
  Ok (((header11 ++ b) ++ le_split 2 4) ++ requestData).

(** A command handed to the frame builder. *)
Inductive command : Type :=
| ReadCmd (count : Z)
| WriteCmd (values : list Z).

Definition buildFrame (plcType device : string) (address : Z) (cmd : command)
  : result (list byte) :=
  match cmd with
  | ReadCmd count => create4EReadFrame plcType device address count
  | WriteCmd values => create4EWriteFrame plcType device address values
  end.

Definition requestDataOf (plcType device : string) (address : Z) (cmd : command)
  : result (list byte) :=
  match cmd with
  | ReadCmd count => readRequestData plcType device address count
  | WriteCmd values => writeRequestData plcType device address values
  end.

(** The number whose base-[R] numeral has the decimal digits of [n]. *)
Fixpoint reread (fuel : nat) (R n : Z) : Z :=
  match fuel with
  | O => 0
  | S fuel' =>
      if n / 10 =? 0 then n mod 10
      else reread fuel' R (n / 10) * R + n mod 10
  end.

Definition rereadDigits (R n : Z) : Z := reread (S (Z.to_nat (Z.log2 n))) R n.

(** The value of a string of decimal digit characters read in base [R],
    continuing from [a]. *)
Fixpoint readDigits (R : Z) (s : string) (a : Z) : Z :=
  match s with
  | EmptyString => a
  | String c s' => readDigits R s' (a * R + (Z.of_N (N_of_ascii c) - 48))
  end.

(* ===================================================================== *)
(** ** Vocabulary of the statements *)
(* ===================================================================== *)

(** What every entry of [DEVICE_CODES] satisfies: its key has no digit,
    its code is one byte, its base is 10 or 16. *)
Definition wellFormedEntry (entry : string * Z) : bool :=
  let '(k, v) := entry in
  match matchNonDigits k with
  | Some run => (run =? k)%string
  | None => false
  end && (0 <=? v) && (v <=? 0xff)
  && ((getDeviceBase k =? 10) || (getDeviceBase k =? 16)).

(** Width of the device-number field for a controller series. *)
Definition deviceNumberWidth (plcType : string) : nat :=
  if (plcType =? "iQ-R")%string then 4%nat else 3%nat.

Definition isLetter (c : ascii) : bool := isUpper c || isLower c.

(** The commands whose fields hold what is asked: a count of at least 1
    that a 16-bit field holds; values that are signed 16-bit numbers, few
    enough for the 16-bit length field of either series. *)
Definition fitsCommand (cmd : command) : Prop :=
  match cmd with
  | ReadCmd count => 1 <= count <= 0xffff
  | WriteCmd values =>
      Forall (fun v => -0x8000 <= v <= 0x7fff) values
      /\ 2 * Z.of_nat (length values) + 14 <= 0xffff
  end.

(** [reg] is [letters] followed by [digits], both non-empty, the letters
    taken from the class [p]: the language [p+ [0-9]+] with its parse. *)
Definition registerForm (p : ascii -> bool) (reg letters digits : string) : Prop :=
  reg = (letters ++ digits)%string
  /\ letters <> "" /\ allChars p letters = true
  /\ digits <> "" /\ allChars isDigit digits = true.

(** A connected instance with nothing in flight. *)
Definition connectedState : state :=
  mkState (Some 0%nat) true [] [] 0 1 [] [] [] [] [] [] [].

(** A frame is complete when it holds the 13-byte header and as many
    further bytes as the 16-bit field at offset 11 announces. *)
Definition complete (frame : list byte) : Prop :=
  (13 <= length frame)%nat
  /\ readUInt16LE frame 11 = Ok (Z.of_nat (length frame) - 13).

(** The condition under which the loop of [handleResponse] extracts one
    more frame. *)
Definition loopCondition (buf : list byte) : bool :=
  (13 <=? length buf)%nat
  && match readUInt16LE buf 11 with
     | Ok dataLength => (Z.to_nat (13 + dataLength) <=? length buf)%nat
     | Throw _ => false
     end.

(** A response carrying the value 12345, and the read request for D100. *)
Definition sampleFrame : list byte :=
  map byte.of_Z [0xd4; 0; 0; 0; 0; 0; 0; 0xff; 0xff; 3; 0; 4; 0; 0; 0; 0x39; 0x30].

Definition sampleRequest : list byte :=
  map byte.of_Z [0x54; 0x00; 0; 0; 0; 0; 0; 0xff; 0xff; 0x03; 0;
                 0x0c; 0x00; 0x04; 0x00;
                 0x01; 0x04; 0x00; 0x00; 100; 0; 0; 0xa8; 1; 0].

Definition writeFailure : outcome :=
  Rejected (MCProtocolError WriteError None None).
Definition timedOut : outcome :=
  Rejected (MCProtocolError RequestTimeout None None).
Definition connectionClosed : outcome :=
  Rejected (MCProtocolError ConnectionClosed None None).

(** The calls recorded for promise [p] in a log. *)
Definition callsOf (p : Z) (log : list (Z * outcome)) : list outcome :=
  map snd (filter (fun c => fst c =? p) log).

(** What a registered request can be answered with: a response that
    passed validation, the error validation raised on a response, the
    request timeout, the teardown of the connection, or a failed write. *)
Definition deliverable (o : outcome) : Prop :=
  match o with
  | Resolved response => validateResponse response = Ok tt
  | Rejected e =>
      (exists response, validateResponse response = Throw e)
      \/ o = timedOut \/ o = connectionClosed \/ o = writeFailure
  end.

(** The correlator's invariant, on the five components it concerns: the
    pending map, the request counter, the armed timers, the write
    callbacks still to run and the log of continuation calls. *)
Record InvC (p : list (Z * request)) (c : Z) (t w : list Z)
  (k : list (Z * outcome)) : Prop := mkInvC {
  inv_counter : 0 <= c;
  inv_nodup : NoDup (map fst p);
  inv_entry : forall id r, In (id, r) p -> r = mkRequest id id /\ 1 <= id <= c;
  inv_pending : forall id, In id (map fst p) -> In id t /\ callsOf id k = [];
  inv_timers : forall id, In id t -> In id (map fst p);
  inv_settled : forall id, 1 <= id <= c -> In id (map fst p) \/ callsOf id k <> [];
  inv_calls : forall id o, In (id, o) k -> 1 <= id <= c /\ deliverable o;
  inv_writes : forall id, In id w -> 1 <= id <= c /\ ~ In writeFailure (callsOf id k);
  inv_shape : forall id first rest,
      callsOf id k = first :: rest ->
      rest = [] \/ (rest = [writeFailure] /\ first <> writeFailure)
}.

Definition Inv (st : state) : Prop :=
  InvC (pendingRequests st) (requestCounter st) (timers st) (writes st) (calls st).

(** The transport closes: the socket reports 'close', or the application
    calls [disconnect] on a connected instance, which destroys the socket. *)
Definition transportCloses (st st' : state) : Prop :=
  (exists k, step st (SocketClose k) = Some st')
  \/ (isConnected st = true /\ socket st <> None
      /\ step st CallDisconnect = Some st').

(** Three runs of a connection: two requests sent and not yet answered;
    a request whose socket write fails; a request that times out and whose
    socket write fails afterwards. *)
Definition traceTwoOutstanding : list event :=
  [CallConnect; SocketConnect 0;
   CallSendRequest sampleRequest; CallSendRequest sampleRequest].

Definition traceWriteFails : list event :=
  [CallConnect; SocketConnect 0; CallSendRequest sampleRequest;
   WriteCallback 1 true].

Definition traceTimeoutThenWriteFails : list event :=
  [CallConnect; SocketConnect 0; CallSendRequest sampleRequest;
   RequestTimerFires 1; WriteCallback 1 true].

(** The state a run from [initial] ends in. *)
Definition stateAfter (trace : list event) : state :=
  match run initial trace with
  | Some st => st
  | None => initial
  end.

(* ===================================================================== *)
(** ** Decoding, for the round trips *)
(* ===================================================================== *)

(** The number a whole buffer holds in little-endian order, unsigned or
    in two's complement ([readUIntLE] / [readIntLE] over its length). *)
Definition decodeValue (bytes : list byte) (isSigned : bool) : Z :=
  let u := le_combine bytes in
  let half := 2 ^ (8 * Z.of_nat (length bytes) - 1) in
  if isSigned && (half <=? u) then u - 2 * half else u.

(** Bytes [encodeValue] allocates for a mode it knows. *)
Definition widthOf (mode : string) : nat :=
  if (mode =? "byte")%string then 1%nat
  else if (mode =? "short")%string then 2%nat
  else 4%nat.

(** Width of the device-code field and value of the subcommand for a
    controller series. *)
Definition deviceCodeWidth (plcType : string) : nat :=
  if (plcType =? "iQ-R")%string then 2%nat else 1%nat.
Definition subcommandOf (plcType : string) : Z :=
  if (plcType =? "iQ-R")%string then 0x0002 else 0x0000.

(** What [processResponse] hands to the request it answers. *)
Definition answer (response : list byte) : outcome :=
  match validateResponse response with
  | Ok _ => Resolved response
  | Throw error => Rejected error
  end.

(** Strictly increasing lists of request identifiers. *)
Fixpoint increasing (ids : list Z) : Prop :=
  match ids with
  | [] => True
  | id :: rest => (forall later, In later rest -> id < later) /\ increasing rest
  end.

(** [getIsConnected()] *)
Definition getIsConnected (st : state) : bool :=
  isConnected st && match socket st with Some _ => true | None => false end.

(* ===================================================================== *)
(** ** The read and write operations *)
(* ===================================================================== *)

(** The operations are [async]: each one awaits the promise of every
    [sendRequest] it makes before going on.  They are modelled as functions
    of the outcomes those promises settle with, in order ([replies]).  Each
    returns the frames it has handed to [sendRequest] so far and, once it
    has settled, its result; [None] means it is still awaiting a reply. *)

Record DeviceAddress : Type := mkDeviceAddress {
  device : string;
  address : Z;
  count : option Z
}.

(** A [ReadResult]: an object from keys to numbers, in insertion order. *)
Definition ReadResult : Type := list (string * Z).

(** [results[key] = value] and [results[key]] ([None] is undefined). *)
Fixpoint objSet (key : string) (value : Z) (results : ReadResult) : ReadResult :=
  match results with
  | [] => [(key, value)]
  | (k, v) :: rest =>
      if (k =? key)%string then (key, value) :: rest
      else (k, v) :: objSet key value rest
  end.
Fixpoint objGet (key : string) (results : ReadResult) : option Z :=
  match results with
  | [] => None
  | (k, v) :: rest => if (k =? key)%string then Some v else objGet key rest
  end.

(** The template literal [`${device}${n}`], for a safe integer [n] (see
    [toString]). *)
Definition keyOf (device : string) (n : Z) : string :=
  (device ++ toString n)%string.

(** [for (let i = 0; i < values.length; i++) results[key] = values[i]],
    from index [i] on. *)
Fixpoint storeValues (device : string) (address i : Z) (values : list Z)
  (results : ReadResult) : ReadResult :=
  match values with
  | [] => results
  | value :: rest =>
      storeValues device address (i + 1) rest
        (objSet (keyOf device (address + i)) value results)
  end.

(** [addr.count || 1] *)
Definition countOrOne (c : option Z) : Z :=
  match c with
  | Some n => if n =? 0 then 1 else n
  | None => 1
  end.

(** The [for (const addr of addresses)] loop of [batchReadWordUnits]. *)
Fixpoint batchReadLoop (plcType : string) (addresses : list DeviceAddress)
  (replies : list outcome) (results : ReadResult) (requested : list (list byte))
  : list (list byte) * option (result ReadResult) :=
  match addresses with
  | [] => (requested, Some (Ok results))
  | addr :: rest =>
      match create4EReadFrame plcType (device addr) (address addr)
              (countOrOne (count addr)) with
      | Throw e => (requested, Some (Throw e))
      | Ok frame =>
          let requested := requested ++ [frame] in
          match replies with
          | [] => (requested, None)
          | Rejected e :: _ => (requested, Some (Throw e))
          | Resolved response :: replies' =>
              match parseReadResponse response with
              | Throw e => (requested, Some (Throw e))
              | Ok values =>
                  batchReadLoop plcType rest replies'
                    (storeValues (device addr) (address addr) 0 values results)
                    requested
              end
          end
      end
  end.

Definition batchReadWordUnits (plcType : string) (st : state)
  (addresses : list DeviceAddress) (replies : list outcome)
  : list (list byte) * option (result ReadResult) :=
  match socket st with
  | None => ([], Some (Throw (MCProtocolError NotConnectedToPLC None None)))
  | Some _ =>
      if negb (isConnected st) then
        ([], Some (Throw (MCProtocolError NotConnectedToPLC None None)))
      else batchReadLoop plcType addresses replies [] []
  end.

Definition readRegister (plcType : string) (st : state) (device : string)
  (address : Z) (replies : list outcome)
  : list (list byte) * option (result Z) :=
  let '(requested, awaited) :=
    batchReadWordUnits plcType st [mkDeviceAddress device address None] replies in
  (requested,
   match awaited with
   | None => None
   | Some (Throw e) => Some (Throw e)
   | Some (Ok results) =>
       let key := keyOf device address in
       match objGet key results with
       | None => Some (Throw (MCProtocolError (NoDataReceived key) None None))
       | Some value => Some (Ok value)
       end
   end).

(** The second [registers.map] of [plcRead]. *)
Fixpoint collectRegisters (registers : list string) (results : ReadResult)
  : result (list Z) :=
  match registers with
  | [] => Ok []
  | reg :: rest =>
      match objGet reg results with
      | None =>
          Throw (MCProtocolError (NoDataReceivedForRegister reg) None None)
      | Some value =>
          others <- collectRegisters rest results ;;
          Ok (value :: others)
      end
  end.

Definition plcRead (plcType : string) (st : state) (registers : list string)
  (replies : list outcome) : list (list byte) * option (result (list Z)) :=
  match mapRegisters registers with
  | Throw e => ([], Some (Throw e))
  | Ok addresses =>
      let '(requested, awaited) :=
        batchReadWordUnits plcType st
          (map (fun a => mkDeviceAddress (fst a) (snd a) None) addresses)
          replies in
      (requested,
       match awaited with
       | None => None
       | Some (Throw e) => Some (Throw e)
       | Some (Ok results) => Some (collectRegisters registers results)
       end)
  end.

(** The [for (const item of data)] loop of [batchWriteWordUnits]; an item
    is [{device, address, value}]. *)
Fixpoint batchWriteLoop (plcType : string) (data : list (string * Z * Z))
  (replies : list outcome) (requested : list (list byte))
  : list (list byte) * option (result unit) :=
  match data with
  | [] => (requested, Some (Ok tt))
  | (device, address, value) :: rest =>
      match create4EWriteFrame plcType device address [value] with
      | Throw e => (requested, Some (Throw e))
      | Ok frame =>
          let requested := requested ++ [frame] in
          match replies with
          | [] => (requested, None)
          | Rejected e :: _ => (requested, Some (Throw e))
          | Resolved _ :: replies' =>
              batchWriteLoop plcType rest replies' requested
          end
      end
  end.

Definition batchWriteWordUnits (plcType : string) (st : state)
  (data : list (string * Z * Z)) (replies : list outcome)
  : list (list byte) * option (result unit) :=
  match socket st with
  | None => ([], Some (Throw (MCProtocolError NotConnectedToPLC None None)))
  | Some _ =>
      if negb (isConnected st) then
        ([], Some (Throw (MCProtocolError NotConnectedToPLC None None)))
      else batchWriteLoop plcType data replies []
  end.

Definition writeRegister (plcType : string) (st : state) (device : string)
  (address value : Z) (replies : list outcome)
  : list (list byte) * option (result unit) :=
  batchWriteWordUnits plcType st [(device, address, value)] replies.



(** What the caller of a request that went through the correlator can be
    handed: a complete frame that decodes, one of the two errors of
    validation, the request timeout, the teardown of the connection or a
    failed write. *)
Definition answered (o : outcome) : Prop :=
  match o with
  | Resolved response =>
      complete response /\ exists values, parseReadResponse response = Ok values
  | Rejected e =>
      o = timedOut \/ o = connectionClosed \/ o = writeFailure
      \/ (exists subheader,
             subheader <> 0xd400
             /\ e = MCProtocolError (InvalidSubheader subheader) None None)
      \/ (exists code,
             code <> 0
             /\ e = MCProtocolError (PlcError code) None (Some code))
  end.

(* ===================================================================== *)
(** ** The compatibility wrapper [Type4E] (index.js) *)
(* ===================================================================== *)

Module Type4E.

(** What [batchread_wordunits] can throw: its own invalid-device-format
    error, or whatever the wrapped instance throws (the wrapper's
    not-connected error has the text of the instance's). *)
Inductive thrown : Type :=
| InvalidDeviceFormat (headdevice : string)  (* `Invalid device format: ${headdevice}` *)
| Raised (e : exn).

Inductive settled : Type :=
| Returned (values : list Z)
| Threw (t : thrown).

(** [for (let i = 0; i < readsize; i++) addresses.push({device, address})] *)
Fixpoint pushAddresses (fuel : nat) (deviceType : string)
  (startAddress i readsize : Z) (addresses : list DeviceAddress)
  : list DeviceAddress :=
  match fuel with
  | O => addresses
  | S fuel' =>
      if i <? readsize then
        pushAddresses fuel' deviceType startAddress (i + 1) readsize
          (addresses ++ [mkDeviceAddress deviceType (startAddress + i) None])
      else addresses
  end.

(** [for (let i = 0; i < readsize; i++) values.push(results[key] || 0)] *)
Fixpoint pushValues (fuel : nat) (deviceType : string)
  (startAddress i readsize : Z) (results : ReadResult) (values : list Z)
  : list Z :=
  match fuel with
  | O => values
  | S fuel' =>
      if i <? readsize then
        let key := keyOf deviceType (startAddress + i) in
        pushValues fuel' deviceType startAddress (i + 1) readsize results
          (values ++ [match objGet key results with
                      | Some value => if value =? 0 then 0 else value
                      | None => 0
                      end])
      else values
  end.

(** [batchread_wordunits(headdevice, readsize)]; [mcProtocol] is the
    wrapped instance, [None] before the first [connect].  Both loops run
    [readsize] times. *)
Definition batchread_wordunits (plcType : string) (mcProtocol : option state)
  (headdevice : string) (readsize : Z) (replies : list outcome)
  : list (list byte) * option settled :=
  match mcProtocol with
  | None =>
      ([], Some (Threw (Raised (MCProtocolError NotConnectedToPLC None None))))
  | Some st =>
      match matchRegister headdevice with
      | None => ([], Some (Threw (InvalidDeviceFormat headdevice)))
      | Some (deviceType, digits) =>
          let startAddress := numberOrNaN (parseInt digits None) in
          let addresses :=
            pushAddresses (Z.to_nat readsize) deviceType startAddress 0 readsize [] in
          let '(requested, awaited) :=
            batchReadWordUnits plcType st addresses replies in
          (requested,
           match awaited with
           | None => None
           | Some (Throw e) => Some (Threw (Raised e))
           | Some (Ok results) =>
               Some (Returned
                       (pushValues (Z.to_nat readsize) deviceType startAddress
                          0 readsize results []))
           end)
      end
  end.

End Type4E.

(** One register of a [batchread_wordunits] call: the frame requested for
    it, the response received and the values the response decodes to. *)
Definition wordExchange : Type := list byte * list byte * list Z.
Definition w_frame (x : wordExchange) : list byte := fst (fst x).
Definition w_response (x : wordExchange) : list byte := snd (fst x).
Definition w_values (x : wordExchange) : list Z := snd x.

(* ===================================================================== *)
(** * Properties *)
(* ===================================================================== *)

(** ** Sample frames *)

Example read_D100_Q : create4EReadFrame "Q" "D" 100 1 = Ok sampleRequest.
Proof. vm_compute. reflexivity. Qed.

Example response_12345 : parseReadResponse sampleFrame = Ok [12345].
Proof. vm_compute. reflexivity. Qed.

Example write_D200_minus1 :
  create4EWriteFrame "Q" "D" 200 [-1]
  = Ok (map byte.of_Z [0x54; 0x00; 0; 0; 0; 0; 0; 0xff; 0xff; 0x03; 0;
                       0x0e; 0x00; 0x04; 0x00;
                       0x01; 0x14; 0x00; 0x00; 200; 0; 0; 0xa8; 1; 0; 0xff; 0xff]).
Proof. vm_compute. reflexivity. Qed.

Example device_X10_is_16 :
  makeDeviceData "Q" "X" 10 = Ok (map byte.of_Z [0x10; 0; 0; 0x9c]).
Proof. vm_compute. reflexivity. Qed.


(** ** Buffer primitives *)

Lemma bind_Ok {A B} (r : result A) (k : A -> result B) (b : B) :
  bind r k = Ok b -> exists a, r = Ok a /\ k a = Ok b.
Proof. destruct r as [a|e]; simpl; intros H; [eauto | discriminate]. Qed.

Lemma Ok_inj {A} (a b : A) : Ok a = Ok b -> a = b.
Proof. congruence. Qed.

Lemma checkInt_Ok value lo hi :
  lo <= value <= hi -> checkInt value lo hi = Ok tt.
Proof.
  intros H. unfold checkInt.
  destruct (Z.ltb_spec hi value); [lia|].
  destruct (Z.ltb_spec value lo); [lia|]. reflexivity.
Qed.

Lemma checkInt_Throw value lo hi :
  ~ lo <= value <= hi -> checkInt value lo hi = Throw RangeError.
Proof.
  intros H. unfold checkInt.
  destruct (Z.ltb_spec hi value); [reflexivity|].
  destruct (Z.ltb_spec value lo); [reflexivity|lia].
Qed.

Lemma checkInt_inv value lo hi u :
  checkInt value lo hi = Ok u -> lo <= value <= hi.
Proof.
  unfold checkInt.
  destruct (Z.ltb_spec hi value); [discriminate|].
  destruct (Z.ltb_spec value lo); [discriminate|]. lia.
Qed.

Lemma encodeValue_short value :
  encodeValue value "short" false = writeUInt16LE value.
Proof. reflexivity. Qed.

Lemma encodeValue_short_signed value :
  encodeValue value "short" true = writeInt16LE value.
Proof. reflexivity. Qed.

Lemma writeUInt16LE_inv value b :
  writeUInt16LE value = Ok b -> b = le_split 2 value /\ 0 <= value <= 0xffff.
Proof.
  unfold writeUInt16LE. intros H.
  apply bind_Ok in H. destruct H as [u [Hc Hb]].
  apply checkInt_inv in Hc. inversion Hb. auto.
Qed.

Lemma writeUInt16LE_Ok value :
  0 <= value <= 0xffff -> writeUInt16LE value = Ok (le_split 2 value).
Proof. intros H. unfold writeUInt16LE. rewrite checkInt_Ok by assumption. reflexivity. Qed.

Lemma writeInt16LE_inv value b :
  writeInt16LE value = Ok b -> b = le_split 2 value /\ -0x8000 <= value <= 0x7fff.
Proof.
  unfold writeInt16LE. intros H.
  apply bind_Ok in H. destruct H as [u [Hc Hb]].
  apply checkInt_inv in Hc. inversion Hb. auto.
Qed.

Lemma le_combine_le_split_small n v :
  0 <= v < 2 ^ (Z.of_nat n * 8) -> le_combine (le_split n v) = v.
Proof. intros H. rewrite le_combine_split. apply Z.mod_small. exact H. Qed.

Lemma readUInt16LE_app_at (pre field post : list byte) :
  length field = 2%nat ->
  readUInt16LE (pre ++ field ++ post) (length pre) = Ok (le_combine field).
Proof.
  intros Hf. unfold readUInt16LE, slice.
  rewrite !length_app, Hf.
  destruct (Nat.leb_spec (length pre + 2) (length pre + (2 + length post))); [|lia].
  rewrite skipn_app, skipn_all, Nat.sub_diag.
  destruct field as [|x [|y [|z field]]]; try discriminate Hf.
  reflexivity.
Qed.

(** ** Frame builder *)

Lemma create4EReadFrame_wrap plcType device address count :
  create4EReadFrame plcType device address count
  = (body <- readRequestData plcType device address count ;; wrap4E body).
Proof.
  unfold create4EReadFrame, readRequestData, wrap4E.
  destruct (encodeValue 1025 "short" false) as [c|e]; [|reflexivity].
  cbn [bind].
  destruct (encodeValue _ "short" false) as [s|e]; [|reflexivity].
  cbn [bind].
  destruct (makeDeviceData plcType device address) as [d|e]; [|reflexivity].
  cbn [bind].
  destruct (encodeValue count "short" false) as [n|e]; [|reflexivity].
  cbn [bind].
  change (writeUInt16BE 21504) with (Ok (map byte.of_Z [0x54; 0x00])).
  change (encodeValue 0 "short" false) with (Ok (map byte.of_Z [0; 0])).
  change (encodeValue 0 "byte" false) with (Ok (map byte.of_Z [0])).
  change (encodeValue 255 "byte" false) with (Ok (map byte.of_Z [0xff])).
  change (encodeValue 1023 "short" false) with (Ok (map byte.of_Z [0xff; 0x03])).
  change (encodeValue 4 "short" false) with (Ok (le_split 2 4)).
  cbn [bind].
  destruct (encodeValue _ "short" false) as [l|e]; reflexivity.
Qed.

Lemma create4EWriteFrame_wrap plcType device address values :
  create4EWriteFrame plcType device address values
  = (body <- writeRequestData plcType device address values ;; wrap4E body).
Proof.
  unfold create4EWriteFrame, writeRequestData, wrap4E.
  destruct (encodeValue 5121 "short" false) as [c|e]; [|reflexivity].
  cbn [bind].
  destruct (encodeValue _ "short" false) as [s|e]; [|reflexivity].
  cbn [bind].
  destruct (makeDeviceData plcType device address) as [d|e]; [|reflexivity].
  cbn [bind].
  destruct (encodeValue (Z.of_nat (length values)) "short" false) as [n|e];
    [|reflexivity].
  cbn [bind].
  destruct (appendValues _ values) as [body|e]; [|reflexivity].
  cbn [bind].
  change (writeUInt16BE 21504) with (Ok (map byte.of_Z [0x54; 0x00])).
  change (encodeValue 0 "short" false) with (Ok (map byte.of_Z [0; 0])).
  change (encodeValue 0 "byte" false) with (Ok (map byte.of_Z [0])).
  change (encodeValue 255 "byte" false) with (Ok (map byte.of_Z [0xff])).
  change (encodeValue 1023 "short" false) with (Ok (map byte.of_Z [0xff; 0x03])).
  change (encodeValue 4 "short" false) with (Ok (le_split 2 4)).
  cbn [bind].
  destruct (encodeValue _ "short" false) as [l|e]; reflexivity.
Qed.

Lemma buildFrame_wrap plcType device address cmd :
  buildFrame plcType device address cmd
  = (body <- requestDataOf plcType device address cmd ;; wrap4E body).
Proof.
  destruct cmd; [apply create4EReadFrame_wrap | apply create4EWriteFrame_wrap].
Qed.

Lemma wrap4E_inv body frame :
  wrap4E body = Ok frame ->
  frame = header11 ++ le_split 2 (2 + Z.of_nat (length body)) ++ le_split 2 4 ++ body
  /\ 2 + Z.of_nat (length body) <= 0xffff.
Proof.
  unfold wrap4E, wordSize. rewrite encodeValue_short. intros H.
  apply bind_Ok in H. destruct H as [b [Hb Hf]].
  apply writeUInt16LE_inv in Hb. destruct Hb as [-> Hr].
  apply Ok_inj in Hf. subst frame. rewrite <- !app_assoc.
  split; [reflexivity | lia].
Qed.

Lemma wrap4E_shape body frame :
  wrap4E body = Ok frame ->
  skipn (fixedHeaderLength + timerFieldWidth) frame = body
  /\ length frame = (fixedHeaderLength + timerFieldWidth + length body)%nat
  /\ readUInt16LE frame lengthFieldOffset
     = Ok (Z.of_nat (timerFieldWidth + length body)).
Proof.
  intros H. apply wrap4E_inv in H. destruct H as [-> Hr].
  split; [|split].
  - reflexivity.
  - rewrite !length_app, !length_le_split. reflexivity.
  - change lengthFieldOffset with (length header11).
    rewrite readUInt16LE_app_at by apply length_le_split.
    rewrite le_combine_le_split_small.
    + f_equal. unfold timerFieldWidth. lia.
    + change (2 ^ (Z.of_nat 2 * 8)) with 65536. lia.
Qed.

(** ** Numerals: [toString] followed by [parseInt] *)

Lemma append_nil_r (s : string) : (s ++ "")%string = s.
Proof. induction s; simpl; congruence. Qed.

Lemma append_assoc (s t u : string) :
  ((s ++ t) ++ u)%string = (s ++ (t ++ u))%string.
Proof. induction s; simpl; congruence. Qed.

Lemma allChars_app p (s t : string) :
  allChars p (s ++ t) = allChars p s && allChars p t.
Proof. induction s; simpl; [reflexivity|]. rewrite IHs. apply andb_assoc. Qed.

Lemma readDigits_app R (s t : string) a :
  readDigits R (s ++ t) a = readDigits R t (readDigits R s a).
Proof. revert a. induction s; simpl; intros; [reflexivity | apply IHs]. Qed.

Lemma readDigits_nonneg R (s : string) :
  0 <= R -> allChars isDigit s = true ->
  forall a, 0 <= a -> 0 <= readDigits R s a.
Proof.
  intros HR. induction s as [|c s IH]; simpl; intros Hall a Ha; [assumption|].
  apply andb_true_iff in Hall. destruct Hall as [Hc Hs].
  apply IH; [assumption|].
  unfold isDigit in Hc. apply andb_true_iff in Hc. destruct Hc as [H1 H2].
  apply N.leb_le in H1. nia.
Qed.

Lemma digitChar_code d :
  0 <= d < 10 -> Z.of_N (N_of_ascii (digitChar d)) = 48 + d.
Proof.
  intros H. unfold digitChar. rewrite N_ascii_embedding by lia. lia.
Qed.

Lemma isDigit_digitChar d : 0 <= d < 10 -> isDigit (digitChar d) = true.
Proof.
  intros H. unfold isDigit, digitChar. rewrite N_ascii_embedding by lia.
  apply andb_true_iff. split; apply N.leb_le; lia.
Qed.

Lemma isDigit_range c :
  isDigit c = true -> 0 <= Z.of_N (N_of_ascii c) - 48 < 10.
Proof.
  unfold isDigit. intros H. apply andb_true_iff in H. destruct H as [H1 H2].
  apply N.leb_le in H1. apply N.leb_le in H2. lia.
Qed.

Lemma isDigit_plain c :
  isDigit c = true ->
  isSpace c = false /\ (c =? "-")%char = false /\ (c =? "+")%char = false
  /\ (c =? "x")%char = false /\ (c =? "X")%char = false
  /\ isUpper c = false.
Proof.
  intros H.
  destruct c as [[] [] [] [] [] [] [] []]; vm_compute in H; try discriminate H;
    vm_compute; repeat split.
Qed.

Lemma digitsOf_S fuel n acc :
  digitsOf (S fuel) n acc
  = if n / 10 =? 0 then String (digitChar (n mod 10)) acc
    else digitsOf fuel (n / 10) (String (digitChar (n mod 10)) acc).
Proof. reflexivity. Qed.

Lemma reread_S fuel R n :
  reread (S fuel) R n
  = if n / 10 =? 0 then n mod 10 else reread fuel R (n / 10) * R + n mod 10.
Proof. reflexivity. Qed.

Lemma digitsOf_prefix fuel :
  forall n acc, 0 <= n ->
    exists pre, digitsOf (S fuel) n acc = (pre ++ acc)%string
                /\ allChars isDigit pre = true /\ pre <> ""
                /\ forall R, readDigits R pre 0 = reread (S fuel) R n.
Proof.
  induction fuel as [|fuel IH]; intros n acc Hn;
    assert (Hd : 0 <= n mod 10 < 10) by (apply Z.mod_pos_bound; lia).
  - exists (String (digitChar (n mod 10)) "").
    repeat split.
    + simpl. destruct (n / 10 =? 0); reflexivity.
    + simpl. rewrite isDigit_digitChar by assumption. reflexivity.
    + discriminate.
    + intros R. simpl. rewrite digitChar_code by assumption.
      destruct (n / 10 =? 0); lia.
  - destruct (n / 10 =? 0) eqn:Hq.
    + exists (String (digitChar (n mod 10)) "").
      repeat split.
      * rewrite digitsOf_S, Hq. reflexivity.
      * simpl. rewrite isDigit_digitChar by assumption. reflexivity.
      * discriminate.
      * intros R. rewrite reread_S, Hq. simpl.
        rewrite digitChar_code by assumption. lia.
    + destruct (IH (n / 10) (String (digitChar (n mod 10)) acc))
        as [pre [Heq [Hall [Hne Hval]]]].
      { apply Z.div_pos; lia. }
      exists (pre ++ String (digitChar (n mod 10)) "")%string.
      repeat split.
      * rewrite digitsOf_S, Hq, Heq, append_assoc. reflexivity.
      * rewrite allChars_app, Hall. simpl.
        rewrite isDigit_digitChar by assumption. reflexivity.
      * destruct pre; [congruence | discriminate].
      * intros R. rewrite (reread_S (S fuel)), Hq, readDigits_app, Hval. simpl.
        rewrite digitChar_code by assumption. lia.
Qed.

Lemma reread_10 fuel :
  forall n, 0 <= n < 2 ^ Z.of_nat fuel -> reread fuel 10 n = n.
Proof.
  induction fuel as [|fuel IH]; intros n Hn.
  - simpl in *. lia.
  - cbn [reread]. destruct (Z.eqb_spec (n / 10) 0) as [Hq|Hq].
    + pose proof (Z.div_mod n 10). lia.
    + rewrite IH.
      * pose proof (Z.div_mod n 10). lia.
      * rewrite Nat2Z.inj_succ, Z.pow_succ_r in Hn by lia.
        split; [apply Z.div_pos; lia|].
        apply Z.div_lt_upper_bound; lia.
Qed.

Lemma rereadDigits_10 n : 0 <= n -> rereadDigits 10 n = n.
Proof.
  intros Hn. unfold rereadDigits.
  destruct (Z.eq_dec n 0) as [->|Hz]; [reflexivity|].
  apply reread_10. split; [assumption|].
  rewrite Nat2Z.inj_succ, Z2Nat.id by apply Z.log2_nonneg.
  apply Z.log2_spec. lia.
Qed.

Lemma parseDigits_digits R (s : string) :
  10 <= R -> allChars isDigit s = true ->
  forall a, parseDigits R s (Some a) = Some (readDigits R s a).
Proof.
  intros HR. induction s as [|c s IH]; simpl; intros Hall a; [reflexivity|].
  apply andb_true_iff in Hall. destruct Hall as [Hc Hs].
  unfold digitValue. rewrite Hc.
  pose proof (isDigit_range c Hc) as Hr.
  destruct (Z.ltb_spec (Z.of_N (N_of_ascii c) - 48) R); [|lia].
  apply IH. assumption.
Qed.

Lemma parseDigits_digits_start R (s : string) :
  10 <= R -> allChars isDigit s = true -> s <> "" ->
  parseDigits R s None = Some (readDigits R s 0).
Proof.
  intros HR Hall Hne. destruct s as [|c s]; [congruence|].
  simpl in *. apply andb_true_iff in Hall. destruct Hall as [Hc Hs].
  unfold digitValue. rewrite Hc.
  pose proof (isDigit_range c Hc) as Hr.
  destruct (Z.ltb_spec (Z.of_N (N_of_ascii c) - 48) R); [|lia].
  rewrite parseDigits_digits by assumption. reflexivity.
Qed.

(** On a non-empty string of decimal digits [parseInt] reads every
    character, in the radix asked for (10 when none is given). *)
Lemma parseInt_digits (s : string) (radix : option Z) :
  allChars isDigit s = true -> s <> "" ->
  match radix with Some R => 10 <= R <= 36 | None => True end ->
  parseInt s radix
  = Some (readDigits (match radix with Some R => R | None => 10 end) s 0).
Proof.
  intros Hall Hne HR. pose proof Hall as Hall'.
  destruct s as [|c s]; [congruence|].
  simpl in Hall. apply andb_true_iff in Hall. destruct Hall as [Hc Hs].
  destruct (isDigit_plain c Hc) as [Hsp [Hm [Hp _]]].
  unfold parseInt. cbn [skipSpaces]. rewrite Hsp.
  unfold splitSign. rewrite Hm, Hp.
  assert (Hstrip : stripHexPrefix (String c s) = None).
  { destruct s as [|c1 s]; [reflexivity|].
    simpl in Hs. apply andb_true_iff in Hs. destruct Hs as [Hc1 _].
    destruct (isDigit_plain c1 Hc1) as [_ [_ [_ [Hx [HX _]]]]].
    simpl. rewrite Hx, HX, andb_false_r. reflexivity. }
  destruct radix as [R|].
  - destruct (Z.eqb_spec R 0); [lia|].
    destruct (Z.ltb_spec R 2); [lia|]. destruct (Z.ltb_spec 36 R); [lia|].
    cbn [orb]. rewrite Hstrip.
    assert (Hgo : option_map (Z.mul 1) (parseDigits R (String c s) None)
                  = Some (readDigits R (String c s) 0)).
    { rewrite parseDigits_digits_start by (try assumption; try lia; discriminate).
      cbn [option_map]. f_equal. apply Z.mul_1_l. }
    destruct (R =? 16); exact Hgo.
  - cbn [Z.ltb Z.compare Pos.compare Pos.compare_cont orb]. rewrite Hstrip.
    rewrite parseDigits_digits_start by (try assumption; try lia; discriminate).
    cbn [option_map]. f_equal. apply Z.mul_1_l.
Qed.

Lemma toString_nonneg n :
  0 <= n ->
  allChars isDigit (toString n) = true /\ toString n <> ""
  /\ forall R, readDigits R (toString n) 0 = rereadDigits R n.
Proof.
  intros Hn. unfold toString, rereadDigits.
  destruct (Z.ltb_spec n 0); [lia|].
  destruct (digitsOf_prefix (Z.to_nat (Z.log2 n)) n "" Hn)
    as [pre [Heq [Hall [Hne Hval]]]].
  rewrite Heq, append_nil_r. auto.
Qed.

Lemma parseInt_toString n R :
  0 <= n -> 10 <= R <= 36 ->
  parseInt (toString n) (Some R) = Some (rereadDigits R n).
Proof.
  intros Hn HR. destruct (toString_nonneg n Hn) as [Hall [Hne Hval]].
  rewrite parseInt_digits by assumption. rewrite Hval. reflexivity.
Qed.

(** ** Device address codec *)

Lemma lookup_In key (table : list (string * Z)) v :
  lookup key table = Some v -> In (key, v) table.
Proof.
  induction table as [|[k w] rest IH]; simpl; [discriminate|].
  destruct (String.eqb_spec k key) as [->|Hne]; intros H.
  - left. congruence.
  - right. auto.
Qed.

Lemma DEVICE_CODES_wellFormed : forallb wellFormedEntry DEVICE_CODES = true.
Proof. vm_compute. reflexivity. Qed.

Lemma recognized_facts deviceType deviceCode :
  lookup deviceType DEVICE_CODES = Some deviceCode ->
  matchNonDigits deviceType = Some deviceType
  /\ 0 <= deviceCode <= 0xff
  /\ (getDeviceBase deviceType = 10 \/ getDeviceBase deviceType = 16).
Proof.
  intros H. apply lookup_In in H.
  pose proof DEVICE_CODES_wellFormed as W.
  rewrite forallb_forall in W. specialize (W _ H).
  unfold wellFormedEntry in W.
  repeat (apply andb_true_iff in W; destruct W as [W ?]).
  destruct (matchNonDigits deviceType) as [run|]; [|discriminate].
  apply String.eqb_eq in W. subst run.
  split; [reflexivity|]. split; [lia|].
  match goal with H0 : (_ || _) = true |- _ => apply orb_true_iff in H0; destruct H0 end;
    [left | right]; lia.
Qed.

(** What [makeDeviceData] returns for a recognized device type: the
    number it stores is the offset's decimal numeral read in the device
    type's base. *)
Lemma makeDeviceData_recognized plcType deviceType deviceCode address :
  lookup deviceType DEVICE_CODES = Some deviceCode -> 0 <= address ->
  let deviceNum := rereadDigits (getDeviceBase deviceType) address in
  makeDeviceData plcType deviceType address
  = if (plcType =? "iQ-R")%string then
      if deviceNum <=? 0xffffffff
      then Ok (le_split 4 deviceNum ++ le_split 2 deviceCode)
      else Throw RangeError
    else
      if deviceNum <=? 0xffffff
      then Ok (le_split 3 deviceNum ++ le_split 1 deviceCode)
      else Throw RangeError.
Proof.
  intros Hl Ha deviceNum.
  destruct (recognized_facts _ _ Hl) as [Hm [Hc Hb]].
  assert (Hn : 0 <= deviceNum).
  { destruct (toString_nonneg address Ha) as [Hall [_ Hval]].
    unfold deviceNum. rewrite <- Hval.
    apply readDigits_nonneg; try assumption; lia. }
  unfold makeDeviceData. rewrite Hm, Hl.
  rewrite parseInt_toString by (try assumption; lia).
  cbn [numberOrNaN]. fold deviceNum.
  destruct (plcType =? "iQ-R")%string.
  - unfold writeUInt32LE, writeUInt16LE.
    rewrite (checkInt_Ok deviceCode) by lia. cbn [bind app].
    destruct (Z.leb_spec deviceNum 0xffffffff).
    + rewrite checkInt_Ok by lia. reflexivity.
    + rewrite checkInt_Throw by lia. reflexivity.
  - unfold writeUIntLE3, writeUInt8.
    rewrite (checkInt_Ok deviceCode) by lia. cbn [bind app].
    destruct (Z.leb_spec deviceNum 0xffffff).
    + rewrite checkInt_Ok by lia. reflexivity.
    + rewrite checkInt_Throw by lia. reflexivity.
Qed.

Lemma le_combine_firstn_app (a b : list byte) :
  le_combine (firstn (length a) (a ++ b)) = le_combine a.
Proof.
  rewrite firstn_app, Nat.sub_diag, firstn_all. simpl. rewrite app_nil_r.
  reflexivity.
Qed.

Lemma skipn_length_app (a b : list byte) : skipn (length a) (a ++ b) = b.
Proof. rewrite skipn_app, skipn_all, Nat.sub_diag. reflexivity. Qed.

(** A read frame is built for every recognized device type, every offset
    whose device number fits the field and every count a 16-bit field
    holds. *)
Lemma create4EReadFrame_built plcType deviceType deviceCode address count :
  lookup deviceType DEVICE_CODES = Some deviceCode -> 0 <= address ->
  rereadDigits (getDeviceBase deviceType) address
    < 2 ^ (Z.of_nat (deviceNumberWidth plcType) * 8) ->
  0 <= count <= 0xffff ->
  exists frame, create4EReadFrame plcType deviceType address count = Ok frame.
Proof.
  intros Hl Ha Hfit Hc.
  rewrite create4EReadFrame_wrap. unfold readRequestData.
  rewrite (makeDeviceData_recognized plcType _ _ _ Hl Ha).
  rewrite !encodeValue_short, (writeUInt16LE_Ok count) by assumption.
  rewrite (writeUInt16LE_Ok 1025) by lia.
  unfold deviceNumberWidth in Hfit.
  destruct (plcType =? "iQ-R")%string.
  - change (2 ^ (Z.of_nat 4 * 8)) with 4294967296 in Hfit.
    destruct (Z.leb_spec (rereadDigits (getDeviceBase deviceType) address) 4294967295);
      [|lia].
    rewrite (writeUInt16LE_Ok 2) by lia.
    cbn [bind]. unfold wrap4E. rewrite encodeValue_short, writeUInt16LE_Ok.
    + eexists. reflexivity.
    + unfold wordSize. rewrite !length_app, !length_le_split. simpl. lia.
  - change (2 ^ (Z.of_nat 3 * 8)) with 16777216 in Hfit.
    destruct (Z.leb_spec (rereadDigits (getDeviceBase deviceType) address) 16777215);
      [|lia].
    rewrite (writeUInt16LE_Ok 0) by lia.
    cbn [bind]. unfold wrap4E. rewrite encodeValue_short, writeUInt16LE_Ok.
    + eexists. reflexivity.
    + unfold wordSize. rewrite !length_app, !length_le_split. simpl. lia.
Qed.

Lemma appendValues_Ok values :
  Forall (fun v => -0x8000 <= v <= 0x7fff) values ->
  forall requestData,
    exists body,
      appendValues requestData values = Ok body
      /\ length body = (length requestData + 2 * length values)%nat.
Proof.
  induction 1 as [|v values Hv Hrest IH]; intros requestData; cbn [appendValues].
  - exists requestData. split; [reflexivity | simpl; lia].
  - rewrite encodeValue_short_signed. unfold writeInt16LE.
    rewrite checkInt_Ok by assumption. cbn [bind].
    destruct (IH (requestData ++ le_split 2 v)) as [body [Hb Hl]].
    exists body. split; [assumption|].
    rewrite Hl, length_app, length_le_split. simpl. lia.
Qed.

(** A write frame is built under the same conditions on the device, for
    every list of values that are signed 16-bit numbers and few enough for
    the length field. *)
Lemma create4EWriteFrame_built plcType deviceType deviceCode address values :
  lookup deviceType DEVICE_CODES = Some deviceCode -> 0 <= address ->
  rereadDigits (getDeviceBase deviceType) address
    < 2 ^ (Z.of_nat (deviceNumberWidth plcType) * 8) ->
  Forall (fun v => -0x8000 <= v <= 0x7fff) values ->
  2 * Z.of_nat (length values) + 14 <= 0xffff ->
  exists frame, create4EWriteFrame plcType deviceType address values = Ok frame.
Proof.
  intros Hl Ha Hfit Hv Hn.
  rewrite create4EWriteFrame_wrap. unfold writeRequestData.
  rewrite (makeDeviceData_recognized plcType _ _ _ Hl Ha).
  rewrite !encodeValue_short.
  rewrite (writeUInt16LE_Ok (Z.of_nat (length values))) by lia.
  rewrite (writeUInt16LE_Ok 5121) by lia.
  unfold deviceNumberWidth in Hfit.
  destruct (plcType =? "iQ-R")%string.
  - change (2 ^ (Z.of_nat 4 * 8)) with 4294967296 in Hfit.
    destruct (Z.leb_spec (rereadDigits (getDeviceBase deviceType) address) 4294967295);
      [|lia].
    rewrite (writeUInt16LE_Ok 2) by lia. cbn [bind].
    match goal with
    | |- context [appendValues ?acc values] =>
        destruct (appendValues_Ok values Hv acc) as [body [Hb Hlen]]
    end.
    rewrite Hb. cbn [bind]. unfold wrap4E.
    rewrite encodeValue_short, writeUInt16LE_Ok.
    + eexists. reflexivity.
    + unfold wordSize. rewrite Hlen, !length_app, !length_le_split.
      cbn [length]. lia.
  - change (2 ^ (Z.of_nat 3 * 8)) with 16777216 in Hfit.
    destruct (Z.leb_spec (rereadDigits (getDeviceBase deviceType) address) 16777215);
      [|lia].
    rewrite (writeUInt16LE_Ok 0) by lia. cbn [bind].
    match goal with
    | |- context [appendValues ?acc values] =>
        destruct (appendValues_Ok values Hv acc) as [body [Hb Hlen]]
    end.
    rewrite Hb. cbn [bind]. unfold wrap4E.
    rewrite encodeValue_short, writeUInt16LE_Ok.
    + eexists. reflexivity.
    + unfold wordSize. rewrite Hlen, !length_app, !length_le_split.
      cbn [length]. lia.
Qed.

(** C1. The builder builds a frame for every recognized device type,
    every non-negative offset whose device number fits its field and every
    command whose count or values fit theirs; and every frame it returns,
    read or write, consists of the 13-byte fixed header, the 2-byte timer
    field and the command body it assembled: its length is the sum of the
    three, and the 16-bit field at offset 11 holds the timer width plus
    the length of that body. *)
Theorem C1_frame_length :
  forall plcType device address cmd,
    (forall frame,
        buildFrame plcType device address cmd = Ok frame ->
        exists body,
          requestDataOf plcType device address cmd = Ok body
          /\ skipn (fixedHeaderLength + timerFieldWidth) frame = body
          /\ length frame = (fixedHeaderLength + timerFieldWidth + length body)%nat
          /\ readUInt16LE frame lengthFieldOffset
             = Ok (Z.of_nat (timerFieldWidth + length body)))
    /\ (forall deviceCode,
          lookup device DEVICE_CODES = Some deviceCode -> 0 <= address ->
          rereadDigits (getDeviceBase device) address
            < 2 ^ (Z.of_nat (deviceNumberWidth plcType) * 8) ->
          fitsCommand cmd ->
          exists frame body,
            buildFrame plcType device address cmd = Ok frame
            /\ requestDataOf plcType device address cmd = Ok body
            /\ skipn (fixedHeaderLength + timerFieldWidth) frame = body
            /\ length frame
               = (fixedHeaderLength + timerFieldWidth + length body)%nat
            /\ readUInt16LE frame lengthFieldOffset
               = Ok (Z.of_nat (timerFieldWidth + length body))).
Proof.
  intros plcType device address cmd.
  assert (Hshape : forall frame,
             buildFrame plcType device address cmd = Ok frame ->
             exists body,
               requestDataOf plcType device address cmd = Ok body
               /\ skipn (fixedHeaderLength + timerFieldWidth) frame = body
               /\ length frame
                  = (fixedHeaderLength + timerFieldWidth + length body)%nat
               /\ readUInt16LE frame lengthFieldOffset
                  = Ok (Z.of_nat (timerFieldWidth + length body))).
  { intros frame H. rewrite buildFrame_wrap in H.
    apply bind_Ok in H. destruct H as [body [Hbody Hwrap]].
    exists body. split; [assumption|].
    apply wrap4E_shape. assumption. }
  split; [exact Hshape|].
  intros deviceCode Hl Ha Hfit Hcmd.
  assert (Hbuilt : exists frame, buildFrame plcType device address cmd = Ok frame).
  { destruct cmd as [count|values]; cbn [buildFrame fitsCommand] in *.
    - apply (create4EReadFrame_built _ _ deviceCode); try assumption. lia.
    - destruct Hcmd as [Hall Hn].
      apply (create4EWriteFrame_built _ _ deviceCode); assumption. }
  destruct Hbuilt as [frame Hframe].
  destruct (Hshape frame Hframe) as [body Hbody].
  exists frame, body. split; assumption.
Qed.

Lemma C1_frame_length_witness :
  (exists frame body,
      buildFrame "Q" "D" 100 (ReadCmd 1) = Ok frame
      /\ requestDataOf "Q" "D" 100 (ReadCmd 1) = Ok body
      /\ skipn (fixedHeaderLength + timerFieldWidth) frame = body
      /\ length frame = (fixedHeaderLength + timerFieldWidth + length body)%nat
      /\ readUInt16LE frame lengthFieldOffset
         = Ok (Z.of_nat (timerFieldWidth + length body)))
  /\ (exists frame body,
      buildFrame "iQ-R" "ZR" 7 (WriteCmd [-1; 2; 3]) = Ok frame
      /\ requestDataOf "iQ-R" "ZR" 7 (WriteCmd [-1; 2; 3]) = Ok body
      /\ skipn (fixedHeaderLength + timerFieldWidth) frame = body
      /\ length frame = (fixedHeaderLength + timerFieldWidth + length body)%nat
      /\ readUInt16LE frame lengthFieldOffset
         = Ok (Z.of_nat (timerFieldWidth + length body))).
Proof.
  assert (H1 : rereadDigits (getDeviceBase "D") 100
               < 2 ^ (Z.of_nat (deviceNumberWidth "Q") * 8))
    by (vm_compute; reflexivity).
  assert (H2 : rereadDigits (getDeviceBase "ZR") 7
               < 2 ^ (Z.of_nat (deviceNumberWidth "iQ-R") * 8))
    by (vm_compute; reflexivity).
  assert (C1 : fitsCommand (ReadCmd 1)) by (cbn [fitsCommand]; lia).
  assert (C2 : fitsCommand (WriteCmd [-1; 2; 3])).
  { cbn [fitsCommand]. split; [|simpl; lia].
    repeat constructor; lia. }
  split.
  - exact (proj2 (C1_frame_length "Q" "D" 100 (ReadCmd 1)) 0xa8 eq_refl
             ltac:(lia) H1 C1).
  - exact (proj2 (C1_frame_length "iQ-R" "ZR" 7 (WriteCmd [-1; 2; 3])) 0xb0 eq_refl
             ltac:(lia) H2 C2).
Defined.

(** C3, as stated, fails: for the hexadecimal device type X the device
    number stored for offset 10 is 16. *)
Lemma C3_counterexample :
  ~ (forall plcType deviceType deviceCode address bytes,
        lookup deviceType DEVICE_CODES = Some deviceCode -> 0 <= address ->
        makeDeviceData plcType deviceType address = Ok bytes ->
        le_combine (firstn (deviceNumberWidth plcType) bytes) = address).
Proof.
  intros H.
  specialize (H "Q" "X" 0x9c 10 (map byte.of_Z [0x10; 0; 0; 0x9c])
                eq_refl ltac:(lia) eq_refl).
  vm_compute in H. discriminate H.
Qed.

(** C3, amended. For a recognized device type and a non-negative
    safe-integer offset (at most 2^53 - 1, the range in which the offset
    is printed digit by digit), the device-number field holds the offset
    itself when the device type is decimal, and the offset's decimal
    numeral read in base 16 when the device type is hexadecimal; it is
    followed by the device code.  A number too large for the field is
    refused with a RangeError. *)
Theorem C3_device_number_encoding :
  forall plcType deviceType deviceCode address,
    lookup deviceType DEVICE_CODES = Some deviceCode ->
    0 <= address <= 9007199254740991 ->
    let deviceNum :=
      if getDeviceBase deviceType =? 16 then rereadDigits 16 address
      else address in
    let width := deviceNumberWidth plcType in
    (deviceNum < 2 ^ (Z.of_nat width * 8) ->
       exists bytes,
         makeDeviceData plcType deviceType address = Ok bytes
         /\ le_combine (firstn width bytes) = deviceNum
         /\ le_combine (skipn width bytes) = deviceCode)
    /\ (2 ^ (Z.of_nat width * 8) <= deviceNum ->
          makeDeviceData plcType deviceType address = Throw RangeError).
Proof.
  intros plcType deviceType deviceCode address Hl [Ha _] deviceNum width.
  destruct (recognized_facts _ _ Hl) as [_ [Hc Hb]].
  pose proof (makeDeviceData_recognized plcType _ _ _ Hl Ha) as Hm.
  cbv zeta in Hm.
  assert (Hnum : rereadDigits (getDeviceBase deviceType) address = deviceNum).
  { unfold deviceNum. destruct Hb as [-> | ->]; [|reflexivity].
    apply rereadDigits_10. assumption. }
  rewrite Hnum in Hm.
  assert (Hn : 0 <= deviceNum).
  { rewrite <- Hnum. destruct (toString_nonneg address Ha) as [Hall [_ Hval]].
    rewrite <- Hval. apply readDigits_nonneg; try assumption; lia. }
  unfold width, deviceNumberWidth. rewrite Hm.
  destruct (plcType =? "iQ-R")%string.
  - change (2 ^ (Z.of_nat 4 * 8)) with 4294967296.
    split; intros Hr.
    + destruct (Z.leb_spec deviceNum 4294967295); [|lia].
      eexists. split; [reflexivity|].
      change 4%nat with (length (le_split 4 deviceNum)) at 1 3.
      rewrite le_combine_firstn_app, skipn_length_app.
      rewrite !le_combine_le_split_small; [auto | | ].
      * change (2 ^ (Z.of_nat 2 * 8)) with 65536. lia.
      * change (2 ^ (Z.of_nat 4 * 8)) with 4294967296. lia.
    + destruct (Z.leb_spec deviceNum 4294967295); [lia|]. reflexivity.
  - change (2 ^ (Z.of_nat 3 * 8)) with 16777216.
    split; intros Hr.
    + destruct (Z.leb_spec deviceNum 16777215); [|lia].
      eexists. split; [reflexivity|].
      change 3%nat with (length (le_split 3 deviceNum)) at 1 3.
      rewrite le_combine_firstn_app, skipn_length_app.
      rewrite !le_combine_le_split_small; [auto | | ].
      * change (2 ^ (Z.of_nat 1 * 8)) with 256. lia.
      * change (2 ^ (Z.of_nat 3 * 8)) with 16777216. lia.
    + destruct (Z.leb_spec deviceNum 16777215); [lia|]. reflexivity.
Qed.

Lemma C3_device_number_encoding_witness :
  (exists bytes,
      makeDeviceData "Q" "X" 10 = Ok bytes
      /\ le_combine (firstn 3 bytes) = 16
      /\ le_combine (skipn 3 bytes) = 0x9c)
  /\ (exists bytes,
      makeDeviceData "iQ-R" "D" 10 = Ok bytes
      /\ le_combine (firstn 4 bytes) = 10
      /\ le_combine (skipn 4 bytes) = 0xa8)
  /\ makeDeviceData "Q" "X" 1000000 = Throw RangeError.
Proof.
  split; [|split].
  - apply (C3_device_number_encoding "Q" "X" 0x9c 10 eq_refl); [lia|].
    vm_compute. reflexivity.
  - apply (C3_device_number_encoding "iQ-R" "D" 0xa8 10 eq_refl); [lia|].
    vm_compute. reflexivity.
  - apply (C3_device_number_encoding "Q" "X" 0x9c 1000000 eq_refl); [lia|].
    vm_compute. discriminate.
Defined.

(** ** Response validator and decoder *)

Lemma readUInt16LE_inv buf offset v :
  readUInt16LE buf offset = Ok v ->
  (offset + 2 <= length buf)%nat /\ v = le_combine (slice buf offset 2).
Proof.
  unfold readUInt16LE.
  destruct (Nat.leb_spec (offset + 2) (length buf)) as [Hle|Hgt]; [|discriminate].
  intros Hv. apply Ok_inj in Hv. auto.
Qed.

Lemma readUInt16LE_in_range buf offset :
  (offset + 2 <= length buf)%nat ->
  readUInt16LE buf offset = Ok (le_combine (slice buf offset 2)).
Proof.
  intros H. unfold readUInt16LE.
  destruct (Nat.leb_spec (offset + 2) (length buf)); [reflexivity | lia].
Qed.

Lemma readInt16LE_in_range buf offset :
  (offset + 2 <= length buf)%nat ->
  readInt16LE buf offset = Ok (int16At buf offset).
Proof.
  intros H. unfold readInt16LE. rewrite readUInt16LE_in_range by assumption.
  reflexivity.
Qed.

(** With the subheader in place and at least 11 bytes, validation comes
    down to the status test, which is made only from 15 bytes on. *)
Lemma validateResponse_subheader_ok response :
  readUInt16BE response 0 = Ok 0xd400 -> (11 <= length response)%nat ->
  validateResponse response
  = if (15 <=? length response)%nat then
      errorCode <- readUInt16LE response 13 ;;
      if negb (errorCode =? 0) then
        Throw (MCProtocolError (PlcError errorCode) None (Some errorCode))
      else Ok tt
    else Ok tt.
Proof.
  intros Hs Hl. unfold validateResponse. rewrite Hs. cbn [bind].
  change (negb (54272 =? 54272)) with false. cbv iota.
  rewrite readUInt16LE_in_range by lia. reflexivity.
Qed.

(** The decoding loop returns one value per complete pair of bytes from
    [i] on; a last unpaired byte is skipped.  The fuel only has to cover
    the number of pairs. *)
Lemma parseLoop_pairs response :
  forall N fuel i values r,
    length response = (i + 2 * N + r)%nat -> (r <= 1)%nat -> (N <= fuel)%nat ->
    parseLoop fuel response i values
    = Ok (values ++ map (fun k => int16At response (i + 2 * k)) (seq 0 N)).
Proof.
  induction N as [|N IH]; intros fuel i values r Hlen Hr Hfuel.
  - simpl. rewrite app_nil_r.
    destruct fuel as [|fuel]; [reflexivity|]. cbn [parseLoop].
    destruct (Nat.ltb_spec i (length response)); [|reflexivity].
    destruct (Nat.ltb_spec (i + 1) (length response)); [lia|].
    destruct fuel as [|fuel]; [reflexivity|]. cbn [parseLoop].
    destruct (Nat.ltb_spec (i + 2) (length response)); [lia | reflexivity].
  - destruct fuel as [|fuel]; [lia|]. cbn [parseLoop].
    destruct (Nat.ltb_spec i (length response)); [|lia].
    destruct (Nat.ltb_spec (i + 1) (length response)); [|lia].
    rewrite readInt16LE_in_range by lia. cbn [bind].
    rewrite (IH fuel (i + 2)%nat _ r) by lia.
    f_equal. rewrite <- app_assoc. f_equal.
    cbn [seq map app]. rewrite Nat.mul_0_r, Nat.add_0_r. f_equal.
    rewrite <- seq_shift, map_map. apply map_ext. intros k. f_equal. lia.
Qed.

Lemma parseReadResponse_values response N r :
  readUInt16BE response 0 = Ok 0xd400 ->
  readUInt16LE response 13 = Ok 0 ->
  length response = (15 + 2 * N + r)%nat -> (r <= 1)%nat ->
  parseReadResponse response
  = Ok (map (fun k => int16At response (15 + 2 * k)) (seq 0 N)).
Proof.
  intros Hs Hst Hlen Hr. unfold parseReadResponse.
  rewrite validateResponse_subheader_ok by (assumption || lia).
  destruct (Nat.leb_spec 15 (length response)); [|lia].
  rewrite Hst. cbn [bind]. change (negb (0 =? 0)) with false. cbv iota.
  unfold dataStart. rewrite (parseLoop_pairs response N _ 15%nat [] r) by lia.
  reflexivity.
Qed.

(** C4. A frame with the response subheader whose status field (the 16-bit
    value at offset 13) is non-zero is refused, by [validateResponse] and by
    [parseReadResponse], with the PLC error carrying that code, so nothing
    is decoded; with a zero status and 2N bytes after offset 15 the decoder
    returns the N signed 16-bit little-endian values, in order. *)
Theorem C4_status_and_values :
  forall frame code,
    readUInt16BE frame 0 = Ok 0xd400 ->
    readUInt16LE frame 13 = Ok code ->
    (code <> 0 ->
       validateResponse frame
       = Throw (MCProtocolError (PlcError code) None (Some code))
       /\ parseReadResponse frame
          = Throw (MCProtocolError (PlcError code) None (Some code)))
    /\ (code = 0 ->
        forall N, length frame = (15 + 2 * N)%nat ->
          parseReadResponse frame
          = Ok (map (fun k => int16At frame (15 + 2 * k)) (seq 0 N))
          /\ length (map (fun k => int16At frame (15 + 2 * k)) (seq 0 N)) = N).
Proof.
  intros frame code Hs Hst.
  pose proof (readUInt16LE_inv _ _ _ Hst) as [Hlen _].
  split.
  - intros Hne.
    assert (Hv : validateResponse frame
                 = Throw (MCProtocolError (PlcError code) None (Some code))).
    { rewrite validateResponse_subheader_ok by (assumption || lia).
      destruct (Nat.leb_spec 15 (length frame)); [|lia].
      rewrite Hst. cbn [bind].
      destruct (Z.eqb_spec code 0); [contradiction | reflexivity]. }
    split; [exact Hv|]. unfold parseReadResponse. rewrite Hv. reflexivity.
  - intros -> N HN. split.
    + apply (parseReadResponse_values frame N 0%nat); try assumption; lia.
    + rewrite length_map, length_seq. reflexivity.
Qed.

Lemma C4_status_and_values_witness :
  (0x4031 <> 0 ->
     validateResponse (map byte.of_Z [0xd4; 0; 0; 0; 0; 0; 0; 0xff; 0xff; 3; 0;
                                      2; 0; 0x31; 0x40])
     = Throw (MCProtocolError (PlcError 0x4031) None (Some 0x4031))
     /\ parseReadResponse (map byte.of_Z [0xd4; 0; 0; 0; 0; 0; 0; 0xff; 0xff; 3; 0;
                                          2; 0; 0x31; 0x40])
        = Throw (MCProtocolError (PlcError 0x4031) None (Some 0x4031)))
  /\ parseReadResponse (map byte.of_Z [0xd4; 0; 0; 0; 0; 0; 0; 0xff; 0xff; 3; 0;
                                       6; 0; 0; 0; 0x39; 0x30; 0xff; 0xff])
     = Ok [12345; -1].
Proof.
  split.
  - destruct (C4_status_and_values
                (map byte.of_Z [0xd4; 0; 0; 0; 0; 0; 0; 0xff; 0xff; 3; 0;
                                2; 0; 0x31; 0x40]) 0x4031 eq_refl eq_refl)
      as [Hnz _].
    exact Hnz.
  - destruct (C4_status_and_values
                (map byte.of_Z [0xd4; 0; 0; 0; 0; 0; 0; 0xff; 0xff; 3; 0;
                                6; 0; 0; 0; 0x39; 0x30; 0xff; 0xff]) 0
                eq_refl eq_refl) as [_ Hz].
    destruct (Hz eq_refl 2%nat eq_refl) as [Hp _]. exact Hp.
Defined.

(** C5, as stated, fails: a 16-byte frame with the response subheader,
    zero status and one byte after offset 15 is decoded without error. *)
Lemma C5_counterexample :
  ~ (forall frame,
        readUInt16BE frame 0 = Ok 0xd400 ->
        readUInt16LE frame 13 = Ok 0 ->
        Nat.odd (length frame - 15) = true ->
        exists e, parseReadResponse frame = Throw e).
Proof.
  intros H.
  destruct (H (map byte.of_Z [0xd4; 0; 0; 0; 0; 0; 0; 0xff; 0xff; 3; 0;
                              3; 0; 0; 0; 0x39])
              eq_refl eq_refl eq_refl) as [e He].
  vm_compute in He. discriminate He.
Qed.

(** C5, amended. With the response subheader, zero status and 2N+1 bytes
    after offset 15, decoding succeeds: it returns the N values of the
    complete pairs, in order, and leaves the last byte out. *)
Theorem C5_odd_tail_is_dropped :
  forall frame N,
    readUInt16BE frame 0 = Ok 0xd400 ->
    readUInt16LE frame 13 = Ok 0 ->
    length frame = (15 + 2 * N + 1)%nat ->
    parseReadResponse frame
    = Ok (map (fun k => int16At frame (15 + 2 * k)) (seq 0 N)).
Proof.
  intros frame N Hs Hst Hlen.
  apply (parseReadResponse_values frame N 1%nat); try assumption; lia.
Qed.

Lemma C5_odd_tail_is_dropped_witness :
  parseReadResponse (map byte.of_Z [0xd4; 0; 0; 0; 0; 0; 0; 0xff; 0xff; 3; 0;
                                    5; 0; 0; 0; 0x39; 0x30; 0x07])
  = Ok [12345].
Proof.
  apply (C5_odd_tail_is_dropped
           (map byte.of_Z [0xd4; 0; 0; 0; 0; 0; 0; 0xff; 0xff; 3; 0;
                           5; 0; 0; 0; 0x39; 0x30; 0x07]) 1%nat);
    reflexivity.
Defined.

(** C9. A frame with the response subheader that is shorter than 15 bytes
    (a complete frame has at least 13) passes validation whatever its
    bytes from offset 11 on are: the status is not looked at, and no PLC
    error is raised. *)
Theorem C9_short_frame_skips_status :
  forall frame,
    readUInt16BE frame 0 = Ok 0xd400 ->
    (11 <= length frame < 15)%nat ->
    validateResponse frame = Ok tt
    /\ forall code other1 other2,
         validateResponse frame
         <> Throw (MCProtocolError (PlcError code) other1 other2).
Proof.
  intros frame Hs Hl.
  assert (Hv : validateResponse frame = Ok tt).
  { rewrite validateResponse_subheader_ok by (assumption || lia).
    destruct (Nat.leb_spec 15 (length frame)); [lia | reflexivity]. }
  split; [exact Hv|]. intros code o1 o2. rewrite Hv. discriminate.
Qed.

Lemma C9_short_frame_skips_status_witness :
  validateResponse (map byte.of_Z [0xd4; 0; 0; 0; 0; 0; 0; 0xff; 0xff; 3; 0;
                                   1; 0; 0x31]) = Ok tt
  /\ forall code other1 other2,
       validateResponse (map byte.of_Z [0xd4; 0; 0; 0; 0; 0; 0; 0xff; 0xff; 3; 0;
                                        1; 0; 0x31])
       <> Throw (MCProtocolError (PlcError code) other1 other2).
Proof.
  apply (C9_short_frame_skips_status
           (map byte.of_Z [0xd4; 0; 0; 0; 0; 0; 0; 0xff; 0xff; 3; 0;
                           1; 0; 0x31]) eq_refl).
  simpl. lia.
Defined.

(** ** Register names *)

Lemma takeWhile_dropWhile p (s : string) :
  (takeWhile p s ++ dropWhile p s)%string = s /\ allChars p (takeWhile p s) = true.
Proof.
  induction s as [|c s [IH1 IH2]]; simpl; [auto|].
  destruct (p c) eqn:Hc; simpl; [|auto].
  rewrite IH1, Hc, IH2. auto.
Qed.

Lemma dropWhile_head p (s : string) c r :
  dropWhile p s = String c r -> p c = false.
Proof.
  induction s as [|c0 s IH]; simpl; [discriminate|].
  destruct (p c0) eqn:Hc; [assumption|].
  intros H. injection H as -> _. assumption.
Qed.

Lemma takeWhile_app_stop p (l : string) c r :
  allChars p l = true -> p c = false ->
  takeWhile p (l ++ String c r) = l /\ dropWhile p (l ++ String c r) = String c r.
Proof.
  intros Hall Hc. induction l as [|c0 l IH]; simpl in *.
  - rewrite Hc. auto.
  - apply andb_true_iff in Hall. destruct Hall as [H0 Hl].
    rewrite H0. destruct (IH Hl) as [-> ->]. auto.
Qed.

Lemma matchRegister_form reg letters digits :
  matchRegister reg = Some (letters, digits)
  <-> registerForm isUpper reg letters digits.
Proof.
  unfold matchRegister, registerForm. split.
  - intros H. destruct (takeWhile_dropWhile isUpper reg) as [Happ Hall].
    destruct (takeWhile isUpper reg) as [|c l] eqn:Ht; [discriminate|].
    destruct (dropWhile isUpper reg) as [|d ds] eqn:Hd; [discriminate|].
    destruct (allChars isDigit (String d ds)) eqn:Hdig; [|discriminate].
    injection H as <- <-.
    repeat split; try assumption; try discriminate. symmetry. exact Happ.
  - intros [-> [Hl [Hup [Hd Hdig]]]].
    destruct digits as [|d ds]; [congruence|].
    assert (Hd0 : isUpper d = false).
    { simpl in Hdig. apply andb_true_iff in Hdig. destruct Hdig as [Hd0 _].
      apply isDigit_plain in Hd0. tauto. }
    destruct (takeWhile_app_stop isUpper letters d ds Hup Hd0) as [-> ->].
    destruct letters as [|c l]; [congruence|]. rewrite Hdig. reflexivity.
Qed.

Lemma parseRegister_accepts reg letters digits :
  registerForm isUpper reg letters digits ->
  parseRegister reg = Ok (letters, readDigits 10 digits 0).
Proof.
  intros H. pose proof H as [_ [_ [_ [Hd Hdig]]]].
  apply matchRegister_form in H. unfold parseRegister. rewrite H.
  rewrite (parseInt_digits digits None) by (assumption || exact I).
  reflexivity.
Qed.

Lemma parseRegister_rejects reg :
  (forall letters digits, ~ registerForm isUpper reg letters digits) ->
  parseRegister reg = Throw (MCProtocolError (InvalidRegisterFormat reg) None None).
Proof.
  intros H. unfold parseRegister.
  destruct (matchRegister reg) as [[l d]|] eqn:Hm; [|reflexivity].
  apply matchRegister_form in Hm. exfalso. exact (H l d Hm).
Qed.

Lemma parseRegister_cases reg :
  (exists letters digits, registerForm isUpper reg letters digits)
  \/ (forall letters digits, ~ registerForm isUpper reg letters digits).
Proof.
  destruct (matchRegister reg) as [[l d]|] eqn:Hm.
  - left. exists l, d. apply matchRegister_form. assumption.
  - right. intros l d H. apply matchRegister_form in H. congruence.
Qed.

Lemma mapRegisters_rejects registers :
  forall reg, In reg registers ->
    (forall letters digits, ~ registerForm isUpper reg letters digits) ->
    exists bad,
      In bad registers
      /\ (forall letters digits, ~ registerForm isUpper bad letters digits)
      /\ mapRegisters registers
         = Throw (MCProtocolError (InvalidRegisterFormat bad) None None).
Proof.
  induction registers as [|r rest IH]; intros reg Hin Hbad; [contradiction|].
  cbn [mapRegisters].
  destruct (parseRegister_cases r) as [[l [d Hform]] | Hr].
  - rewrite (parseRegister_accepts _ _ _ Hform). cbn [bind].
    destruct Hin as [-> | Hin]; [exfalso; exact (Hbad l d Hform)|].
    destruct (IH reg Hin Hbad) as [bad [Hb1 [Hb2 Hb3]]].
    exists bad. rewrite Hb3. repeat split; [right|..]; assumption.
  - exists r. rewrite (parseRegister_rejects r Hr).
    repeat split; [left; reflexivity | assumption].
Qed.

(** C8, as stated, fails: the lower-case name d0 has the form
    [A-Za-z]+[0-9]+ and is refused. *)
Lemma C8_counterexample :
  ~ (forall reg letters digits,
        registerForm isLetter reg letters digits ->
        exists address, parseRegister reg = Ok (letters, address)).
Proof.
  intros H.
  destruct (H "d0" "d" "0") as [address Ha].
  - unfold registerForm. repeat split; discriminate.
  - vm_compute in Ha. discriminate Ha.
Qed.

Lemma mapRegisters_first_bad good :
  forall bad rest,
    (forall g, In g good ->
       exists letters digits, registerForm isUpper g letters digits) ->
    (forall letters digits, ~ registerForm isUpper bad letters digits) ->
    mapRegisters (good ++ bad :: rest)
    = Throw (MCProtocolError (InvalidRegisterFormat bad) None None).
Proof.
  induction good as [|g good IH]; intros bad rest Hgood Hbad;
    cbn [app mapRegisters].
  - rewrite (parseRegister_rejects bad Hbad). reflexivity.
  - destruct (Hgood g (or_introl eq_refl)) as [l [d Hform]].
    rewrite (parseRegister_accepts _ _ _ Hform). cbn [bind].
    rewrite IH; [reflexivity | | assumption].
    intros g' Hg'. apply Hgood. right. exact Hg'.
Qed.

(** C8, amended. [plcRead] accepts exactly the names made of one or more
    upper-case letters A-Z followed by one or more decimal digits, and
    parses such a name into its letters and a number, which is the decimal
    value of its digits whenever that value is a safe integer (at most
    2^53 - 1).  Any other name is refused with the invalid-register-format
    error, and a list of names is refused with that error for its first
    such name, the names before it being well formed, before a frame is
    built or sent: nothing is requested and the connection state is left
    as it was. *)
Theorem C8_register_names :
  forall reg,
    (forall letters digits,
        registerForm isUpper reg letters digits ->
        exists address,
          parseRegister reg = Ok (letters, address)
          /\ (readDigits 10 digits 0 <= 9007199254740991 ->
              address = readDigits 10 digits 0))
    /\ ((forall letters digits, ~ registerForm isUpper reg letters digits) ->
        parseRegister reg
        = Throw (MCProtocolError (InvalidRegisterFormat reg) None None)
        /\ forall plcType good rest st replies,
             (forall g, In g good ->
                exists letters digits, registerForm isUpper g letters digits) ->
             plcRead_start plcType (good ++ reg :: rest) st
             = (st, Throw (MCProtocolError (InvalidRegisterFormat reg) None None))
             /\ plcRead plcType st (good ++ reg :: rest) replies
                = ([], Some (Throw (MCProtocolError (InvalidRegisterFormat reg)
                                      None None)))).
Proof.
  intros reg. split.
  - intros letters digits H. exists (readDigits 10 digits 0).
    split; [apply parseRegister_accepts; assumption | reflexivity].
  - intros Hbad. split; [apply parseRegister_rejects; assumption|].
    intros plcType good rest st replies Hgood.
    unfold plcRead_start, plcRead.
    rewrite (mapRegisters_first_bad good reg rest Hgood Hbad).
    split; reflexivity.
Qed.

Example plcRead_start_sends_first_frame :
  exists frame,
    create4EReadFrame "Q" "D" 0 1 = Ok frame
    /\ written (fst (plcRead_start "Q" ["D0"; "D1"] connectedState)) = [frame]
    /\ snd (plcRead_start "Q" ["D0"; "D1"] connectedState) = Ok tt.
Proof. eexists. split; [vm_compute; reflexivity|]. split; reflexivity. Qed.

Lemma C8_register_names_witness :
  (exists address,
      parseRegister "ZR100" = Ok ("ZR", address)
      /\ (readDigits 10 "100" 0 <= 9007199254740991 ->
          address = readDigits 10 "100" 0))
  /\ parseRegister "d0"
     = Throw (MCProtocolError (InvalidRegisterFormat "d0") None None)
  /\ plcRead_start "Q" ["D0"; "D1"; "d0"; "D2"; "x"] connectedState
     = (connectedState,
        Throw (MCProtocolError (InvalidRegisterFormat "d0") None None))
  /\ plcRead "Q" connectedState ["D0"; "D1"; "d0"; "D2"; "x"]
       [Resolved sampleFrame]
     = ([], Some (Throw (MCProtocolError (InvalidRegisterFormat "d0") None None))).
Proof.
  assert (Hbad : forall letters digits, ~ registerForm isUpper "d0" letters digits).
  { intros l d H. apply matchRegister_form in H. vm_compute in H. discriminate H. }
  assert (Hgood : forall g, In g ["D0"; "D1"] ->
            exists letters digits, registerForm isUpper g letters digits).
  { intros g [<- | [<- | []]].
    - exists "D", "0". unfold registerForm. repeat split; discriminate.
    - exists "D", "1". unfold registerForm. repeat split; discriminate. }
  split; [|split].
  - destruct (C8_register_names "ZR100") as [Hacc _].
    apply (Hacc "ZR" "100"). unfold registerForm. repeat split; discriminate.
  - destruct (C8_register_names "d0") as [_ Hrej].
    destruct (Hrej Hbad) as [Hp _]. exact Hp.
  - destruct (C8_register_names "d0") as [_ Hrej].
    destruct (Hrej Hbad) as [_ Hall].
    exact (Hall "Q" ["D0"; "D1"] ["D2"; "x"] connectedState
             [Resolved sampleFrame] Hgood).
Defined.

(** ** Stream reassembler *)

Lemma slice_app_prefix (a b : list byte) start n :
  (start + n <= length a)%nat -> slice (a ++ b) start n = slice a start n.
Proof.
  intros H. unfold slice.
  rewrite skipn_app, firstn_app, length_skipn.
  replace (n - (length a - start))%nat with 0%nat by lia.
  rewrite firstn_O, app_nil_r. reflexivity.
Qed.

Lemma readUInt16LE_app_prefix (a b : list byte) offset :
  (offset + 2 <= length a)%nat ->
  readUInt16LE (a ++ b) offset = readUInt16LE a offset.
Proof.
  intros H. unfold readUInt16LE. rewrite slice_app_prefix by assumption.
  rewrite length_app.
  destruct (Nat.leb_spec (offset + 2) (length a)); [|lia].
  destruct (Nat.leb_spec (offset + 2) (length a + length b)); [reflexivity | lia].
Qed.

Lemma responseBuffer_set buf st :
  responseBuffer (set_responseBuffer buf st) = buf.
Proof. reflexivity. Qed.

Lemma processResponse_responseBuffer response st :
  responseBuffer (processResponse response st) = responseBuffer st.
Proof.
  unfold processResponse. cbn.
  destruct (pendingRequests st) as [|[requestId request] rest]; [reflexivity|].
  destruct (validateResponse response); reflexivity.
Qed.

Lemma processResponse_processed response st :
  processed (processResponse response st) = processed st ++ [response].
Proof.
  unfold processResponse. cbn.
  destruct (pendingRequests st) as [|[requestId request] rest]; [reflexivity|].
  destruct (validateResponse response); reflexivity.
Qed.

Lemma handleLoop_short fuel st :
  (length (responseBuffer st) < 13)%nat -> handleLoop fuel st = st.
Proof.
  intros H. destruct fuel as [|fuel]; [reflexivity|]. cbn [handleLoop].
  destruct (Nat.leb_spec 13 (length (responseBuffer st))); [lia | reflexivity].
Qed.

(** While the buffer is a strict prefix of a complete frame the loop
    extracts nothing. *)
Lemma handleLoop_prefix fuel st frame tail :
  complete frame -> frame = responseBuffer st ++ tail -> tail <> [] ->
  handleLoop fuel st = st.
Proof.
  intros [Hlen Hfield] Heq Htail.
  destruct fuel as [|fuel]; [reflexivity|]. cbn [handleLoop].
  destruct (Nat.leb_spec 13 (length (responseBuffer st))) as [H13|H13];
    [|reflexivity].
  assert (Hl : length frame = (length (responseBuffer st) + length tail)%nat)
    by (rewrite Heq; apply length_app).
  assert (Ht : (0 < length tail)%nat) by (destruct tail; [congruence | simpl; lia]).
  rewrite Heq, readUInt16LE_app_prefix in Hfield by lia.
  rewrite Hfield. rewrite <- Heq.
  replace (Z.to_nat (13 + (Z.of_nat (length frame) - 13))) with (length frame) by lia.
  destruct (Nat.leb_spec (length frame) (length (responseBuffer st)));
    [lia | reflexivity].
Qed.

(** A complete frame at the head of the buffer is cut off and handed to
    [processResponse]; the loop goes on with what follows it. *)
Lemma handleLoop_extract fuel st frame rest :
  complete frame -> responseBuffer st = frame ++ rest ->
  handleLoop (S fuel) st
  = handleLoop fuel (processResponse frame (set_responseBuffer rest st)).
Proof.
  intros [Hlen Hfield] Heq. cbn [handleLoop]. rewrite Heq.
  rewrite length_app.
  destruct (Nat.leb_spec 13 (length frame + length rest)); [|lia].
  rewrite readUInt16LE_app_prefix, Hfield by lia.
  replace (Z.to_nat (13 + (Z.of_nat (length frame) - 13))) with (length frame) by lia.
  destruct (Nat.leb_spec (length frame) (length frame + length rest)); [|lia].
  rewrite firstn_app, firstn_all, Nat.sub_diag, firstn_O, app_nil_r.
  rewrite skipn_app, skipn_all, Nat.sub_diag, skipn_O. reflexivity.
Qed.

(** The loop ends because its condition fails, not because the fuel runs
    out: afterwards the buffer is shorter than a header, or shorter than
    the frame its header announces. *)
Lemma handleLoop_runs_to_exit fuel :
  forall st, (length (responseBuffer st) <= fuel)%nat ->
    loopCondition (responseBuffer (handleLoop fuel st)) = false.
Proof.
  induction fuel as [|fuel IH]; intros st Hfuel.
  - simpl. unfold loopCondition.
    destruct (Nat.leb_spec 13 (length (responseBuffer st))); [lia | reflexivity].
  - cbn [handleLoop]. unfold loopCondition at 1.
    destruct (Nat.leb_spec 13 (length (responseBuffer st))) as [H13|H13].
    + destruct (readUInt16LE (responseBuffer st) 11) as [dataLength|e] eqn:Hr.
      * destruct (Nat.leb_spec (Z.to_nat (13 + dataLength))
                    (length (responseBuffer st))) as [Hfit|Hfit].
        -- apply IH. rewrite processResponse_responseBuffer, responseBuffer_set.
           rewrite length_skipn.
           apply readUInt16LE_inv in Hr. destruct Hr as [_ ->].
           pose proof (le_combine_bound (slice (responseBuffer st) 11 2)). lia.
        -- unfold loopCondition. rewrite Hr.
           destruct (Nat.leb_spec 13 (length (responseBuffer st))); [|lia].
           destruct (Nat.leb_spec (Z.to_nat (13 + dataLength))
                       (length (responseBuffer st))); [lia | reflexivity].
      * unfold loopCondition. rewrite Hr. apply andb_false_r.
    + unfold loopCondition.
      destruct (Nat.leb_spec 13 (length (responseBuffer st))); [lia | reflexivity].
Qed.

Lemma handleResponse_prefix data st frame tail :
  complete frame -> frame = (responseBuffer st ++ data) ++ tail -> tail <> [] ->
  processed (handleResponse data st) = processed st
  /\ responseBuffer (handleResponse data st) = responseBuffer st ++ data.
Proof.
  intros Hc Heq Htail. unfold handleResponse.
  rewrite (handleLoop_prefix _ _ frame tail Hc); [split; reflexivity | | assumption].
  exact Heq.
Qed.

Lemma handleResponse_completes data st frame :
  complete frame -> frame = responseBuffer st ++ data ->
  processed (handleResponse data st) = processed st ++ [frame]
  /\ responseBuffer (handleResponse data st) = [].
Proof.
  intros Hc Heq. unfold handleResponse.
  change (responseBuffer (set_responseBuffer (responseBuffer st ++ data) st))
    with (responseBuffer st ++ data).
  rewrite <- Heq.
  destruct (length frame) as [|fuel] eqn:Hlen; [destruct Hc; lia|].
  rewrite (handleLoop_extract fuel _ frame []) by
    (try assumption; rewrite responseBuffer_set, app_nil_r; reflexivity).
  rewrite handleLoop_short.
  - rewrite processResponse_processed, processResponse_responseBuffer.
    split; reflexivity.
  - rewrite processResponse_responseBuffer, responseBuffer_set. simpl. lia.
Qed.

Lemma feed_chunks frame (Hc : complete frame) :
  forall chunks st,
    Forall (fun c => c <> []) chunks ->
    frame = responseBuffer st ++ concat chunks ->
    responseBuffer st <> frame ->
    processed (feed chunks st) = processed st ++ [frame]
    /\ responseBuffer (feed chunks st) = [].
Proof.
  induction chunks as [|c chunks IH]; intros st Hne Heq Hstrict.
  - simpl in Heq. rewrite app_nil_r in Heq. congruence.
  - apply Forall_cons_iff in Hne. destruct Hne as [Hc0 Hrest].
    cbn [feed fold_left]. fold (feed chunks (handleResponse c st)).
    cbn [concat] in Heq. rewrite app_assoc in Heq.
    destruct chunks as [|c1 chunks].
    + cbn [concat] in Heq. rewrite app_nil_r in Heq.
      cbn [feed fold_left]. apply handleResponse_completes; assumption.
    + assert (Hc1 : c1 <> []) by (apply Forall_cons_iff in Hrest; tauto).
      assert (Htail : concat (c1 :: chunks) <> []).
      { cbn [concat]. destruct c1; [congruence | discriminate]. }
      destruct (handleResponse_prefix c st frame (concat (c1 :: chunks)) Hc Heq Htail)
        as [Hp Hb].
      destruct (IH (handleResponse c st) Hrest) as [Hp' Hb'].
      * rewrite Hb. exact Heq.
      * rewrite Hb. intros Hcontra.
        apply (f_equal (@length byte)) in Heq. rewrite length_app in Heq.
        rewrite Hcontra in Heq.
        destruct (concat (c1 :: chunks)); [congruence | simpl in Heq; lia].
      * rewrite Hp', Hb', Hp. split; reflexivity.
Qed.

(** C2. Starting from an empty buffer: a complete frame delivered in any
    sequence of non-empty chunks is extracted exactly once, byte for byte,
    and the buffer ends empty; two complete frames delivered in one chunk
    are extracted in order; a strict prefix of a complete frame extracts
    nothing and stays in the buffer. *)
Theorem C2_reassembly :
  forall st frame,
    responseBuffer st = [] -> complete frame ->
    (forall chunks,
        Forall (fun c => c <> []) chunks -> concat chunks = frame ->
        processed (feed chunks st) = processed st ++ [frame]
        /\ responseBuffer (feed chunks st) = [])
    /\ (forall frame2,
           complete frame2 ->
           processed (handleResponse (frame ++ frame2) st)
           = processed st ++ [frame; frame2]
           /\ responseBuffer (handleResponse (frame ++ frame2) st) = [])
    /\ (forall head tail,
           frame = head ++ tail -> tail <> [] ->
           processed (handleResponse head st) = processed st
           /\ responseBuffer (handleResponse head st) = head).
Proof.
  intros st frame Hempty Hc. split; [|split].
  - intros chunks Hne Hcat. apply (feed_chunks frame Hc); try assumption.
    + rewrite Hempty. simpl. congruence.
    + rewrite Hempty. destruct Hc as [Hl _]. destruct frame; [simpl in Hl; lia|].
      discriminate.
  - intros frame2 Hc2. unfold handleResponse.
    change (responseBuffer (set_responseBuffer (responseBuffer st ++ frame ++ frame2) st))
      with (responseBuffer st ++ frame ++ frame2).
    rewrite Hempty. cbn [app].
    destruct (length (frame ++ frame2)) as [|[|fuel]] eqn:Hlen;
      try (rewrite length_app in Hlen; destruct Hc, Hc2; lia).
    rewrite (handleLoop_extract _ _ frame frame2 Hc) by reflexivity.
    rewrite (handleLoop_extract _ _ frame2 [] Hc2) by
      (rewrite processResponse_responseBuffer, responseBuffer_set, app_nil_r;
       reflexivity).
    rewrite handleLoop_short.
    + rewrite !processResponse_processed, !processResponse_responseBuffer.
      rewrite responseBuffer_set.
      change (processed (set_responseBuffer [] ?s)) with (processed s).
      rewrite processResponse_processed.
      change (processed (set_responseBuffer frame2 ?s)) with (processed st).
      rewrite <- app_assoc. split; reflexivity.
    + rewrite !processResponse_responseBuffer, responseBuffer_set. simpl. lia.
  - intros head tail Heq Htail.
    destruct (handleResponse_prefix head st frame tail Hc) as [Hp Hb];
      try assumption.
    + rewrite Hempty. exact Heq.
    + rewrite Hp, Hb, Hempty. split; reflexivity.
Qed.

Lemma sampleFrame_complete : complete sampleFrame.
Proof. split; [simpl; lia | reflexivity]. Qed.

Lemma C2_reassembly_witness :
  (processed (feed (map (fun b => [b]) sampleFrame) initial) = [sampleFrame]
   /\ responseBuffer (feed (map (fun b => [b]) sampleFrame) initial) = [])
  /\ (processed (handleResponse (sampleFrame ++ sampleFrame) initial)
      = [sampleFrame; sampleFrame]
      /\ responseBuffer (handleResponse (sampleFrame ++ sampleFrame) initial) = [])
  /\ (processed (handleResponse (firstn 14 sampleFrame) initial) = []
      /\ responseBuffer (handleResponse (firstn 14 sampleFrame) initial)
         = firstn 14 sampleFrame).
Proof.
  destruct (C2_reassembly initial sampleFrame eq_refl sampleFrame_complete)
    as [Hchunks [Htwo Hprefix]].
  split; [|split].
  - apply Hchunks; [|reflexivity].
    repeat (constructor; [discriminate|]). constructor.
  - apply Htwo. exact sampleFrame_complete.
  - apply (Hprefix (firstn 14 sampleFrame) (skipn 14 sampleFrame));
      [reflexivity | discriminate].
Defined.

(** ** Request correlator *)

Lemma callsOf_app p k1 k2 : callsOf p (k1 ++ k2) = callsOf p k1 ++ callsOf p k2.
Proof. unfold callsOf. rewrite filter_app, map_app. reflexivity. Qed.

Lemma callsOf_one_same p o : callsOf p [(p, o)] = [o].
Proof. unfold callsOf. simpl. rewrite Z.eqb_refl. reflexivity. Qed.

Lemma callsOf_one_other p q o : q <> p -> callsOf p [(q, o)] = [].
Proof.
  intros H. unfold callsOf. simpl.
  destruct (Z.eqb_spec q p); [contradiction | reflexivity].
Qed.

Lemma callsOf_In p o k : In o (callsOf p k) <-> In (p, o) k.
Proof.
  unfold callsOf. rewrite in_map_iff. split.
  - intros [[q o'] [Ho Hin]]. simpl in Ho. subst o'.
    apply filter_In in Hin. destruct Hin as [Hin Hq]. simpl in Hq.
    apply Z.eqb_eq in Hq. subst q. assumption.
  - intros Hin. exists (p, o). split; [reflexivity|].
    apply filter_In. split; [assumption | apply Z.eqb_refl].
Qed.

Lemma callsOf_none p k : (forall o, ~ In (p, o) k) -> callsOf p k = [].
Proof.
  intros H. destruct (callsOf p k) as [|o rest] eqn:Hc; [reflexivity|].
  exfalso. apply (H o). apply callsOf_In. rewrite Hc. left. reflexivity.
Qed.

Lemma map_fst_mapDelete id (p : list (Z * request)) :
  map fst (mapDelete id p) = filter (fun x => negb (x =? id)) (map fst p).
Proof.
  unfold mapDelete. induction p as [|[k v] p IH]; simpl; [reflexivity|].
  destruct (k =? id); simpl; rewrite IH; reflexivity.
Qed.

Lemma In_remove id x (l : list Z) :
  In x (filter (fun h => negb (h =? id)) l) <-> In x l /\ x <> id.
Proof.
  rewrite filter_In. split; intros [H1 H2]; split; try assumption.
  - intros ->. rewrite Z.eqb_refl in H2. discriminate.
  - destruct (Z.eqb_spec x id); [contradiction | reflexivity].
Qed.

Lemma In_mapDelete id x r (p : list (Z * request)) :
  In (x, r) (mapDelete id p) <-> In (x, r) p /\ x <> id.
Proof.
  unfold mapDelete. rewrite filter_In. simpl.
  split; intros [H1 H2]; split; try assumption.
  - intros ->. rewrite Z.eqb_refl in H2. discriminate.
  - destruct (Z.eqb_spec x id); [contradiction | reflexivity].
Qed.

Lemma mapSet_fresh id r (p : list (Z * request)) :
  ~ In id (map fst p) -> mapSet id r p = p ++ [(id, r)].
Proof.
  induction p as [|[k v] p IH]; simpl; intros H; [reflexivity|].
  destruct (Z.eqb_spec k id) as [->|Hne]; [tauto|].
  rewrite IH by tauto. reflexivity.
Qed.

(** An entry leaves the pending map and its promise is called: the
    timeout, a completed response, the teardown. *)
Lemma InvC_remove p c t w k id o :
  InvC p c t w k -> In id (map fst p) -> deliverable o -> o <> writeFailure ->
  InvC (mapDelete id p) c (filter (fun h => negb (h =? id)) t) w (k ++ [(id, o)]).
Proof.
  intros [Hc Hnd He Hp Ht Hs Hk Hw Hsh] Hin Hdel Ho.
  assert (Hid : 1 <= id <= c).
  { apply in_map_iff in Hin. destruct Hin as [[x r] [Hx Hxr]]. simpl in Hx.
    subst x. apply (He id r Hxr). }
  constructor.
  - assumption.
  - rewrite map_fst_mapDelete. apply NoDup_filter. assumption.
  - intros x r Hx. apply In_mapDelete in Hx. apply He. tauto.
  - intros x Hx. rewrite map_fst_mapDelete in Hx. apply In_remove in Hx.
    destruct Hx as [Hx Hne]. destruct (Hp x Hx) as [Hxt Hxk]. split.
    + apply In_remove. auto.
    + rewrite callsOf_app, Hxk, callsOf_one_other by congruence. reflexivity.
  - intros x Hx. apply In_remove in Hx. destruct Hx as [Hx Hne].
    rewrite map_fst_mapDelete. apply In_remove. auto.
  - intros x Hx. destruct (Z.eq_dec x id) as [->|Hne].
    + right. rewrite callsOf_app, callsOf_one_same.
      intros Habs. apply app_eq_nil in Habs. destruct Habs; discriminate.
    + destruct (Hs x Hx) as [Hl|Hr].
      * left. rewrite map_fst_mapDelete. apply In_remove. auto.
      * right. rewrite callsOf_app, callsOf_one_other by congruence.
        rewrite app_nil_r. assumption.
  - intros x o' Hx. apply in_app_iff in Hx. destruct Hx as [Hx|[Hx|[]]].
    + apply (Hk x o' Hx).
    + injection Hx as <- <-. auto.
  - intros x Hx. destruct (Hw x Hx) as [Hb Hn]. split; [assumption|].
    rewrite callsOf_app. intros Habs. apply in_app_iff in Habs.
    destruct Habs as [Habs|Habs]; [contradiction|].
    apply callsOf_In in Habs. destruct Habs as [Habs|[]].
    injection Habs as _ Heq. congruence.
  - intros x first rest Hx. rewrite callsOf_app in Hx.
    destruct (Z.eq_dec x id) as [->|Hne].
    + destruct (Hp id Hin) as [_ Hnil]. rewrite Hnil, callsOf_one_same in Hx.
      injection Hx as _ <-. left. reflexivity.
    + rewrite callsOf_one_other, app_nil_r in Hx by congruence.
      apply (Hsh x first rest Hx).
Qed.

(** The write callback reports a failure: whatever is left of the entry
    is removed and the promise is called with the write error. *)
Lemma InvC_write_error p c t w k id :
  InvC p c t w k -> In id w ->
  InvC (mapDelete id p) c (filter (fun h => negb (h =? id)) t)
       (filter (fun h => negb (h =? id)) w) (k ++ [(id, writeFailure)]).
Proof.
  intros [Hc Hnd He Hp Ht Hs Hk Hw Hsh] Hin.
  destruct (Hw id Hin) as [Hid Hnw].
  constructor.
  - assumption.
  - rewrite map_fst_mapDelete. apply NoDup_filter. assumption.
  - intros x r Hx. apply In_mapDelete in Hx. apply He. tauto.
  - intros x Hx. rewrite map_fst_mapDelete in Hx. apply In_remove in Hx.
    destruct Hx as [Hx Hne]. destruct (Hp x Hx) as [Hxt Hxk]. split.
    + apply In_remove. auto.
    + rewrite callsOf_app, Hxk, callsOf_one_other by congruence. reflexivity.
  - intros x Hx. apply In_remove in Hx. destruct Hx as [Hx Hne].
    rewrite map_fst_mapDelete. apply In_remove. auto.
  - intros x Hx. destruct (Z.eq_dec x id) as [->|Hne].
    + right. rewrite callsOf_app, callsOf_one_same.
      intros Habs. apply app_eq_nil in Habs. destruct Habs; discriminate.
    + destruct (Hs x Hx) as [Hl|Hr].
      * left. rewrite map_fst_mapDelete. apply In_remove. auto.
      * right. rewrite callsOf_app, callsOf_one_other by congruence.
        rewrite app_nil_r. assumption.
  - intros x o' Hx. apply in_app_iff in Hx. destruct Hx as [Hx|[Hx|[]]].
    + apply (Hk x o' Hx).
    + injection Hx as <- <-. split; [assumption|].
      right. right. right. reflexivity.
  - intros x Hx. apply In_remove in Hx. destruct Hx as [Hx Hne].
    destruct (Hw x Hx) as [Hb Hn]. split; [assumption|].
    rewrite callsOf_app, callsOf_one_other, app_nil_r by congruence. assumption.
  - intros x first rest Hx. rewrite callsOf_app in Hx.
    destruct (Z.eq_dec x id) as [->|Hne].
    + rewrite callsOf_one_same in Hx.
      destruct (callsOf id k) as [|f0 r0] eqn:Hold.
      * injection Hx as _ <-. left. reflexivity.
      * injection Hx as <- <-.
        destruct (Hsh id f0 r0 Hold) as [-> | [-> _]].
        -- right. split; [reflexivity|]. intros ->. apply Hnw. left. reflexivity.
        -- exfalso. apply Hnw. right. left. reflexivity.
    + rewrite callsOf_one_other, app_nil_r in Hx by congruence.
      apply (Hsh x first rest Hx).
Qed.

Lemma InvC_write_done p c t w k id :
  InvC p c t w k -> InvC p c t (filter (fun h => negb (h =? id)) w) k.
Proof.
  intros [Hc Hnd He Hp Ht Hs Hk Hw Hsh]. constructor; try assumption.
  intros x Hx. apply In_remove in Hx. apply Hw. tauto.
Qed.

(** A request is registered under the next identifier. *)
Lemma InvC_register p c t w k :
  InvC p c t w k ->
  InvC (mapSet (c + 1) (mkRequest (c + 1) (c + 1)) p) (c + 1)
       (t ++ [c + 1]) (w ++ [c + 1]) k.
Proof.
  intros [Hc Hnd He Hp Ht Hs Hk Hw Hsh].
  assert (Hfresh : ~ In (c + 1) (map fst p)).
  { intros Hin. apply in_map_iff in Hin. destruct Hin as [[x r] [Hx Hxr]].
    simpl in Hx. subst x. destruct (He _ _ Hxr). lia. }
  assert (Hnocall : callsOf (c + 1) k = []).
  { apply callsOf_none. intros o Ho. destruct (Hk _ _ Ho). lia. }
  rewrite mapSet_fresh by assumption.
  constructor.
  - lia.
  - rewrite map_app. simpl. apply NoDup_app; [assumption | repeat constructor; auto |].
    intros x Hx [<- | []]. contradiction.
  - intros x r Hx. apply in_app_iff in Hx. destruct Hx as [Hx|[Hx|[]]].
    + destruct (He x r Hx). split; [assumption | lia].
    + injection Hx as <- <-. split; [reflexivity | lia].
  - intros x Hx. rewrite map_app in Hx. apply in_app_iff in Hx.
    destruct Hx as [Hx|[<-|[]]].
    + destruct (Hp x Hx). split; [apply in_app_iff; auto | assumption].
    + split; [apply in_app_iff; right; left; reflexivity | assumption].
  - intros x Hx. rewrite map_app. apply in_app_iff. apply in_app_iff in Hx.
    destruct Hx as [Hx|[<-|[]]]; [left; auto | right; left; reflexivity].
  - intros x Hx. destruct (Z.eq_dec x (c + 1)) as [->|Hne].
    + left. rewrite map_app. apply in_app_iff. right. left. reflexivity.
    + destruct (Hs x) as [Hl|Hr]; [lia | left | right; assumption].
      rewrite map_app. apply in_app_iff. auto.
  - intros x o Hx. destruct (Hk x o Hx). split; [lia | assumption].
  - intros x Hx. apply in_app_iff in Hx. destruct Hx as [Hx|[<-|[]]].
    + destruct (Hw x Hx). split; [lia | assumption].
    + split; [lia|]. rewrite Hnocall. auto.
  - assumption.
Qed.

Lemma readUInt16LE_throw buf offset e :
  readUInt16LE buf offset = Throw e -> e = RangeError.
Proof.
  unfold readUInt16LE. destruct (offset + 2 <=? length buf)%nat; congruence.
Qed.

Lemma readUInt16BE_throw buf offset e :
  readUInt16BE buf offset = Throw e -> e = RangeError.
Proof.
  unfold readUInt16BE. destruct (offset + 2 <=? length buf)%nat; congruence.
Qed.

Lemma validateResponse_not_writeFailure response e :
  validateResponse response = Throw e -> Rejected e <> writeFailure.
Proof.
  unfold validateResponse, writeFailure.
  destruct (readUInt16BE response 0) as [sub|e0] eqn:H0; cbn [bind].
  - destruct (negb (sub =? 54272)); [congruence|].
    destruct (readUInt16LE response 9) as [len|e1] eqn:H1; cbn [bind].
    + destruct (15 <=? length response)%nat; [|discriminate].
      destruct (readUInt16LE response 13) as [code|e2] eqn:H2; cbn [bind].
      * destruct (negb (code =? 0)); [congruence | discriminate].
      * apply readUInt16LE_throw in H2. congruence.
    + apply readUInt16LE_throw in H1. congruence.
  - apply readUInt16BE_throw in H0. congruence.
Qed.

Lemma memZ_In x l : memZ x l = true <-> In x l.
Proof.
  unfold memZ. rewrite existsb_exists. split.
  - intros [y [Hy Hxy]]. apply Z.eqb_eq in Hxy. subst. assumption.
  - intros H. exists x. split; [assumption | apply Z.eqb_refl].
Qed.

Lemma processResponse_Inv response st :
  Inv st -> Inv (processResponse response st).
Proof.
  unfold Inv, processResponse. intros H.
  change (pendingRequests (set_processed (processed st ++ [response]) st))
    with (pendingRequests st).
  destruct (pendingRequests st) as [|[id r] rest] eqn:Hp.
  - change (InvC (pendingRequests st) (requestCounter st) (timers st)
              (writes st) (calls st)).
    rewrite Hp. exact H.
  - destruct (inv_entry _ _ _ _ _ H id r (or_introl eq_refl)) as [-> Hid].
    assert (Hin : In id (map fst ((id, mkRequest id id) :: rest)))
      by (left; reflexivity).
    destruct (validateResponse response) as [[]|e] eqn:Hv.
    + exact (InvC_remove _ _ _ _ _ id (Resolved response) H Hin Hv
               ltac:(discriminate)).
    + exact (InvC_remove _ _ _ _ _ id (Rejected e) H Hin
               (or_introl (ex_intro _ response Hv))
               (validateResponse_not_writeFailure _ _ Hv)).
Qed.

Lemma handleLoop_Inv fuel : forall st, Inv st -> Inv (handleLoop fuel st).
Proof.
  induction fuel as [|fuel IH]; intros st H; [exact H|]. cbn [handleLoop].
  destruct (13 <=? length (responseBuffer st))%nat; [|exact H].
  destruct (readUInt16LE (responseBuffer st) 11) as [dataLength|e]; [|exact H].
  destruct (Z.to_nat (13 + dataLength) <=? length (responseBuffer st))%nat;
    [|exact H].
  apply IH. apply processResponse_Inv. exact H.
Qed.

Lemma handleResponse_Inv data st : Inv st -> Inv (handleResponse data st).
Proof. intros H. unfold handleResponse. apply handleLoop_Inv. exact H. Qed.

(** The fields the teardown loop leaves alone, and the two it changes. *)
Lemma rejectClosed_fold l :
  forall st,
    let st' := fold_left rejectClosed l st in
    pendingRequests st' = pendingRequests st
    /\ requestCounter st' = requestCounter st
    /\ writes st' = writes st
    /\ isConnected st' = isConnected st
    /\ responseBuffer st' = responseBuffer st
    /\ timers st'
       = fold_left (fun t e => filter (fun h => negb (h =? timeout (snd e))) t)
           l (timers st)
    /\ calls st' = calls st ++ map (fun e => (promise (snd e), connectionClosed)) l.
Proof.
  induction l as [|[id r] l IH]; intros st; cbn [fold_left map].
  - rewrite app_nil_r. repeat split.
  - destruct (IH (rejectClosed st (id, r))) as [H1 [H2 [H3 [H4 [H5 [H6 H7]]]]]].
    cbv zeta. rewrite H1, H2, H3, H4, H5, H6, H7.
    repeat split. cbn. rewrite <- app_assoc. reflexivity.
Qed.

Lemma InvC_teardown (l : list (Z * request)) :
  forall p c t w k,
    InvC p c t w k -> NoDup (map fst l) -> (forall e, In e l -> In e p) ->
    InvC (fold_left (fun p (e : Z * request) => mapDelete (fst e) p) l p) c
         (fold_left (fun t e => filter (fun h => negb (h =? timeout (snd e))) t) l t)
         w (k ++ map (fun e => (promise (snd e), connectionClosed)) l).
Proof.
  induction l as [|[id r] l IH]; intros p c t w k H Hnd Hsub; cbn [fold_left map].
  - rewrite app_nil_r. exact H.
  - assert (Hin : In (id, r) p) by (apply Hsub; left; reflexivity).
    destruct (inv_entry _ _ _ _ _ H id r Hin) as [-> Hid].
    cbn [snd fst timeout promise].
    replace (k ++ (id, connectionClosed)
               :: map (fun e => (promise (snd e), connectionClosed)) l)
      with ((k ++ [(id, connectionClosed)])
              ++ map (fun e => (promise (snd e), connectionClosed)) l)
      by (rewrite <- app_assoc; reflexivity).
    cbn [map] in Hnd. apply NoDup_cons_iff in Hnd. destruct Hnd as [Hnot Hnd].
    apply IH.
    + apply InvC_remove; try assumption.
      * apply in_map_iff. exists (id, mkRequest id id). auto.
      * right. right. left. reflexivity.
      * discriminate.
    + assumption.
    + intros [x rx] Hx. apply In_mapDelete. split.
      * apply Hsub. right. assumption.
      * intros ->. apply Hnot. apply in_map_iff. exists (id, rx). auto.
Qed.

Lemma mapDelete_all (l : list (Z * request)) :
  forall p : list (Z * request),
    (forall e, In e p -> In (fst e) (map fst l)) ->
    fold_left (fun p (e : Z * request) => mapDelete (fst e) p) l p = [].
Proof.
  induction l as [|[id r] l IH]; intros p H; cbn [fold_left].
  - destruct p as [|e p]; [reflexivity|]. destruct (H e); left; reflexivity.
  - apply IH. intros [x rx] Hx. apply In_mapDelete in Hx. destruct Hx as [Hx Hne].
    destruct (H _ Hx) as [Heq|Hin]; [simpl in *; congruence | assumption].
Qed.

Lemma cleanup_fields st :
  pendingRequests (cleanup st) = []
  /\ requestCounter (cleanup st) = requestCounter st
  /\ writes (cleanup st) = writes st
  /\ isConnected (cleanup st) = false
  /\ responseBuffer (cleanup st) = []
  /\ timers (cleanup st)
     = fold_left (fun t e => filter (fun h => negb (h =? timeout (snd e))) t)
         (pendingRequests st) (timers st)
  /\ calls (cleanup st)
     = calls st ++ map (fun e => (promise (snd e), connectionClosed))
                     (pendingRequests st).
Proof.
  unfold cleanup.
  destruct (rejectClosed_fold (pendingRequests st)
              (set_responseBuffer [] (set_isConnected false st)))
    as [H1 [H2 [H3 [H4 [H5 [H6 H7]]]]]].
  cbv zeta in *. repeat split; assumption.
Qed.

Lemma cleanup_Inv st : Inv st -> Inv (cleanup st).
Proof.
  unfold Inv. intros H.
  destruct (cleanup_fields st) as [H1 [H2 [H3 [_ [_ [H6 H7]]]]]].
  rewrite H1, H2, H3, H6, H7.
  rewrite <- (mapDelete_all (pendingRequests st) (pendingRequests st)).
  - apply InvC_teardown; [assumption | apply (inv_nodup _ _ _ _ _ H) | auto].
  - intros e He. apply in_map. assumption.
Qed.

Lemma step_Inv st ev st' : Inv st -> step st ev = Some st' -> Inv st'.
Proof.
  intros H Hstep. destruct ev; cbn [step] in Hstep.
  - injection Hstep as <-. unfold connect.
    destruct (isConnected st); exact H.
  - injection Hstep as <-. unfold disconnect.
    destruct (socket st); [|exact H].
    destruct (isConnected st); [apply cleanup_Inv|]; exact H.
  - injection Hstep as <-. unfold sendRequest.
    destruct (socket st); [|exact H].
    destruct (isConnected st); [|exact H].
    exact (InvC_register _ _ _ _ _ H).
  - destruct (memZ requestId (timers st)) eqn:Hm; [|discriminate].
    injection Hstep as <-. apply memZ_In in Hm.
    exact (InvC_remove _ _ _ _ _ requestId timedOut H
             (inv_timers _ _ _ _ _ H _ Hm)
             (or_intror (or_introl eq_refl)) ltac:(discriminate)).
  - destruct (memZ requestId (writes st)) eqn:Hm; [|discriminate].
    injection Hstep as <-. apply memZ_In in Hm.
    destruct error.
    + exact (InvC_write_error _ _ _ _ _ requestId H Hm).
    + exact (InvC_write_done _ _ _ _ _ requestId H).
  - destruct (k <? sockets st)%nat; [|discriminate].
    injection Hstep as <-. exact H.
  - destruct (k <? sockets st)%nat; [|discriminate].
    injection Hstep as <-. exact H.
  - destruct (k <? sockets st)%nat; [|discriminate].
    injection Hstep as <-. unfold onClose. apply cleanup_Inv. exact H.
  - destruct (k <? sockets st)%nat; [|discriminate].
    injection Hstep as <-. apply handleResponse_Inv. exact H.
  - destruct (memNat k (connectTimers st)); [|discriminate].
    injection Hstep as <-. exact H.
Qed.

Lemma initial_Inv : Inv initial.
Proof.
  constructor; simpl; try (intros; contradiction); try lia.
  - constructor.
  - intros id first rest Hx. discriminate Hx.
Qed.

Lemma run_Inv trace : forall st st', Inv st -> run st trace = Some st' -> Inv st'.
Proof.
  induction trace as [|ev trace IH]; intros st st' H Hrun; cbn [run] in Hrun.
  - injection Hrun as <-. exact H.
  - destruct (step st ev) as [st1|] eqn:Hstep; [|discriminate].
    apply (IH st1 st'); [|assumption]. apply (step_Inv st ev); assumption.
Qed.

Lemma reachable_Inv trace st : run initial trace = Some st -> Inv st.
Proof. apply run_Inv. exact initial_Inv. Qed.

Lemma callsFor_callsOf p st : callsFor p st = callsOf p (calls st).
Proof. reflexivity. Qed.

Lemma pendingIds_mapDelete id st x :
  In x (map fst (mapDelete id (pendingRequests st)))
  <-> In x (pendingIds st) /\ x <> id.
Proof. rewrite map_fst_mapDelete. apply In_remove. Qed.

(** What the teardown leaves behind, in a state that satisfies the
    invariant. *)
Lemma cleanup_teardown st :
  Inv st ->
  isConnected (cleanup st) = false
  /\ responseBuffer (cleanup st) = []
  /\ pendingRequests (cleanup st) = []
  /\ timers (cleanup st) = []
  /\ (forall id, In id (pendingIds st) ->
        callsFor id (cleanup st) = [connectionClosed])
  /\ (forall id, 1 <= id <= requestCounter (cleanup st) ->
        callsFor id (cleanup st) <> []).
Proof.
  intros H. pose proof (cleanup_Inv st H) as H'. unfold Inv in H'.
  destruct (cleanup_fields st) as [H1 [H2 [H3 [H4 [H5 [H6 H7]]]]]].
  repeat split; try assumption.
  - pose proof (inv_timers _ _ _ _ _ H') as Hx. rewrite H1 in Hx.
    destruct (timers (cleanup st)) as [|x t]; [reflexivity|].
    destruct (Hx x). left. reflexivity.
  - intros id Hin. rewrite callsFor_callsOf.
    destruct (inv_pending _ _ _ _ _ H id Hin) as [_ Hnil].
    assert (Hall : forall o, In o (callsOf id (calls (cleanup st))) ->
                             o = connectionClosed).
    { intros o Ho. rewrite H7, callsOf_app, Hnil in Ho. cbn [app] in Ho.
      apply callsOf_In in Ho. apply in_map_iff in Ho.
      destruct Ho as [e [He _]]. congruence. }
    assert (Hone : In connectionClosed (callsOf id (calls (cleanup st)))).
    { apply callsOf_In. rewrite H7. apply in_app_iff. right.
      unfold pendingIds in Hin. apply in_map_iff in Hin.
      destruct Hin as [[x r] [Hx Hxr]]. simpl in Hx. subst x.
      destruct (inv_entry _ _ _ _ _ H id r Hxr) as [-> _].
      apply in_map_iff. exists (id, mkRequest id id). auto. }
    destruct (callsOf id (calls (cleanup st))) as [|first rest] eqn:Hc;
      [destruct Hone|].
    rewrite (Hall first) by (left; reflexivity).
    destruct (inv_shape _ _ _ _ _ H' id first rest Hc) as [-> | [-> _]];
      [reflexivity|].
    assert (Habs : writeFailure = connectionClosed)
      by (apply Hall; right; left; reflexivity).
    discriminate Habs.
  - intros id Hid. rewrite callsFor_callsOf.
    destruct (inv_settled _ _ _ _ _ H' id Hid) as [Hl|Hr]; [|exact Hr].
    rewrite H1 in Hl. destruct Hl.
Qed.

(** C6, as stated, fails twice.  A failed socket write removes the entry
    and rejects the request with the write error, which is none of
    success, PLC error, request timeout and connection-close; and when the
    write fails after the timeout has fired, the reject continuation is
    called again for an entry that is no longer pending (the promise,
    already settled, ignores the second call). *)
Lemma C6_counterexample :
  ~ (forall trace st id o,
        run initial trace = Some st -> In o (callsFor id st) ->
        (exists response, o = Resolved response)
        \/ (exists code, o = Rejected (MCProtocolError (PlcError code) None (Some code)))
        \/ o = timedOut \/ o = connectionClosed)
  /\ ~ (forall trace st id,
           run initial trace = Some st -> (length (callsFor id st) <= 1)%nat).
Proof.
  split; intros H.
  - assert (Hrun : run initial traceWriteFails = Some (stateAfter traceWriteFails))
      by (vm_compute; reflexivity).
    assert (Hin : In writeFailure (callsFor 1 (stateAfter traceWriteFails)))
      by (vm_compute; left; reflexivity).
    destruct (H _ _ _ _ Hrun Hin) as [[r Hr] | [[code Hc] | [Ht | Hc]]];
      discriminate.
  - assert (Hrun : run initial traceTimeoutThenWriteFails
                   = Some (stateAfter traceTimeoutThenWriteFails))
      by (vm_compute; reflexivity).
    specialize (H _ _ 1 Hrun). vm_compute in H. lia.
Qed.

(** The frames the reassembler extracts are complete, and a complete
    frame is answered with itself or with a validation error. *)
Lemma firstn_complete (buf : list byte) dataLength :
  (13 <= length buf)%nat ->
  readUInt16LE buf 11 = Ok dataLength ->
  (Z.to_nat (13 + dataLength) <= length buf)%nat ->
  complete (firstn (Z.to_nat (13 + dataLength)) buf).
Proof.
  intros H13 Hr Hfit.
  pose proof (readUInt16LE_inv _ _ _ Hr) as [_ Hd].
  pose proof (le_combine_bound (slice buf 11 2)) as Hb. rewrite <- Hd in Hb.
  assert (Hlen : length (firstn (Z.to_nat (13 + dataLength)) buf)
                 = Z.to_nat (13 + dataLength))
    by (apply firstn_length_le; assumption).
  split; [rewrite Hlen; lia|].
  rewrite Hlen.
  rewrite <- (firstn_skipn (Z.to_nat (13 + dataLength)) buf) in Hr.
  rewrite readUInt16LE_app_prefix in Hr by (rewrite Hlen; lia).
  rewrite Hr. f_equal. lia.
Qed.

Lemma parseLoop_total response :
  forall fuel i values, exists vs, parseLoop fuel response i values = Ok vs.
Proof.
  induction fuel as [|fuel IH]; intros i values; cbn [parseLoop].
  - exists values. reflexivity.
  - destruct (Nat.ltb_spec i (length response)); [|exists values; reflexivity].
    destruct (Nat.ltb_spec (i + 1) (length response)); [|apply IH].
    rewrite readInt16LE_in_range by lia. cbn [bind]. apply IH.
Qed.

Lemma readUInt16BE_in_range buf offset :
  (offset + 2 <= length buf)%nat ->
  exists v, readUInt16BE buf offset = Ok v.
Proof.
  intros H. unfold readUInt16BE.
  destruct (Nat.leb_spec (offset + 2) (length buf)); [|lia].
  eexists. reflexivity.
Qed.

Lemma answer_complete frame : complete frame -> answered (answer frame).
Proof.
  intros Hc. pose proof Hc as [H13 _]. unfold answer.
  destruct (validateResponse frame) as [[]|e] eqn:Hv.
  - split; [exact Hc|]. unfold parseReadResponse. rewrite Hv. cbn [bind].
    apply parseLoop_total.
  - unfold validateResponse in Hv.
    destruct (readUInt16BE_in_range frame 0 ltac:(lia)) as [s Hs].
    rewrite Hs in Hv. cbn [bind] in Hv.
    destruct (Z.eqb_spec s 0xd400) as [Heq|Hne]; cbn [negb] in Hv.
    + rewrite (readUInt16LE_in_range frame 9) in Hv by lia. cbn [bind] in Hv.
      destruct (Nat.leb_spec 15 (length frame)); [|discriminate Hv].
      rewrite (readUInt16LE_in_range frame 13) in Hv by lia. cbn [bind] in Hv.
      destruct (Z.eqb_spec (le_combine (slice frame 13 2)) 0) as [|Hcode];
        cbn [negb] in Hv; [discriminate Hv|].
      injection Hv as <-. cbn [answered]. right. right. right. right.
      eexists. split; [exact Hcode | reflexivity].
    + injection Hv as <-. cbn [answered]. right. right. right. left.
      exists s. split; [exact Hne | reflexivity].
Qed.

Lemma processResponse_answered response st :
  complete response ->
  Forall (fun c => answered (snd c)) (calls st) ->
  Forall (fun c => answered (snd c)) (calls (processResponse response st)).
Proof.
  intros Hc H. pose proof (answer_complete response Hc) as Ha.
  unfold processResponse. unfold answer in Ha.
  change (pendingRequests (set_processed (processed st ++ [response]) st))
    with (pendingRequests st).
  destruct (pendingRequests st) as [|[id r] rest]; [exact H|].
  destruct (validateResponse response);
    (apply Forall_app; split; [exact H | constructor; [exact Ha | constructor]]).
Qed.

Lemma handleLoop_answered fuel :
  forall st,
    Forall (fun c => answered (snd c)) (calls st) ->
    Forall (fun c => answered (snd c)) (calls (handleLoop fuel st)).
Proof.
  induction fuel as [|fuel IH]; intros st H; cbn [handleLoop]; [exact H|].
  destruct (Nat.leb_spec 13 (length (responseBuffer st))) as [H13|]; [|exact H].
  destruct (readUInt16LE (responseBuffer st) 11) as [dataLength|e] eqn:Hr;
    [|exact H].
  destruct (Nat.leb_spec (Z.to_nat (13 + dataLength)) (length (responseBuffer st)))
    as [Hfit|]; [|exact H].
  apply IH. apply processResponse_answered.
  - apply firstn_complete; assumption.
  - exact H.
Qed.

Lemma cleanup_answered st :
  Forall (fun c => answered (snd c)) (calls st) ->
  Forall (fun c => answered (snd c)) (calls (cleanup st)).
Proof.
  intros H. destruct (cleanup_fields st) as [_ [_ [_ [_ [_ [_ ->]]]]]].
  apply Forall_app. split; [exact H|].
  apply Forall_forall. intros c Hin. apply in_map_iff in Hin.
  destruct Hin as [e [<- _]]. cbn [snd]. right. left. reflexivity.
Qed.

Lemma step_answered st ev st' :
  Forall (fun c => answered (snd c)) (calls st) ->
  step st ev = Some st' ->
  Forall (fun c => answered (snd c)) (calls st').
Proof.
  intros H Hstep. destruct ev; cbn [step] in Hstep.
  - injection Hstep as <-. unfold connect. destruct (isConnected st); exact H.
  - injection Hstep as <-. unfold disconnect.
    destruct (socket st); [|exact H].
    destruct (isConnected st); [apply cleanup_answered; exact H | exact H].
  - injection Hstep as <-. unfold sendRequest.
    destruct (socket st); [|exact H].
    destruct (isConnected st); exact H.
  - destruct (memZ requestId (timers st)); [|discriminate Hstep].
    injection Hstep as <-.
    change (Forall (fun c => answered (snd c))
              (calls st ++ [(requestId, timedOut)])).
    apply Forall_app. split; [exact H|].
    constructor; [left; reflexivity | constructor].
  - destruct (memZ requestId (writes st)); [|discriminate Hstep].
    injection Hstep as <-. unfold onWriteDone. destruct error; [|exact H].
    change (Forall (fun c => answered (snd c))
              (calls st ++ [(requestId, writeFailure)])).
    apply Forall_app. split; [exact H|].
    constructor; [right; right; left; reflexivity | constructor].
  - destruct (k <? sockets st)%nat; [|discriminate Hstep].
    injection Hstep as <-. exact H.
  - destruct (k <? sockets st)%nat; [|discriminate Hstep].
    injection Hstep as <-. exact H.
  - destruct (k <? sockets st)%nat; [|discriminate Hstep].
    injection Hstep as <-. unfold onClose. apply cleanup_answered. exact H.
  - destruct (k <? sockets st)%nat; [|discriminate Hstep].
    injection Hstep as <-. unfold handleResponse. apply handleLoop_answered.
    exact H.
  - destruct (memNat k (connectTimers st)); [|discriminate Hstep].
    injection Hstep as <-. exact H.
Qed.

Lemma run_answered trace :
  forall st st',
    Forall (fun c => answered (snd c)) (calls st) ->
    run st trace = Some st' ->
    Forall (fun c => answered (snd c)) (calls st').
Proof.
  induction trace as [|ev trace IH]; intros st st' H Hrun; cbn [run] in Hrun.
  - injection Hrun as <-. exact H.
  - destruct (step st ev) as [st1|] eqn:Hstep; [|discriminate].
    apply (IH st1 st'); [|exact Hrun]. apply (step_answered st ev); assumption.
Qed.

(** C6, amended. In every reachable state a registered request is in one
    of two situations.  Either its entry is pending: then its timer is
    armed, no continuation has been called, and the timer can fire and
    reject it with the request timeout, removing the entry.  Or its entry
    has left the pending map and its timer is disarmed: then one
    resolution has been delivered, the first call, which settles the
    promise, and it is one of these and nothing else: a complete frame
    that passed validation, the error validation raised on a frame (the
    PLC error of a non-zero status, or the invalid-subheader error), the
    request timeout, the connection-close error or the write error; and
    the timeout, response and teardown paths have made no call after
    it. *)
Theorem C6_single_resolution :
  forall trace st id,
    run initial trace = Some st -> 1 <= id <= requestCounter st ->
    (In id (pendingIds st) /\ In id (timers st) /\ callsFor id st = []
     /\ exists st',
          step st (RequestTimerFires id) = Some st'
          /\ callsFor id st' = [timedOut] /\ ~ In id (pendingIds st'))
    \/ (~ In id (pendingIds st) /\ ~ In id (timers st)
        /\ exists first rest,
             callsFor id st = first :: rest
             /\ deliverable first /\ answered first
             /\ (rest = [] \/ (rest = [writeFailure] /\ first <> writeFailure))).
Proof.
  intros trace st id Hrun Hid.
  pose proof (reachable_Inv trace st Hrun) as H. unfold Inv in H.
  destruct (in_dec Z.eq_dec id (pendingIds st)) as [Hin|Hout].
  - left. destruct (inv_pending _ _ _ _ _ H id Hin) as [Ht Hnil].
    repeat split; try assumption.
    exists (onRequestTimeout id (clearTimeout id st)).
    cbn [step]. apply memZ_In in Ht. rewrite Ht.
    split; [reflexivity|]. split.
    + rewrite callsFor_callsOf.
      change (calls (onRequestTimeout id (clearTimeout id st)))
        with (calls st ++ [(id, timedOut)]).
      rewrite callsOf_app, Hnil, callsOf_one_same. reflexivity.
    + unfold pendingIds.
      change (pendingRequests (onRequestTimeout id (clearTimeout id st)))
        with (mapDelete id (pendingRequests st)).
      rewrite pendingIds_mapDelete. tauto.
  - right. split; [assumption|]. split.
    + intros Ht. apply Hout. apply (inv_timers _ _ _ _ _ H id Ht).
    + destruct (inv_settled _ _ _ _ _ H id Hid) as [Hl|Hr]; [contradiction|].
      rewrite callsFor_callsOf.
      destruct (callsOf id (calls st)) as [|first rest] eqn:Hc; [congruence|].
      assert (Hf : In (id, first) (calls st)).
      { apply callsOf_In. rewrite Hc. left. reflexivity. }
      exists first, rest. split; [reflexivity|]. split; [|split].
      * apply (inv_calls _ _ _ _ _ H id first Hf).
      * pose proof (run_answered trace initial st (Forall_nil _) Hrun) as Hans.
        rewrite Forall_forall in Hans. apply (Hans (id, first) Hf).
      * apply (inv_shape _ _ _ _ _ H id first rest Hc).
Qed.

Lemma C6_single_resolution_witness :
  (callsFor 1 (stateAfter (traceTwoOutstanding ++ [SocketData 0 sampleFrame]))
   = [Resolved sampleFrame]
   /\ deliverable (Resolved sampleFrame) /\ answered (Resolved sampleFrame)
   /\ ~ In 1 (pendingIds
                (stateAfter (traceTwoOutstanding ++ [SocketData 0 sampleFrame]))))
  /\ (callsFor 2 (stateAfter (traceTwoOutstanding ++ [SocketData 0 sampleFrame]))
      = []
      /\ exists st',
           step (stateAfter (traceTwoOutstanding ++ [SocketData 0 sampleFrame]))
             (RequestTimerFires 2) = Some st'
           /\ callsFor 2 st' = [timedOut] /\ ~ In 2 (pendingIds st')).
Proof.
  assert (Hrun : run initial (traceTwoOutstanding ++ [SocketData 0 sampleFrame])
                 = Some (stateAfter
                           (traceTwoOutstanding ++ [SocketData 0 sampleFrame])))
    by (vm_compute; reflexivity).
  assert (Hc1 : callsFor 1
                  (stateAfter (traceTwoOutstanding ++ [SocketData 0 sampleFrame]))
                = [Resolved sampleFrame]) by (vm_compute; reflexivity).
  assert (Hc2 : callsFor 2
                  (stateAfter (traceTwoOutstanding ++ [SocketData 0 sampleFrame]))
                = []) by (vm_compute; reflexivity).
  assert (Hcounter : requestCounter
                       (stateAfter
                          (traceTwoOutstanding ++ [SocketData 0 sampleFrame])) = 2)
    by (vm_compute; reflexivity).
  split.
  - destruct (C6_single_resolution _ _ 1 Hrun ltac:(rewrite Hcounter; lia))
      as [[_ [_ [Hnil _]]] | [Hout [_ [first [rest [Hcalls [Hd [Ha _]]]]]]]].
    + rewrite Hc1 in Hnil. discriminate Hnil.
    + rewrite Hc1 in Hcalls. injection Hcalls as <- _.
      split; [exact Hc1 | split; [exact Hd | split; [exact Ha | exact Hout]]].
  - destruct (C6_single_resolution _ _ 2 Hrun ltac:(rewrite Hcounter; lia))
      as [[_ [_ [Hnil Hstep]]] | [_ [_ [first [rest [Hcalls _]]]]]].
    + split; assumption.
    + rewrite Hc2 in Hcalls. discriminate Hcalls.
Defined.

(** C7. When the transport closes in a reachable state, by the socket's
    'close' event or by [disconnect] on a connected instance, the
    connection is marked not connected, the inbound buffer and the pending
    map are empty, no request timer stays armed, every request that was
    pending has been rejected with the connection-close error as its only
    call, and every request registered so far has been answered. *)
Theorem C7_teardown :
  forall trace st st',
    run initial trace = Some st -> transportCloses st st' ->
    isConnected st' = false
    /\ responseBuffer st' = []
    /\ pendingRequests st' = []
    /\ timers st' = []
    /\ (forall id, In id (pendingIds st) -> callsFor id st' = [connectionClosed])
    /\ (forall id, 1 <= id <= requestCounter st' -> callsFor id st' <> []).
Proof.
  intros trace st st' Hrun Hclose.
  pose proof (reachable_Inv trace st Hrun) as H.
  destruct Hclose as [[k Hk] | [Hconn [Hsock Hd]]].
  - cbn [step] in Hk. destruct (k <? sockets st)%nat; [|discriminate].
    injection Hk as <-. unfold onClose.
    apply (cleanup_teardown (set_isConnected false st)). exact H.
  - cbn [step] in Hd. injection Hd as <-. unfold disconnect.
    destruct (socket st); [|congruence]. rewrite Hconn. cbn [negb].
    apply cleanup_teardown. exact H.
Qed.

Lemma C7_teardown_witness :
  (isConnected (cleanup (stateAfter traceTwoOutstanding)) = false
   /\ responseBuffer (cleanup (stateAfter traceTwoOutstanding)) = []
   /\ pendingRequests (cleanup (stateAfter traceTwoOutstanding)) = []
   /\ timers (cleanup (stateAfter traceTwoOutstanding)) = []
   /\ (forall id, In id [1; 2] ->
         callsFor id (cleanup (stateAfter traceTwoOutstanding))
         = [connectionClosed])
   /\ (forall id, 1 <= id <= 2 ->
         callsFor id (cleanup (stateAfter traceTwoOutstanding)) <> [])).
Proof.
  apply (C7_teardown traceTwoOutstanding (stateAfter traceTwoOutstanding)
           (cleanup (stateAfter traceTwoOutstanding))).
  - vm_compute. reflexivity.
  - right. split; [vm_compute; reflexivity|].
    split; [vm_compute; discriminate | vm_compute; reflexivity].
Defined.

Example connect_opens_a_socket :
  socket (fst (connect initial)) = Some 0%nat
  /\ connectTimers (fst (connect initial)) = [0%nat]
  /\ snd (connect initial) = false.
Proof. repeat split. Qed.

(** C10. [connect] on a connected instance resolves at once and changes
    nothing: the state after the call is the state before it, socket,
    pending map and inbound buffer included. *)
Theorem C10_connect_idempotent :
  forall st,
    isConnected st = true ->
    connect st = (st, true) /\ step st CallConnect = Some st.
Proof.
  intros st H. unfold step, connect. rewrite H. split; reflexivity.
Qed.

Lemma C10_connect_idempotent_witness :
  connect (stateAfter traceTwoOutstanding)
  = (stateAfter traceTwoOutstanding, true)
  /\ step (stateAfter traceTwoOutstanding) CallConnect
     = Some (stateAfter traceTwoOutstanding).
Proof.
  apply (C10_connect_idempotent (stateAfter traceTwoOutstanding)).
  vm_compute. reflexivity.
Defined.

(* ===================================================================== *)
(** * Further properties of the code *)
(* ===================================================================== *)

(** ** [encodeValue] *)

Lemma signed_wrap half v :
  0 < half -> - half <= v < half ->
  (if half <=? v mod (2 * half) then v mod (2 * half) - 2 * half
   else v mod (2 * half)) = v.
Proof.
  intros Hh Hv. destruct (Z_lt_le_dec v 0) as [Hneg|Hpos].
  - rewrite <- (Z_mod_plus_full v 1 (2 * half)).
    rewrite Z.mod_small by lia.
    destruct (Z.leb_spec half (v + 1 * (2 * half))); lia.
  - rewrite Z.mod_small by lia.
    destruct (Z.leb_spec half v); lia.
Qed.

Lemma decodeValue_le_split_unsigned n v :
  0 <= v < 2 ^ (Z.of_nat n * 8) -> decodeValue (le_split n v) false = v.
Proof.
  intros H. unfold decodeValue. cbn [andb].
  apply le_combine_le_split_small. exact H.
Qed.

Lemma decodeValue_le_split_signed n v :
  (0 < n)%nat ->
  - 2 ^ (8 * Z.of_nat n - 1) <= v < 2 ^ (8 * Z.of_nat n - 1) ->
  decodeValue (le_split n v) true = v.
Proof.
  intros Hn H. unfold decodeValue. cbn [andb].
  rewrite length_le_split, le_combine_split.
  assert (Hpow : 2 ^ (Z.of_nat n * 8) = 2 * 2 ^ (8 * Z.of_nat n - 1)).
  { rewrite <- Z.pow_succ_r by lia. f_equal. lia. }
  rewrite Hpow. apply signed_wrap; [|assumption].
  apply Z.pow_pos_nonneg; lia.
Qed.

(** X1. Whatever [encodeValue] returns has the width of its mode and
    decodes, little-endian and in two's complement when signed, to the
    value that was encoded: no value is ever truncated or wrapped. *)
Theorem X1_encodeValue_roundtrip :
  forall value mode isSigned bytes,
    encodeValue value mode isSigned = Ok bytes ->
    length bytes = widthOf mode /\ decodeValue bytes isSigned = value.
Proof.
  intros value mode isSigned bytes H. unfold encodeValue, widthOf in *.
  destruct (mode =? "byte")%string;
    [|destruct (mode =? "short")%string;
      [|destruct (mode =? "long")%string; [|discriminate H]]];
    destruct isSigned;
    unfold writeInt8, writeUInt8, writeInt16LE, writeUInt16LE,
      writeInt32LE, writeUInt32LE in H;
    apply bind_Ok in H; destruct H as [u [Hc Hb]];
    apply checkInt_inv in Hc; apply Ok_inj in Hb; subst bytes;
    (split; [apply length_le_split|]).
  - apply decodeValue_le_split_signed; [lia|].
    change (2 ^ (8 * Z.of_nat 1 - 1)) with 128. lia.
  - apply decodeValue_le_split_unsigned.
    change (2 ^ (Z.of_nat 1 * 8)) with 256. lia.
  - apply decodeValue_le_split_signed; [lia|].
    change (2 ^ (8 * Z.of_nat 2 - 1)) with 32768. lia.
  - apply decodeValue_le_split_unsigned.
    change (2 ^ (Z.of_nat 2 * 8)) with 65536. lia.
  - apply decodeValue_le_split_signed; [lia|].
    change (2 ^ (8 * Z.of_nat 4 - 1)) with 2147483648. lia.
  - apply decodeValue_le_split_unsigned.
    change (2 ^ (Z.of_nat 4 * 8)) with 4294967296. lia.
Qed.

Lemma X1_encodeValue_roundtrip_witness :
  length (map byte.of_Z [0xff; 0xff]) = widthOf "short"
  /\ decodeValue (map byte.of_Z [0xff; 0xff]) true = -1.
Proof.
  apply (X1_encodeValue_roundtrip (-1) "short" true).
  vm_compute. reflexivity.
Defined.

(** ** Device strings *)

Lemma takeWhile_all p (s : string) :
  allChars p s = true -> takeWhile p s = s.
Proof.
  induction s as [|c s IH]; simpl; [reflexivity|]. intros H.
  apply andb_true_iff in H. destruct H as [Hc Hs]. rewrite Hc, IH by assumption.
  reflexivity.
Qed.

Lemma dropWhile_all p (s : string) :
  allChars p s = true -> dropWhile p s = "".
Proof.
  induction s as [|c s IH]; simpl; [reflexivity|]. intros H.
  apply andb_true_iff in H. destruct H as [Hc Hs]. rewrite Hc. auto.
Qed.

Lemma matchNonDigits_run (pre run post : string) :
  allChars isDigit pre = true ->
  run <> "" -> allChars (fun c => negb (isDigit c)) run = true ->
  match post with
  | EmptyString => True
  | String c _ => isDigit c = true
  end ->
  matchNonDigits (pre ++ run ++ post) = Some run.
Proof.
  intros Hpre Hne Hrun Hpost. unfold matchNonDigits.
  destruct run as [|c r]; [congruence|].
  simpl in Hrun. apply andb_true_iff in Hrun. destruct Hrun as [Hc Hr].
  apply negb_true_iff in Hc.
  change ((String c r ++ post)%string) with (String c (r ++ post)).
  destruct (takeWhile_app_stop isDigit pre c (r ++ post) Hpre Hc) as [_ ->].
  assert (Ht : takeWhile (fun c0 => negb (isDigit c0)) (String c (r ++ post))
               = String c r).
  { change (String c (r ++ post)) with ((String c r ++ post)%string).
    assert (Hall : allChars (fun c0 => negb (isDigit c0)) (String c r) = true).
    { simpl. rewrite Hc, Hr. reflexivity. }
    destruct post as [|d post].
    - rewrite append_nil_r. apply takeWhile_all. exact Hall.
    - apply (takeWhile_app_stop (fun c0 => negb (isDigit c0))); [exact Hall|].
      rewrite Hpost. reflexivity. }
  rewrite Ht. reflexivity.
Qed.

(** X2. Only the first run of non-digit characters of the device string
    counts: digits before it and everything from the next digit on are
    ignored, so the string is encoded exactly like that run alone.  When
    the run is not in the device table (and has no lower-case letter, so
    that it is not a name every JavaScript object inherits) the unknown
    device type error names the run, not the string.  A string without any
    non-digit character is refused as an invalid device, whatever the
    offset and series. *)
Theorem X2_device_string_run :
  forall plcType device address,
    (allChars isDigit device = true ->
       makeDeviceData plcType device address
       = Throw (MCProtocolError (InvalidDevice device) None None))
    /\ (forall pre run post,
           device = (pre ++ run ++ post)%string ->
           allChars isDigit pre = true ->
           run <> "" -> allChars (fun c => negb (isDigit c)) run = true ->
           match post with
           | EmptyString => True
           | String c _ => isDigit c = true
           end ->
           makeDeviceData plcType device address
           = makeDeviceData plcType run address
           /\ (lookup run DEVICE_CODES = None ->
               allChars (fun c => negb (isLower c)) run = true ->
               makeDeviceData plcType device address
               = Throw (MCProtocolError (UnknownDeviceType run) None None))).
Proof.
  intros plcType device address. split.
  - intros H. unfold makeDeviceData, matchNonDigits.
    rewrite (dropWhile_all isDigit device H). reflexivity.
  - intros pre run post -> Hpre Hne Hrun Hpost.
    assert (H1 : matchNonDigits (pre ++ run ++ post) = Some run)
      by (apply matchNonDigits_run; assumption).
    assert (H2 : matchNonDigits run = Some run).
    { pose proof (matchNonDigits_run "" run "" eq_refl Hne Hrun I) as H.
      cbn [append] in H. rewrite append_nil_r in H. exact H. }
    unfold makeDeviceData. rewrite H1, H2. split; [reflexivity|].
    intros Hl _. rewrite Hl. reflexivity.
Qed.

Lemma X2_device_string_run_witness :
  makeDeviceData "Q" "123" 5
  = Throw (MCProtocolError (InvalidDevice "123") None None)
  /\ makeDeviceData "Q" "7D100" 5 = makeDeviceData "Q" "D" 5
  /\ makeDeviceData "Q" "QQ9" 5
     = Throw (MCProtocolError (UnknownDeviceType "QQ") None None).
Proof.
  split; [|split].
  - destruct (X2_device_string_run "Q" "123" 5) as [H _]. apply H. reflexivity.
  - destruct (X2_device_string_run "Q" "7D100" 5) as [_ H].
    destruct (H "7" "D" "100" eq_refl eq_refl ltac:(discriminate) eq_refl eq_refl)
      as [H1 _].
    exact H1.
  - destruct (X2_device_string_run "Q" "QQ9" 5) as [_ H].
    destruct (H "" "QQ" "9" eq_refl eq_refl ltac:(discriminate) eq_refl eq_refl)
      as [_ H2].
    apply H2; reflexivity.
Defined.

(** ** Frame layout *)

Lemma readUInt16LE_at (pre field post : list byte) offset :
  length pre = offset -> length field = 2%nat ->
  readUInt16LE (pre ++ field ++ post) offset = Ok (le_combine field).
Proof. intros <- Hf. apply readUInt16LE_app_at. exact Hf. Qed.

Lemma slice_at (pre field post : list byte) offset n :
  length pre = offset -> length field = n ->
  slice (pre ++ field ++ post) offset n = field.
Proof.
  intros <- <-. unfold slice.
  rewrite skipn_app, skipn_all, Nat.sub_diag. cbn [skipn app].
  rewrite firstn_app, firstn_all, Nat.sub_diag, firstn_O, app_nil_r.
  reflexivity.
Qed.

Lemma makeDeviceData_recognized_inv plcType deviceType deviceCode address bytes :
  lookup deviceType DEVICE_CODES = Some deviceCode -> 0 <= address ->
  makeDeviceData plcType deviceType address = Ok bytes ->
  let deviceNum := rereadDigits (getDeviceBase deviceType) address in
  bytes = le_split (deviceNumberWidth plcType) deviceNum
          ++ le_split (deviceCodeWidth plcType) deviceCode
  /\ 0 <= deviceNum < 2 ^ (Z.of_nat (deviceNumberWidth plcType) * 8)
  /\ 0 <= deviceCode < 2 ^ (Z.of_nat (deviceCodeWidth plcType) * 8).
Proof.
  intros Hl Ha H deviceNum.
  destruct (recognized_facts _ _ Hl) as [_ [Hc Hb]].
  assert (Hn : 0 <= deviceNum).
  { destruct (toString_nonneg address Ha) as [Hall [_ Hval]].
    unfold deviceNum. rewrite <- Hval.
    apply readDigits_nonneg; try assumption; lia. }
  rewrite (makeDeviceData_recognized plcType _ _ _ Hl Ha) in H.
  fold deviceNum in H. unfold deviceNumberWidth, deviceCodeWidth.
  destruct (plcType =? "iQ-R")%string.
  - destruct (Z.leb_spec deviceNum 4294967295); [|discriminate H].
    apply Ok_inj in H. subst bytes. split; [reflexivity|].
    change (2 ^ (Z.of_nat 4 * 8)) with 4294967296.
    change (2 ^ (Z.of_nat 2 * 8)) with 65536. lia.
  - destruct (Z.leb_spec deviceNum 16777215); [|discriminate H].
    apply Ok_inj in H. subst bytes. split; [reflexivity|].
    change (2 ^ (Z.of_nat 3 * 8)) with 16777216.
    change (2 ^ (Z.of_nat 1 * 8)) with 256. lia.
Qed.

Lemma subcommand_bytes plcType :
  encodeValue (if (plcType =? "iQ-R")%string then 2 else 0) "short" false
  = Ok (le_split 2 (subcommandOf plcType)).
Proof. unfold subcommandOf. destruct (plcType =? "iQ-R")%string; reflexivity. Qed.

(** The bytes of a read frame, field by field. *)
Lemma create4EReadFrame_fields plcType deviceType deviceCode address count frame :
  lookup deviceType DEVICE_CODES = Some deviceCode -> 0 <= address ->
  create4EReadFrame plcType deviceType address count = Ok frame ->
  let w := deviceNumberWidth plcType in
  let cw := deviceCodeWidth plcType in
  let deviceNum := rereadDigits (getDeviceBase deviceType) address in
  frame = header11 ++ le_split 2 (Z.of_nat (2 + (6 + w + cw))) ++ le_split 2 4
          ++ le_split 2 0x0401 ++ le_split 2 (subcommandOf plcType)
          ++ le_split w deviceNum ++ le_split cw deviceCode
          ++ le_split 2 count ++ []
  /\ 0 <= count <= 0xffff
  /\ 0 <= deviceNum < 2 ^ (Z.of_nat w * 8)
  /\ 0 <= deviceCode < 2 ^ (Z.of_nat cw * 8).
Proof.
  intros Hl Ha H w cw deviceNum.
  rewrite create4EReadFrame_wrap in H. apply bind_Ok in H.
  destruct H as [body [Hbody Hwrap]].
  unfold readRequestData in Hbody. rewrite subcommand_bytes in Hbody.
  change (encodeValue 1025 "short" false) with (Ok (le_split 2 1025)) in Hbody.
  cbn [bind] in Hbody.
  apply bind_Ok in Hbody. destruct Hbody as [d [Hd Hbody]].
  apply bind_Ok in Hbody. destruct Hbody as [n [Hn Hbody]].
  apply Ok_inj in Hbody.
  destruct (makeDeviceData_recognized_inv _ _ _ _ _ Hl Ha Hd) as [-> [Hnum Hcode]].
  rewrite encodeValue_short in Hn. apply writeUInt16LE_inv in Hn.
  destruct Hn as [-> Hcount].
  apply wrap4E_inv in Hwrap. destruct Hwrap as [-> _]. subst body.
  split; [|split; [exact Hcount | split; [exact Hnum | exact Hcode]]].
  rewrite <- !app_assoc, app_nil_r. cbn [app].
  f_equal. f_equal; try reflexivity.
  f_equal. rewrite !length_app, !length_le_split. fold w cw. lia.
Qed.

Lemma le_combine_le_split_range n v :
  0 <= v < 2 ^ (Z.of_nat n * 8) -> le_combine (le_split n v) = v.
Proof. apply le_combine_le_split_small. Qed.

(** X3. A read frame decodes back to what it was built from, for a
    recognized device type and a non-negative safe-integer offset (at most
    2^53 - 1): the fixed 11-byte routing header, the timer value 4, the
    batch-read command 0x0401, the subcommand of the series (2 for iQ-R, 0
    otherwise), the device number and device code in the widths of the
    series, and the requested count; it is 25 bytes long (27 for iQ-R). *)
Theorem X3_read_frame_decodes :
  forall plcType deviceType deviceCode address count frame,
    lookup deviceType DEVICE_CODES = Some deviceCode ->
    0 <= address <= 9007199254740991 ->
    create4EReadFrame plcType deviceType address count = Ok frame ->
    let w := deviceNumberWidth plcType in
    let cw := deviceCodeWidth plcType in
    slice frame 0 11 = header11
    /\ readUInt16LE frame 13 = Ok 4
    /\ readUInt16LE frame 15 = Ok 0x0401
    /\ readUInt16LE frame 17 = Ok (subcommandOf plcType)
    /\ le_combine (slice frame 19 w)
       = rereadDigits (getDeviceBase deviceType) address
    /\ le_combine (slice frame (19 + w) cw) = deviceCode
    /\ readUInt16LE frame (19 + w + cw) = Ok count
    /\ length frame = (21 + w + cw)%nat.
Proof.
  intros plcType deviceType deviceCode address count frame Hl [Ha _] H w cw.
  destruct (create4EReadFrame_fields _ _ _ _ _ _ Hl Ha H)
    as [Hf [Hcount [Hnum Hcode]]].
  fold w cw in Hf, Hnum, Hcode.
  assert (H11 : length header11 = 11%nat) by reflexivity.
  assert (Hsub : 0 <= subcommandOf plcType < 65536)
    by (unfold subcommandOf; destruct (plcType =? "iQ-R")%string; lia).
  repeat match goal with |- _ /\ _ => split end.
  - rewrite Hf. apply (slice_at [] header11); reflexivity.
  - rewrite Hf, app_assoc.
    rewrite readUInt16LE_at
      by (rewrite ?length_app, ?length_le_split, ?H11; reflexivity).
    reflexivity.
  - rewrite Hf, 2 app_assoc.
    rewrite readUInt16LE_at
      by (rewrite ?length_app, ?length_le_split, ?H11; reflexivity).
    reflexivity.
  - rewrite Hf, 3 app_assoc.
    rewrite readUInt16LE_at
      by (rewrite ?length_app, ?length_le_split, ?H11; reflexivity).
    f_equal. apply le_combine_le_split_range. exact Hsub.
  - rewrite Hf, 4 app_assoc.
    rewrite slice_at
      by (rewrite ?length_app, ?length_le_split, ?H11; reflexivity).
    apply le_combine_le_split_range. exact Hnum.
  - rewrite Hf, 5 app_assoc.
    rewrite slice_at
      by (rewrite ?length_app, ?length_le_split, ?H11; lia).
    apply le_combine_le_split_range. exact Hcode.
  - rewrite Hf, 6 app_assoc.
    rewrite readUInt16LE_at
      by (rewrite ?length_app, ?length_le_split, ?H11; lia).
    f_equal. apply le_combine_le_split_range.
    change (2 ^ (Z.of_nat 2 * 8)) with 65536. lia.
  - rewrite Hf, !length_app, !length_le_split, H11. simpl. lia.
Qed.

Lemma X3_read_frame_decodes_witness :
  create4EReadFrame "Q" "D" 100 1 = Ok sampleRequest
  /\ slice sampleRequest 0 11 = header11
  /\ readUInt16LE sampleRequest 13 = Ok 4
  /\ readUInt16LE sampleRequest 15 = Ok 0x0401
  /\ readUInt16LE sampleRequest 17 = Ok 0
  /\ le_combine (slice sampleRequest 19 3) = 100
  /\ le_combine (slice sampleRequest 22 1) = 0xa8
  /\ readUInt16LE sampleRequest 23 = Ok 1
  /\ length sampleRequest = 25%nat.
Proof.
  assert (Hf : create4EReadFrame "Q" "D" 100 1 = Ok sampleRequest)
    by (vm_compute; reflexivity).
  split; [exact Hf|].
  apply (X3_read_frame_decodes "Q" "D" 0xa8 100 1 sampleRequest eq_refl).
  - lia.
  - exact Hf.
Defined.

Lemma appendValues_inv values :
  forall requestData body,
    appendValues requestData values = Ok body ->
    body = requestData ++ flat_map (le_split 2) values
    /\ Forall (fun v => -0x8000 <= v <= 0x7fff) values.
Proof.
  induction values as [|v values IH]; intros requestData body H;
    cbn [appendValues flat_map] in *.
  - apply Ok_inj in H. subst. rewrite app_nil_r. auto.
  - apply bind_Ok in H. destruct H as [b [Hb Hrest]].
    rewrite encodeValue_short_signed in Hb. apply writeInt16LE_inv in Hb.
    destruct Hb as [-> Hv].
    destruct (IH _ _ Hrest) as [-> Hall]. rewrite <- app_assoc. auto.
Qed.

(** The bytes of a write frame, field by field. *)
Lemma create4EWriteFrame_fields plcType deviceType deviceCode address values frame :
  lookup deviceType DEVICE_CODES = Some deviceCode -> 0 <= address ->
  create4EWriteFrame plcType deviceType address values = Ok frame ->
  let w := deviceNumberWidth plcType in
  let cw := deviceCodeWidth plcType in
  let deviceNum := rereadDigits (getDeviceBase deviceType) address in
  frame = header11
          ++ le_split 2 (Z.of_nat (2 + (6 + w + cw + 2 * length values)))
          ++ le_split 2 4
          ++ le_split 2 0x1401 ++ le_split 2 (subcommandOf plcType)
          ++ le_split w deviceNum ++ le_split cw deviceCode
          ++ le_split 2 (Z.of_nat (length values))
          ++ flat_map (le_split 2) values
  /\ Z.of_nat (length values) <= 0xffff
  /\ Forall (fun v => -0x8000 <= v <= 0x7fff) values
  /\ 0 <= deviceNum < 2 ^ (Z.of_nat w * 8)
  /\ 0 <= deviceCode < 2 ^ (Z.of_nat cw * 8).
Proof.
  intros Hl Ha H w cw deviceNum.
  rewrite create4EWriteFrame_wrap in H. apply bind_Ok in H.
  destruct H as [body [Hbody Hwrap]].
  unfold writeRequestData in Hbody. rewrite subcommand_bytes in Hbody.
  change (encodeValue 5121 "short" false) with (Ok (le_split 2 5121)) in Hbody.
  cbn [bind] in Hbody.
  apply bind_Ok in Hbody. destruct Hbody as [d [Hd Hbody]].
  apply bind_Ok in Hbody. destruct Hbody as [n [Hn Hbody]].
  destruct (makeDeviceData_recognized_inv _ _ _ _ _ Hl Ha Hd) as [-> [Hnum Hcode]].
  rewrite encodeValue_short in Hn. apply writeUInt16LE_inv in Hn.
  destruct Hn as [-> Hcount].
  apply appendValues_inv in Hbody. destruct Hbody as [-> Hall].
  apply wrap4E_inv in Hwrap. destruct Hwrap as [-> _].
  split; [|split; [lia | split; [exact Hall | split; [exact Hnum | exact Hcode]]]].
  rewrite <- !app_assoc. cbn [app].
  f_equal. f_equal; try reflexivity.
  f_equal. rewrite !length_app, !length_le_split. fold w cw.
  assert (Hfm : length (flat_map (le_split 2) values) = (2 * length values)%nat).
  { clear. induction values as [|v vs IH]; [reflexivity|].
    cbn [flat_map]. rewrite length_app, length_le_split, IH. simpl. lia. }
  rewrite Hfm. lia.
Qed.

Lemma slice_flat_map (values : list Z) :
  forall (pre post : list byte) i offset,
    (i < length values)%nat -> offset = (length pre + 2 * i)%nat ->
    slice (pre ++ flat_map (le_split 2) values ++ post) offset 2
    = le_split 2 (nth i values 0).
Proof.
  induction values as [|v values IH]; intros pre post i offset Hi ->;
    [simpl in Hi; lia|].
  cbn [flat_map]. destruct i as [|i].
  - rewrite <- app_assoc. cbn [nth].
    apply slice_at; [lia | apply length_le_split].
  - rewrite <- app_assoc, app_assoc. cbn [nth].
    apply IH; [simpl in Hi; lia|].
    rewrite length_app, length_le_split. lia.
Qed.

Lemma int16At_le_split (frame : list byte) offset v :
  slice frame offset 2 = le_split 2 v -> -0x8000 <= v <= 0x7fff ->
  int16At frame offset = v.
Proof.
  intros Hs Hv. unfold int16At. rewrite Hs, le_combine_split.
  change (2 ^ (Z.of_nat 2 * 8)) with (2 * 32768).
  change 65536 with (2 * 32768).
  apply (signed_wrap 32768); lia.
Qed.

(** X4. A write frame decodes back to what it was built from, for a
    recognized device type and a non-negative safe-integer offset (at most
    2^53 - 1): the batch-write command 0x1401, the subcommand, device
    number and device code of a read frame, the number of values, and then
    the values themselves, each read back as a signed 16-bit little-endian
    number, in order; nothing follows the last value. *)
Theorem X4_write_frame_decodes :
  forall plcType deviceType deviceCode address values frame,
    lookup deviceType DEVICE_CODES = Some deviceCode ->
    0 <= address <= 9007199254740991 ->
    create4EWriteFrame plcType deviceType address values = Ok frame ->
    let w := deviceNumberWidth plcType in
    let cw := deviceCodeWidth plcType in
    readUInt16LE frame 15 = Ok 0x1401
    /\ readUInt16LE frame 17 = Ok (subcommandOf plcType)
    /\ le_combine (slice frame 19 w)
       = rereadDigits (getDeviceBase deviceType) address
    /\ le_combine (slice frame (19 + w) cw) = deviceCode
    /\ readUInt16LE frame (19 + w + cw) = Ok (Z.of_nat (length values))
    /\ length frame = (21 + w + cw + 2 * length values)%nat
    /\ forall i, (i < length values)%nat ->
         readInt16LE frame (21 + w + cw + 2 * i) = Ok (nth i values 0).
Proof.
  intros plcType deviceType deviceCode address values frame Hl [Ha _] H w cw.
  destruct (create4EWriteFrame_fields _ _ _ _ _ _ Hl Ha H)
    as [Hf [Hcount [Hall [Hnum Hcode]]]].
  fold w cw in Hf, Hnum, Hcode.
  assert (H11 : length header11 = 11%nat) by reflexivity.
  assert (Hsub : 0 <= subcommandOf plcType < 65536)
    by (unfold subcommandOf; destruct (plcType =? "iQ-R")%string; lia).
  assert (Hfm : length (flat_map (le_split 2) values) = (2 * length values)%nat).
  { clear. induction values as [|v vs IH]; [reflexivity|].
    cbn [flat_map]. rewrite length_app, length_le_split, IH. simpl. lia. }
  assert (Hlen : length frame = (21 + w + cw + 2 * length values)%nat).
  { rewrite Hf, !length_app, !length_le_split, H11, Hfm. lia. }
  repeat match goal with |- _ /\ _ => split end.
  - rewrite Hf, 2 app_assoc.
    rewrite readUInt16LE_at
      by (rewrite ?length_app, ?length_le_split, ?H11; reflexivity).
    reflexivity.
  - rewrite Hf, 3 app_assoc.
    rewrite readUInt16LE_at
      by (rewrite ?length_app, ?length_le_split, ?H11; reflexivity).
    f_equal. apply le_combine_le_split_range. exact Hsub.
  - rewrite Hf, 4 app_assoc.
    rewrite slice_at
      by (rewrite ?length_app, ?length_le_split, ?H11; reflexivity).
    apply le_combine_le_split_range. exact Hnum.
  - rewrite Hf, 5 app_assoc.
    rewrite slice_at
      by (rewrite ?length_app, ?length_le_split, ?H11; lia).
    apply le_combine_le_split_range. exact Hcode.
  - rewrite Hf, 6 app_assoc.
    rewrite readUInt16LE_at
      by (rewrite ?length_app, ?length_le_split, ?H11; lia).
    f_equal. apply le_combine_le_split_range.
    change (2 ^ (Z.of_nat 2 * 8)) with 65536. lia.
  - exact Hlen.
  - intros i Hi. rewrite readInt16LE_in_range by lia. f_equal.
    apply int16At_le_split.
    + rewrite Hf, 7 app_assoc, <- (app_nil_r (flat_map _ values)).
      apply slice_flat_map; [assumption|].
      rewrite ?length_app, ?length_le_split, ?H11. lia.
    + rewrite Forall_forall in Hall. apply Hall. apply nth_In. assumption.
Qed.

Lemma X4_write_frame_decodes_witness :
  create4EWriteFrame "Q" "D" 200 [-1]
  = Ok (map byte.of_Z [0x54; 0x00; 0; 0; 0; 0; 0; 0xff; 0xff; 0x03; 0;
                       0x0e; 0x00; 0x04; 0x00;
                       0x01; 0x14; 0x00; 0x00; 200; 0; 0; 0xa8; 1; 0; 0xff; 0xff])
  /\ readUInt16LE (map byte.of_Z [0x54; 0x00; 0; 0; 0; 0; 0; 0xff; 0xff; 0x03; 0;
                     0x0e; 0x00; 0x04; 0x00;
                     0x01; 0x14; 0x00; 0x00; 200; 0; 0; 0xa8; 1; 0; 0xff; 0xff]) 23
     = Ok 1
  /\ readInt16LE (map byte.of_Z [0x54; 0x00; 0; 0; 0; 0; 0; 0xff; 0xff; 0x03; 0;
                    0x0e; 0x00; 0x04; 0x00;
                    0x01; 0x14; 0x00; 0x00; 200; 0; 0; 0xa8; 1; 0; 0xff; 0xff]) 25
     = Ok (-1).
Proof.
  assert (Hf : create4EWriteFrame "Q" "D" 200 [-1]
               = Ok (map byte.of_Z
                       [0x54; 0x00; 0; 0; 0; 0; 0; 0xff; 0xff; 0x03; 0;
                        0x0e; 0x00; 0x04; 0x00;
                        0x01; 0x14; 0x00; 0x00; 200; 0; 0; 0xa8; 1; 0; 0xff; 0xff]))
    by (vm_compute; reflexivity).
  destruct (X4_write_frame_decodes "Q" "D" 0xa8 200 [-1] _
              eq_refl ltac:(lia) Hf)
    as [_ [_ [_ [_ [Hn [_ Hv]]]]]].
  split; [exact Hf|].
  split; [exact Hn|]. apply (Hv 0%nat). simpl. lia.
Defined.

(** ** Validation *)

(** X5. Validation looks at nothing but the length of the response, its
    two subheader bytes and, from 15 bytes on, the two status bytes at
    offset 13: responses that agree on these get the same verdict, so the
    serial, network, station, module and length fields are never checked. *)
Theorem X5_validation_reads_two_fields :
  forall response response',
    length response = length response' ->
    slice response 0 2 = slice response' 0 2 ->
    slice response 13 2 = slice response' 13 2 ->
    validateResponse response = validateResponse response'.
Proof.
  intros r r' Hlen H0 H13. unfold validateResponse, readUInt16BE, readUInt16LE.
  rewrite Hlen, H0, H13.
  destruct (0 + 2 <=? length r')%nat; [|reflexivity]. cbn [bind].
  destruct (negb (le_combine (rev (slice r' 0 2)) =? 54272)); [reflexivity|].
  destruct (9 + 2 <=? length r')%nat; reflexivity.
Qed.

Lemma X5_validation_reads_two_fields_witness :
  validateResponse sampleFrame
  = validateResponse
      (map byte.of_Z [0xd4; 0; 9; 9; 9; 9; 9; 9; 9; 9; 9; 0xff; 0xff; 0; 0; 1; 2]).
Proof.
  apply (X5_validation_reads_two_fields sampleFrame); reflexivity.
Defined.

(** ** Reassembly, in general *)

Lemma handleLoop_partition fuel :
  forall st,
    exists frames,
      processed (handleLoop fuel st) = processed st ++ frames
      /\ concat frames ++ responseBuffer (handleLoop fuel st) = responseBuffer st
      /\ Forall complete frames.
Proof.
  induction fuel as [|fuel IH]; intros st.
  - exists []. cbn [handleLoop]. rewrite app_nil_r. auto.
  - cbn [handleLoop].
    destruct (Nat.leb_spec 13 (length (responseBuffer st))) as [H13|H13];
      [|exists []; rewrite app_nil_r; auto].
    destruct (readUInt16LE (responseBuffer st) 11) as [dataLength|e] eqn:Hr;
      [|exists []; rewrite app_nil_r; auto].
    destruct (Nat.leb_spec (Z.to_nat (13 + dataLength))
                (length (responseBuffer st))) as [Hfit|Hfit];
      [|exists []; rewrite app_nil_r; auto].
    destruct (IH (processResponse
                    (firstn (Z.to_nat (13 + dataLength)) (responseBuffer st))
                    (set_responseBuffer
                       (skipn (Z.to_nat (13 + dataLength)) (responseBuffer st))
                       st)))
      as [frames [Hp [Hb Hc]]].
    rewrite processResponse_processed, processResponse_responseBuffer,
      responseBuffer_set in *.
    exists (firstn (Z.to_nat (13 + dataLength)) (responseBuffer st) :: frames).
    split; [|split].
    + rewrite Hp. change (processed (set_responseBuffer _ st)) with (processed st).
      rewrite <- app_assoc. reflexivity.
    + cbn [concat]. rewrite <- app_assoc, Hb. apply firstn_skipn.
    + constructor; [|assumption]. apply firstn_complete; assumption.
Qed.

(** X6. Whatever a chunk completes, the reassembler loses and invents
    nothing: the frames it extracts, followed by what it keeps buffered,
    are exactly the bytes it had buffered followed by the chunk; every
    extracted frame is complete, and no complete frame is left at the head
    of the buffer. *)
Theorem X6_reassembler_partitions_the_stream :
  forall data st,
    exists frames,
      processed (handleResponse data st) = processed st ++ frames
      /\ concat frames ++ responseBuffer (handleResponse data st)
         = responseBuffer st ++ data
      /\ Forall complete frames
      /\ loopCondition (responseBuffer (handleResponse data st)) = false.
Proof.
  intros data st. unfold handleResponse.
  destruct (handleLoop_partition
              (length (responseBuffer
                         (set_responseBuffer (responseBuffer st ++ data) st)))
              (set_responseBuffer (responseBuffer st ++ data) st))
    as [frames [Hp [Hb Hc]]].
  exists frames. repeat split; try assumption.
  apply handleLoop_runs_to_exit. apply Nat.le_refl.
Qed.

Lemma set_responseBuffer_same st buf :
  responseBuffer st = buf -> set_responseBuffer buf st = st.
Proof. intros <-. destruct st. reflexivity. Qed.

Lemma processResponse_set_responseBuffer response buf st :
  processResponse response (set_responseBuffer buf st)
  = set_responseBuffer buf (processResponse response st).
Proof.
  unfold processResponse.
  change (pendingRequests (set_processed (processed (set_responseBuffer buf st)
                                            ++ [response])
                             (set_responseBuffer buf st)))
    with (pendingRequests st).
  change (pendingRequests (set_processed (processed st ++ [response]) st))
    with (pendingRequests st).
  destruct (pendingRequests st) as [|[requestId request] rest]; [reflexivity|].
  destruct (validateResponse response); reflexivity.
Qed.





(** ** Correlation in send order *)

Lemma mapDelete_head id r (rest : list (Z * request)) :
  ~ In id (map fst rest) -> mapDelete id ((id, r) :: rest) = rest.
Proof.
  intros H. unfold mapDelete. cbn [filter fst]. rewrite Z.eqb_refl. cbn [negb].
  induction rest as [|[k v] rest IH]; [reflexivity|].
  cbn [filter fst]. cbn [map fst] in H.
  destruct (Z.eqb_spec k id) as [->|Hne]; [exfalso; apply H; left; reflexivity|].
  cbn [negb]. f_equal. apply IH. intros Hin. apply H. right. exact Hin.
Qed.

Lemma processResponse_answers response st id r rest :
  Inv st -> pendingRequests st = (id, r) :: rest ->
  calls (processResponse response st) = calls st ++ [(id, answer response)]
  /\ pendingRequests (processResponse response st) = rest.
Proof.
  intros H Hp. unfold Inv in H. rewrite Hp in H.
  destruct (inv_entry _ _ _ _ _ H id r (or_introl eq_refl)) as [-> _].
  pose proof (inv_nodup _ _ _ _ _ H) as Hnd. cbn [map fst] in Hnd.
  apply NoDup_cons_iff in Hnd. destruct Hnd as [Hnot _].
  unfold processResponse, answer.
  change (pendingRequests (set_processed (processed st ++ [response]) st))
    with (pendingRequests st).
  rewrite Hp.
  destruct (validateResponse response); split;
    solve [reflexivity | apply mapDelete_head; assumption].
Qed.

Lemma processResponse_discards response st :
  pendingRequests st = [] ->
  calls (processResponse response st) = calls st
  /\ pendingRequests (processResponse response st) = [].
Proof.
  intros Hp. unfold processResponse.
  change (pendingRequests (set_processed (processed st ++ [response]) st))
    with (pendingRequests st).
  rewrite Hp. split; [reflexivity | exact Hp].
Qed.

Lemma answers_in_order frames :
  forall st,
    Inv st ->
    calls (fold_left (fun s f => processResponse f s) frames st)
    = calls st ++ combine (pendingIds st) (map answer frames)
    /\ pendingRequests (fold_left (fun s f => processResponse f s) frames st)
       = skipn (length frames) (pendingRequests st).
Proof.
  induction frames as [|f frames IH]; intros st H; cbn [fold_left map length].
  - unfold pendingIds. destruct (map fst (pendingRequests st));
      cbn [combine skipn]; rewrite app_nil_r; auto.
  - destruct (IH (processResponse f st) (processResponse_Inv f st H)) as [Hc Hp].
    rewrite Hc, Hp. unfold pendingIds.
    destruct (pendingRequests st) as [|[id r] rest] eqn:Hpend.
    + destruct (processResponse_discards f st Hpend) as [-> ->].
      cbn [map combine skipn]. destruct (length frames); auto.
    + destruct (processResponse_answers f st id r rest H Hpend) as [-> ->].
      cbn [map fst combine skipn]. rewrite <- app_assoc. auto.
Qed.

Lemma handleLoop_frames frames :
  forall st fuel,
    Forall complete frames -> responseBuffer st = concat frames ->
    (length frames <= fuel)%nat ->
    handleLoop fuel st
    = fold_left (fun s f => processResponse f s) frames (set_responseBuffer [] st).
Proof.
  induction frames as [|f frames IH]; intros st fuel Hc Hb Hfuel.
  - cbn [concat fold_left] in *. rewrite handleLoop_short by (rewrite Hb; simpl; lia).
    symmetry. apply set_responseBuffer_same. exact Hb.
  - apply Forall_cons_iff in Hc. destruct Hc as [Hf Hc].
    destruct fuel as [|fuel]; [simpl in Hfuel; lia|].
    cbn [concat] in Hb.
    rewrite (handleLoop_extract fuel st f (concat frames) Hf Hb).
    rewrite IH; try assumption.
    + cbn [fold_left]. rewrite <- processResponse_set_responseBuffer. reflexivity.
    + rewrite processResponse_responseBuffer. reflexivity.
    + simpl in Hfuel. lia.
Qed.

Lemma complete_frames_length frames :
  Forall complete frames -> (length frames <= length (concat frames))%nat.
Proof.
  induction 1 as [|f frames [Hf _] _ IH]; [apply Nat.le_refl|].
  cbn [concat length]. rewrite length_app. lia.
Qed.

Lemma handleResponse_frames frames st :
  responseBuffer st = [] -> Forall complete frames ->
  handleResponse (concat frames) st
  = fold_left (fun s f => processResponse f s) frames st.
Proof.
  intros Hb Hc. unfold handleResponse. rewrite responseBuffer_set, Hb. cbn [app].
  rewrite (handleLoop_frames frames) by
    (try assumption; try reflexivity; apply complete_frames_length; assumption).
  change (set_responseBuffer [] (set_responseBuffer (concat frames) st))
    with (set_responseBuffer [] st).
  rewrite set_responseBuffer_same by assumption. reflexivity.
Qed.

(** X8. In a reachable state with an empty buffer, a chunk made of k
    complete frames answers the pending requests in the order they were
    registered, one frame each: the i-th frame resolves the i-th pending
    request with itself when it passes validation and rejects it with the
    validation error otherwise.  Frames beyond the number of pending
    requests call nobody, and requests beyond the number of frames stay
    pending. *)
Theorem X8_frames_answer_requests_in_order :
  forall trace st frames,
    run initial trace = Some st ->
    responseBuffer st = [] -> Forall complete frames ->
    calls (handleResponse (concat frames) st)
    = calls st ++ combine (pendingIds st) (map answer frames)
    /\ pendingRequests (handleResponse (concat frames) st)
       = skipn (length frames) (pendingRequests st)
    /\ responseBuffer (handleResponse (concat frames) st) = [].
Proof.
  intros trace st frames Hrun Hb Hc.
  pose proof (reachable_Inv trace st Hrun) as H.
  rewrite (handleResponse_frames frames st Hb Hc).
  destruct (answers_in_order frames st H) as [H1 H2].
  split; [exact H1 | split; [exact H2|]].
  clear H1 H2 H Hrun. revert st Hb.
  induction frames as [|f frames IH]; intros st Hb; [exact Hb|].
  cbn [fold_left]. apply Forall_cons_iff in Hc. destruct Hc as [_ Hc].
  apply IH; [assumption|]. rewrite processResponse_responseBuffer. exact Hb.
Qed.

Lemma X8_frames_answer_requests_in_order_witness :
  calls (handleResponse (concat [sampleFrame; sampleFrame; sampleFrame])
           (stateAfter traceTwoOutstanding))
  = calls (stateAfter traceTwoOutstanding)
    ++ combine (pendingIds (stateAfter traceTwoOutstanding))
         (map answer [sampleFrame; sampleFrame; sampleFrame])
  /\ pendingRequests (handleResponse (concat [sampleFrame; sampleFrame; sampleFrame])
                        (stateAfter traceTwoOutstanding))
     = skipn 3 (pendingRequests (stateAfter traceTwoOutstanding))
  /\ responseBuffer (handleResponse (concat [sampleFrame; sampleFrame; sampleFrame])
                       (stateAfter traceTwoOutstanding)) = [].
Proof.
  apply (X8_frames_answer_requests_in_order traceTwoOutstanding).
  - vm_compute. reflexivity.
  - vm_compute. reflexivity.
  - repeat (constructor; [exact sampleFrame_complete|]). constructor.
Defined.

Lemma increasing_filter (keep : Z -> bool) ids :
  increasing ids -> increasing (filter keep ids).
Proof.
  induction ids as [|id ids IH]; [auto|]. cbn [increasing filter].
  intros [Hlt Hrest]. destruct (keep id); [|auto].
  cbn [increasing]. split; [|auto].
  intros later Hin. apply filter_In in Hin. apply Hlt. tauto.
Qed.

Lemma increasing_snoc ids id :
  increasing ids -> (forall earlier, In earlier ids -> earlier < id) ->
  increasing (ids ++ [id]).
Proof.
  induction ids as [|x ids IH]; cbn [increasing app]; intros H Hlt.
  - split; [intros ? []|exact I].
  - destruct H as [Hx Hrest]. split.
    + intros later Hin. apply in_app_iff in Hin.
      destruct Hin as [Hin|[<-|[]]]; [auto | apply Hlt; left; reflexivity].
    + apply IH; [assumption|]. intros e He. apply Hlt. right. exact He.
Qed.

Lemma processResponse_increasing response st :
  increasing (pendingIds st) -> increasing (pendingIds (processResponse response st)).
Proof.
  intros H. unfold processResponse, pendingIds in *.
  change (pendingRequests (set_processed (processed st ++ [response]) st))
    with (pendingRequests st).
  destruct (pendingRequests st) as [|[id r] rest] eqn:Hp.
  { change (increasing (map fst (pendingRequests st))). rewrite Hp. exact H. }
  assert (Hgoal : increasing (map fst (mapDelete id ((id, r) :: rest)))).
  { rewrite map_fst_mapDelete. apply increasing_filter. exact H. }
  destruct (validateResponse response); exact Hgoal.
Qed.

Lemma handleLoop_increasing fuel :
  forall st, increasing (pendingIds st) -> increasing (pendingIds (handleLoop fuel st)).
Proof.
  induction fuel as [|fuel IH]; intros st H; [exact H|]. cbn [handleLoop].
  destruct (13 <=? length (responseBuffer st))%nat; [|exact H].
  destruct (readUInt16LE (responseBuffer st) 11) as [dataLength|e]; [|exact H].
  destruct (Z.to_nat (13 + dataLength) <=? length (responseBuffer st))%nat;
    [|exact H].
  apply IH. apply processResponse_increasing. exact H.
Qed.

Lemma cleanup_increasing st : increasing (pendingIds (cleanup st)).
Proof.
  unfold pendingIds. destruct (cleanup_fields st) as [-> _]. exact I.
Qed.

Lemma step_increasing st ev st' :
  Inv st -> increasing (pendingIds st) -> step st ev = Some st' ->
  increasing (pendingIds st').
Proof.
  intros H Hinc Hstep. destruct ev; cbn [step] in Hstep.
  - injection Hstep as <-. unfold connect. destruct (isConnected st); exact Hinc.
  - injection Hstep as <-. unfold disconnect.
    destruct (socket st); [|exact Hinc].
    destruct (isConnected st); [apply cleanup_increasing | exact Hinc].
  - injection Hstep as <-. unfold sendRequest.
    destruct (socket st); [|exact Hinc].
    destruct (isConnected st); [|exact Hinc].
    unfold pendingIds.
    change (increasing
              (map fst (mapSet (requestCounter st + 1)
                          (mkRequest (requestCounter st + 1) (requestCounter st + 1))
                          (pendingRequests st)))).
    assert (Hold : forall id, In id (map fst (pendingRequests st)) ->
                              id < requestCounter st + 1).
    { intros id Hin. apply in_map_iff in Hin. destruct Hin as [[x r] [Hx Hxr]].
      simpl in Hx. subst x. destruct (inv_entry _ _ _ _ _ H id r Hxr). lia. }
    rewrite mapSet_fresh.
    + rewrite map_app. apply increasing_snoc; assumption.
    + intros Hin. apply Hold in Hin. lia.
  - destruct (memZ requestId (timers st)); [|discriminate].
    injection Hstep as <-. unfold pendingIds.
    change (increasing (map fst (mapDelete requestId (pendingRequests st)))).
    rewrite map_fst_mapDelete. apply increasing_filter. exact Hinc.
  - destruct (memZ requestId (writes st)); [|discriminate].
    injection Hstep as <-. destruct error; [|exact Hinc]. unfold pendingIds.
    change (increasing (map fst (mapDelete requestId (pendingRequests st)))).
    rewrite map_fst_mapDelete. apply increasing_filter. exact Hinc.
  - destruct (k <? sockets st)%nat; [|discriminate].
    injection Hstep as <-. exact Hinc.
  - destruct (k <? sockets st)%nat; [|discriminate].
    injection Hstep as <-. exact Hinc.
  - destruct (k <? sockets st)%nat; [|discriminate].
    injection Hstep as <-. unfold onClose. apply cleanup_increasing.
  - destruct (k <? sockets st)%nat; [|discriminate].
    injection Hstep as <-. unfold handleResponse. apply handleLoop_increasing.
    exact Hinc.
  - destruct (memNat k (connectTimers st)); [|discriminate].
    injection Hstep as <-. exact Hinc.
Qed.

Lemma run_increasing trace :
  forall st st',
    Inv st -> increasing (pendingIds st) -> run st trace = Some st' ->
    increasing (pendingIds st').
Proof.
  induction trace as [|ev trace IH]; intros st st' H Hinc Hrun; cbn [run] in Hrun.
  - injection Hrun as <-. exact Hinc.
  - destruct (step st ev) as [st1|] eqn:Hstep; [|discriminate].
    apply (IH st1 st'); try assumption.
    + apply (step_Inv st ev); assumption.
    + apply (step_increasing st ev); assumption.
Qed.

(** X9. In every reachable state the pending map lists the requests in
    the order they were sent: identifiers strictly increase along it and
    none exceeds the request counter.  Its first entry, the one a completed
    response is handed to, is therefore the oldest request still pending. *)
Theorem X9_pending_requests_in_send_order :
  forall trace st,
    run initial trace = Some st ->
    increasing (pendingIds st)
    /\ forall id, In id (pendingIds st) -> 1 <= id <= requestCounter st.
Proof.
  intros trace st Hrun. split.
  - apply (run_increasing trace initial st); [exact initial_Inv | exact I | exact Hrun].
  - intros id Hin. pose proof (reachable_Inv trace st Hrun) as H.
    unfold pendingIds in Hin. apply in_map_iff in Hin.
    destruct Hin as [[x r] [Hx Hxr]]. simpl in Hx. subst x.
    apply (inv_entry _ _ _ _ _ H id r Hxr).
Qed.

Lemma X9_pending_requests_in_send_order_witness :
  increasing (pendingIds (stateAfter traceTwoOutstanding))
  /\ forall id, In id (pendingIds (stateAfter traceTwoOutstanding)) ->
       1 <= id <= requestCounter (stateAfter traceTwoOutstanding).
Proof.
  apply (X9_pending_requests_in_send_order traceTwoOutstanding).
  vm_compute. reflexivity.
Defined.

(** ** After the teardown *)

Lemma cleanup_fixed st :
  isConnected st = false -> responseBuffer st = [] -> pendingRequests st = [] ->
  cleanup st = st.
Proof.
  intros H1 H2 H3. destruct st. cbn in *. subst.
  unfold cleanup. reflexivity.
Qed.

Lemma set_isConnected_same st b :
  isConnected st = b -> set_isConnected b st = st.
Proof. intros <-. destruct st. reflexivity. Qed.

(** X10. After a teardown the instance is inert.  Running the teardown
    again, by a 'close' event or by another [disconnect], changes nothing,
    so no request is rejected a second time; and a request sent in that
    state is refused on the spot with the not-connected error, without
    being registered or written to the socket. *)
Theorem X10_teardown_is_final :
  forall st frame,
    cleanup (cleanup st) = cleanup st
    /\ onClose (cleanup st) = cleanup st
    /\ disconnect (cleanup st) = cleanup st
    /\ sendRequest frame (cleanup st)
       = (cleanup st, Some (MCProtocolError NotConnected None None)).
Proof.
  intros st frame.
  destruct (cleanup_fields st) as [Hp [_ [_ [Hc [Hb _]]]]].
  assert (Hfix : cleanup (cleanup st) = cleanup st)
    by (apply cleanup_fixed; assumption).
  repeat split.
  - exact Hfix.
  - unfold onClose. rewrite set_isConnected_same by assumption. exact Hfix.
  - unfold disconnect. rewrite Hc. destruct (socket (cleanup st)); reflexivity.
  - unfold sendRequest. rewrite Hc. destruct (socket (cleanup st)); reflexivity.
Qed.

(** ** The socket of a connected instance *)

Lemma processResponse_socket response st :
  socket (processResponse response st) = socket st
  /\ sockets (processResponse response st) = sockets st
  /\ isConnected (processResponse response st) = isConnected st.
Proof.
  unfold processResponse.
  change (pendingRequests (set_processed (processed st ++ [response]) st))
    with (pendingRequests st).
  destruct (pendingRequests st) as [|[id r] rest]; [repeat split|].
  destruct (validateResponse response); repeat split.
Qed.

Lemma handleLoop_socket fuel :
  forall st,
    socket (handleLoop fuel st) = socket st
    /\ sockets (handleLoop fuel st) = sockets st
    /\ isConnected (handleLoop fuel st) = isConnected st.
Proof.
  induction fuel as [|fuel IH]; intros st; [repeat split|]. cbn [handleLoop].
  destruct (13 <=? length (responseBuffer st))%nat; [|repeat split].
  destruct (readUInt16LE (responseBuffer st) 11) as [dataLength|e]; [|repeat split].
  destruct (Z.to_nat (13 + dataLength) <=? length (responseBuffer st))%nat;
    [|repeat split].
  match goal with
  | |- context [handleLoop fuel ?s] =>
      destruct (IH s) as [H1 [H2 H3]]; destruct (processResponse_socket
        (firstn (Z.to_nat (13 + dataLength)) (responseBuffer st))
        (set_responseBuffer (skipn (Z.to_nat (13 + dataLength)) (responseBuffer st)) st))
        as [G1 [G2 G3]]
  end.
  rewrite H1, H2, H3, G1, G2, G3. repeat split.
Qed.

Lemma rejectClosed_fold_socket l :
  forall st,
    socket (fold_left rejectClosed l st) = socket st
    /\ sockets (fold_left rejectClosed l st) = sockets st.
Proof.
  induction l as [|[id r] l IH]; intros st; cbn [fold_left]; [split; reflexivity|].
  destruct (IH (rejectClosed st (id, r))) as [-> ->]. split; reflexivity.
Qed.

Lemma cleanup_socket st :
  socket (cleanup st) = socket st /\ sockets (cleanup st) = sockets st.
Proof.
  unfold cleanup.
  destruct (rejectClosed_fold_socket (pendingRequests st)
              (set_responseBuffer [] (set_isConnected false st))) as [H1 H2].
  split; [exact H1 | exact H2].
Qed.

(** Sockets are created by [connect], which also stores the new one; the
    connect callback runs only for a socket that exists. *)
Lemma step_socket st ev st' :
  (socket st = None <-> sockets st = 0%nat) ->
  (isConnected st = true -> socket st <> None) ->
  step st ev = Some st' ->
  (socket st' = None <-> sockets st' = 0%nat)
  /\ (isConnected st' = true -> socket st' <> None).
Proof.
  intros Hs Hc Hstep.
  assert (Hkeep : forall s,
             socket s = socket st -> sockets s = sockets st ->
             (isConnected s = true -> isConnected st = true) ->
             (socket s = None <-> sockets s = 0%nat)
             /\ (isConnected s = true -> socket s <> None)).
  { intros s E1 E2 E3. rewrite E1, E2. split; [exact Hs | auto]. }
  destruct ev; cbn [step] in Hstep.
  - injection Hstep as <-. unfold connect.
    destruct (isConnected st) eqn:Hconn; [apply Hkeep; auto; congruence|].
    cbn. split; [split; discriminate | discriminate].
  - injection Hstep as <-. unfold disconnect.
    destruct (socket st) eqn:Hsock; [|apply Hkeep; auto; congruence].
    destruct (isConnected st) eqn:Hconn; cbn [negb]; [|apply Hkeep; auto; congruence].
    destruct (cleanup_socket st) as [E1 E2].
    destruct (cleanup_fields st) as [_ [_ [_ [E3 _]]]].
    apply Hkeep; [congruence | congruence | rewrite E3; discriminate].
  - injection Hstep as <-. unfold sendRequest.
    destruct (socket st) eqn:Hsock; [|apply Hkeep; auto; congruence].
    destruct (isConnected st) eqn:Hconn; cbn [negb fst]; apply Hkeep; auto; congruence.
  - destruct (memZ requestId (timers st)); [|discriminate].
    injection Hstep as <-. apply Hkeep; auto; congruence.
  - destruct (memZ requestId (writes st)); [|discriminate].
    injection Hstep as <-. destruct error; apply Hkeep; auto; congruence.
  - destruct (Nat.ltb_spec k (sockets st)) as [Hk|Hk]; [|discriminate].
    injection Hstep as <-. split; [exact Hs|]. intros _ Hnone.
    change (socket st = None) in Hnone. apply Hs in Hnone. lia.
  - destruct (k <? sockets st)%nat; [|discriminate].
    injection Hstep as <-. apply Hkeep; [reflexivity | reflexivity | discriminate].
  - destruct (k <? sockets st)%nat; [|discriminate].
    injection Hstep as <-. unfold onClose.
    destruct (cleanup_socket (set_isConnected false st)) as [E1 E2].
    destruct (cleanup_fields (set_isConnected false st)) as [_ [_ [_ [E3 _]]]].
    apply Hkeep; [exact E1 | exact E2 | rewrite E3; discriminate].
  - destruct (k <? sockets st)%nat; [|discriminate].
    injection Hstep as <-. unfold handleResponse.
    match goal with
    | |- context [handleLoop ?f ?s] =>
        destruct (handleLoop_socket f s) as [E1 [E2 E3]]
    end.
    apply Hkeep; [exact E1 | exact E2 | rewrite E3; auto].
  - destruct (memNat k (connectTimers st)); [|discriminate].
    injection Hstep as <-. apply Hkeep; auto; congruence.
Qed.

Lemma run_socket trace :
  forall st st',
    (socket st = None <-> sockets st = 0%nat) ->
    (isConnected st = true -> socket st <> None) ->
    run st trace = Some st' ->
    isConnected st' = true -> socket st' <> None.
Proof.
  induction trace as [|ev trace IH]; intros st st' Hs Hc Hrun; cbn [run] in Hrun.
  - injection Hrun as <-. exact Hc.
  - destruct (step st ev) as [st1|] eqn:Hstep; [|discriminate].
    destruct (step_socket st ev st1 Hs Hc Hstep) as [Hs1 Hc1].
    apply (IH st1 st'); assumption.
Qed.

(** X11. In every reachable state a connected instance has a socket: the
    connected flag is never set while the socket field is null, so
    [getIsConnected] agrees with the flag and the null tests in
    [sendRequest] and in the batch operations never decide. *)
Theorem X11_connected_instance_has_socket :
  forall trace st,
    run initial trace = Some st ->
    (isConnected st = true -> socket st <> None)
    /\ getIsConnected st = isConnected st.
Proof.
  intros trace st Hrun.
  assert (H : isConnected st = true -> socket st <> None).
  { apply (run_socket trace initial st); try assumption.
    - split; reflexivity.
    - discriminate. }
  split; [exact H|]. unfold getIsConnected.
  destruct (isConnected st); [|reflexivity].
  destruct (socket st); [reflexivity|]. exfalso. apply H; reflexivity.
Qed.

Lemma X11_connected_instance_has_socket_witness :
  (isConnected (stateAfter traceTwoOutstanding) = true ->
   socket (stateAfter traceTwoOutstanding) <> None)
  /\ getIsConnected (stateAfter traceTwoOutstanding)
     = isConnected (stateAfter traceTwoOutstanding).
Proof.
  apply (X11_connected_instance_has_socket traceTwoOutstanding).
  vm_compute. reflexivity.
Defined.

(** ** Reading registers *)

Lemma objGet_objSet_same key value results :
  objGet key (objSet key value results) = Some value.
Proof.
  induction results as [|[k v] rest IH]; cbn [objSet objGet].
  - rewrite String.eqb_refl. reflexivity.
  - destruct (String.eqb_spec k key) as [->|Hne]; cbn [objGet].
    + rewrite String.eqb_refl. reflexivity.
    + destruct (String.eqb_spec k key); [contradiction | exact IH].
Qed.

Lemma objGet_objSet_other key other value results :
  other <> key -> objGet key (objSet other value results) = objGet key results.
Proof.
  intros Hne. induction results as [|[k v] rest IH]; cbn [objSet objGet].
  - destruct (String.eqb_spec other key); [contradiction | reflexivity].
  - destruct (String.eqb_spec k other) as [->|Hko]; cbn [objGet].
    + destruct (String.eqb_spec other key); [contradiction | reflexivity].
    + destruct (String.eqb_spec k key); [reflexivity | exact IH].
Qed.

Lemma append_inj_l (s t u : string) : (s ++ t)%string = (s ++ u)%string -> t = u.
Proof. induction s as [|c s IH]; cbn [append]; intros H; [exact H|]. injection H. exact IH. Qed.

Lemma toString_inj a b : 0 <= a -> 0 <= b -> toString a = toString b -> a = b.
Proof.
  intros Ha Hb H.
  destruct (toString_nonneg a Ha) as [_ [_ Va]].
  destruct (toString_nonneg b Hb) as [_ [_ Vb]].
  rewrite <- (rereadDigits_10 a Ha), <- (rereadDigits_10 b Hb), <- Va, <- Vb, H.
  reflexivity.
Qed.

Lemma keyOf_inj device a b : 0 <= a -> 0 <= b -> keyOf device a = keyOf device b -> a = b.
Proof.
  intros Ha Hb H. apply append_inj_l in H. apply toString_inj; assumption.
Qed.

Lemma storeValues_other device address values :
  forall i results key,
    (forall j, i <= j -> keyOf device (address + j) <> key) ->
    objGet key (storeValues device address i values results) = objGet key results.
Proof.
  induction values as [|v values IH]; intros i results key H; cbn [storeValues].
  - reflexivity.
  - rewrite IH by (intros j Hj; apply H; lia).
    apply objGet_objSet_other. apply H. lia.
Qed.

Lemma storeValues_first device address value values results :
  0 <= address ->
  objGet (keyOf device address)
    (storeValues device address 0 (value :: values) results)
  = Some value.
Proof.
  intros Ha. cbn [storeValues]. rewrite storeValues_other.
  - rewrite Z.add_0_r. apply objGet_objSet_same.
  - intros j Hj Heq. apply keyOf_inj in Heq; lia.
Qed.

(** X12. With the instance connected and the read frame of a non-negative
    safe-integer address (at most 2^53 - 1, where the key is the device
    followed by the digits of the address) built, [readRegister] hands
    that one frame to [sendRequest] and
    then follows the reply: it stays pending while there is none, fails
    with the error of a rejected request or of a response that does not
    decode, fails with the no-data error when the response carries no
    value, and otherwise returns the first value of the response. *)
Theorem X12_readRegister_returns_first_value :
  forall plcType st device address replies frame,
    isConnected st = true -> socket st <> None ->
    0 <= address <= 9007199254740991 ->
    create4EReadFrame plcType device address 1 = Ok frame ->
    readRegister plcType st device address replies
    = ([frame],
       match replies with
       | [] => None
       | Rejected e :: _ => Some (Throw e)
       | Resolved response :: _ =>
           match parseReadResponse response with
           | Throw e => Some (Throw e)
           | Ok [] =>
               Some (Throw (MCProtocolError
                              (NoDataReceived (keyOf device address)) None None))
           | Ok (value :: _) => Some (Ok value)
           end
       end).
Proof.
  intros plcType st dev addr replies frame Hc Hs [Ha _] Hf.
  unfold readRegister, batchReadWordUnits.
  destruct (socket st); [|congruence]. rewrite Hc. cbn [negb].
  cbn [batchReadLoop device address count countOrOne]. rewrite Hf. cbn [app].
  destruct replies as [|[response|e] replies]; try reflexivity.
  destruct (parseReadResponse response) as [[|value values]|e]; try reflexivity.
  cbn [batchReadLoop]. rewrite storeValues_first by assumption. reflexivity.
Qed.

Lemma X12_readRegister_returns_first_value_witness :
  readRegister "Q" connectedState "D" 100 [Resolved sampleFrame]
  = ([sampleRequest], Some (Ok 12345)).
Proof.
  rewrite (X12_readRegister_returns_first_value "Q" connectedState "D" 100
             [Resolved sampleFrame] sampleRequest);
    [reflexivity | reflexivity | discriminate | lia | vm_compute; reflexivity].
Defined.








Lemma objGet_In key results value :
  objGet key results = Some value -> In key (map fst results).
Proof.
  induction results as [|[k v] rest IH]; cbn [objGet map fst]; [discriminate|].
  destruct (String.eqb_spec k key) as [->|Hne]; [left; reflexivity | right; auto].
Qed.

Lemma objSet_keys key other value results :
  In key (map fst (objSet other value results)) ->
  key = other \/ In key (map fst results).
Proof.
  induction results as [|[k v] rest IH]; cbn [objSet map fst].
  - intros [<-|[]]. left. reflexivity.
  - destruct (String.eqb_spec k other) as [->|Hne]; cbn [map fst].
    + intros [<-|H]; [left; reflexivity | right; right; exact H].
    + intros [<-|H]; [right; left; reflexivity|].
      destruct (IH H); [left; assumption | right; right; assumption].
Qed.

Lemma storeValues_keys device address values :
  forall i results key,
    In key (map fst (storeValues device address i values results)) ->
    In key (map fst results)
    \/ exists j, i <= j /\ key = keyOf device (address + j).
Proof.
  induction values as [|v values IH]; intros i results key H; cbn [storeValues] in H.
  - left. exact H.
  - destruct (IH _ _ _ H) as [Hin | [j [Hj Hk]]].
    + apply objSet_keys in Hin. destruct Hin as [-> | Hin]; [|left; exact Hin].
      right. exists i. split; [lia | reflexivity].
    + right. exists j. split; [lia | exact Hk].
Qed.

Lemma batchReadLoop_keys plcType addresses :
  forall replies results requested requested' results',
    batchReadLoop plcType addresses replies results requested
    = (requested', Some (Ok results')) ->
    forall key,
      In key (map fst results') ->
      In key (map fst results)
      \/ exists a j, In a addresses /\ 0 <= j
                     /\ key = keyOf (device a) (address a + j).
Proof.
  induction addresses as [|a addresses IH];
    intros replies results requested requested' results' H key Hkey;
    cbn [batchReadLoop] in H.
  - injection H as _ <-. left. exact Hkey.
  - destruct (create4EReadFrame plcType (device a) (address a)
                (countOrOne (count a))) as [frame|e]; [|discriminate H].
    destruct replies as [|[response|e] replies]; try discriminate H.
    destruct (parseReadResponse response) as [values|e]; [|discriminate H].
    destruct (IH _ _ _ _ _ H key Hkey) as [Hin | [b [j [Hb [Hj Hk]]]]].
    + apply storeValues_keys in Hin. destruct Hin as [Hin | [j [Hj Hk]]].
      * left. exact Hin.
      * right. exists a, j. split; [left; reflexivity | auto].
    + right. exists b, j. split; [right; exact Hb | auto].
Qed.

Lemma parseRegister_inv reg letters n :
  parseRegister reg = Ok (letters, n) ->
  exists digits,
    registerForm isUpper reg letters digits /\ n = readDigits 10 digits 0.
Proof.
  unfold parseRegister.
  destruct (matchRegister reg) as [[l d]|] eqn:Hm; [|discriminate].
  intros H. apply Ok_inj in H. injection H as <- <-.
  apply matchRegister_form in Hm. exists d. split; [exact Hm|].
  destruct Hm as [_ [_ [_ [Hd Hdig]]]].
  rewrite (parseInt_digits d None) by (assumption || exact I). reflexivity.
Qed.

Lemma mapRegisters_inv registers :
  forall addresses,
    mapRegisters registers = Ok addresses ->
    forall a, In a addresses ->
      exists reg digits,
        registerForm isUpper reg (fst a) digits /\ snd a = readDigits 10 digits 0.
Proof.
  induction registers as [|reg registers IH]; intros addresses H a Ha;
    cbn [mapRegisters] in H.
  - apply Ok_inj in H. subst. destruct Ha.
  - apply bind_Ok in H. destruct H as [[l n] [Hp H]].
    apply bind_Ok in H. destruct H as [others [Ho H]].
    apply Ok_inj in H. subst addresses. destruct Ha as [<- | Ha].
    + apply parseRegister_inv in Hp. destruct Hp as [d [Hform Hn]].
      exists reg, d. auto.
    + apply (IH others Ho a Ha).
Qed.

Lemma collectRegisters_In registers results values :
  collectRegisters registers results = Ok values ->
  forall reg, In reg registers -> exists value, objGet reg results = Some value.
Proof.
  revert values. induction registers as [|r registers IH]; intros values H reg Hin;
    [destruct Hin|].
  cbn [collectRegisters] in H.
  destruct (objGet r results) as [v|] eqn:Hg; [|discriminate H].
  apply bind_Ok in H. destruct H as [others [Ho _]].
  destruct Hin as [<- | Hin]; [exists v; exact Hg | apply (IH others Ho reg Hin)].
Qed.

(** X14. A name written with a leading zero can never be read by
    [plcRead]: values are stored under keys made of the letters and the
    number printed without leading zeros, and looked up under the name as
    written, so whatever the connection state and the replies, a list that
    contains such a name does not resolve to values. *)
Theorem X14_plcRead_leading_zero_never_succeeds :
  forall plcType st registers replies reg letters digits,
    In reg registers ->
    registerForm isUpper reg letters digits ->
    toString (readDigits 10 digits 0) <> digits ->
    forall values,
      snd (plcRead plcType st registers replies) <> Some (Ok values).
Proof.
  intros plcType st registers replies reg letters digits Hin Hform Hzero values.
  unfold plcRead.
  destruct (mapRegisters registers) as [addresses|e] eqn:Hm; [|discriminate].
  destruct (batchReadWordUnits plcType st
              (map (fun a => mkDeviceAddress (fst a) (snd a) None) addresses)
              replies) as [requested awaited] eqn:Hb.
  cbn [snd]. destruct awaited as [[results|e]|]; try discriminate.
  intros Hcollect.
  assert (Hvalues : collectRegisters registers results = Ok values)
    by congruence.
  clear Hcollect. rename Hvalues into Hcollect.
  destruct (collectRegisters_In _ _ _ Hcollect reg Hin) as [v Hv].
  apply objGet_In in Hv.
  unfold batchReadWordUnits in Hb.
  destruct (socket st) as [sock|]; [|discriminate Hb].
  destruct (negb (isConnected st)); [discriminate Hb|].
  destruct (batchReadLoop_keys _ _ _ _ _ _ _ Hb reg Hv) as [[] | [a [j [Ha [Hj Hk]]]]].
  apply in_map_iff in Ha. destruct Ha as [[l n] [<- Hln]].
  cbn [device address fst snd] in Hk.
  destruct (mapRegisters_inv _ _ Hm (l, n) Hln) as [reg' [d' [Hform' Hn]]].
  cbn [fst snd] in Hform', Hn.
  assert (Hnn : 0 <= n).
  { subst n. destruct Hform' as [_ [_ [_ [_ Hdig]]]].
    apply readDigits_nonneg; try assumption; lia. }
  destruct (toString_nonneg (n + j)) as [Hall [Hne Hval]]; [lia|].
  assert (Hform2 : registerForm isUpper reg l (toString (n + j))).
  { destruct Hform' as [_ [Hl [Hup _]]]. unfold registerForm.
    repeat split; assumption. }
  apply matchRegister_form in Hform. apply matchRegister_form in Hform2.
  rewrite Hform in Hform2. injection Hform2 as -> ->.
  apply Hzero. rewrite Hval, rereadDigits_10 by lia. reflexivity.
Qed.

Lemma X14_plcRead_leading_zero_never_succeeds_witness :
  registerForm isUpper "D007" "D" "007"
  /\ snd (plcRead "Q" connectedState ["D0"; "D007"]
            [Resolved sampleFrame; Resolved sampleFrame])
     <> Some (Ok [12345; 12345]).
Proof.
  assert (Hform : registerForm isUpper "D007" "D" "007")
    by (unfold registerForm; repeat split; discriminate).
  split; [exact Hform|].
  apply (X14_plcRead_leading_zero_never_succeeds "Q" connectedState
           ["D0"; "D007"] [Resolved sampleFrame; Resolved sampleFrame]
           "D007" "D" "007").
  - right. left. reflexivity.
  - exact Hform.
  - vm_compute. discriminate.
Defined.

(** ** Writing registers *)

Lemma batchWriteLoop_prefix plcType pre frames :
  Forall2 (fun (item : string * Z * Z) frame =>
             create4EWriteFrame plcType (fst (fst item)) (snd (fst item)) [snd item]
             = Ok frame) pre frames ->
  forall responses rest replies requested,
    length responses = length pre ->
    batchWriteLoop plcType (pre ++ rest) (map Resolved responses ++ replies) requested
    = batchWriteLoop plcType rest replies (requested ++ frames).
Proof.
  induction 1 as [|[[d a] v] frame pre frames Hf _ IH];
    intros responses rest replies requested Hlen.
  - destruct responses; [|discriminate Hlen]. cbn [app map].
    rewrite app_nil_r. reflexivity.
  - destruct responses as [|r responses]; [discriminate Hlen|].
    cbn [app map batchWriteLoop]. cbn [fst snd] in Hf. rewrite Hf.
    rewrite IH by (simpl in Hlen; lia). rewrite <- app_assoc. reflexivity.
Qed.

(** X15. A batch write is carried out entry by entry and is not atomic.
    When the entries before some entry have been built and their requests
    resolved: if that entry cannot be encoded (a value outside the signed
    16-bit range, say) the operation fails with that error after the
    earlier entries have been sent and nothing of the later ones; if its
    request is rejected the operation fails with that rejection and the
    later entries are never built; and when it is the end of the list the
    operation succeeds having sent one frame per entry, in order. *)
Theorem X15_batch_write_stops_at_first_failure :
  forall plcType st pre frames responses,
    isConnected st = true -> socket st <> None ->
    Forall2 (fun (item : string * Z * Z) frame =>
               create4EWriteFrame plcType (fst (fst item)) (snd (fst item)) [snd item]
               = Ok frame) pre frames ->
    length responses = length pre ->
    batchWriteWordUnits plcType st pre (map Resolved responses)
    = (frames, Some (Ok tt))
    /\ (forall device address value post replies e,
           create4EWriteFrame plcType device address [value] = Throw e ->
           batchWriteWordUnits plcType st (pre ++ (device, address, value) :: post)
             (map Resolved responses ++ replies)
           = (frames, Some (Throw e)))
    /\ (forall device address value post replies frame e,
           create4EWriteFrame plcType device address [value] = Ok frame ->
           batchWriteWordUnits plcType st (pre ++ (device, address, value) :: post)
             (map Resolved responses ++ Rejected e :: replies)
           = (frames ++ [frame], Some (Throw e))).
Proof.
  intros plcType st pre frames responses Hc Hs Hpre Hlen.
  unfold batchWriteWordUnits.
  destruct (socket st); [|congruence]. rewrite Hc. cbn [negb].
  split; [|split].
  - rewrite <- (app_nil_r pre), <- (app_nil_r (map Resolved responses)).
    rewrite (batchWriteLoop_prefix plcType pre frames Hpre) by assumption.
    reflexivity.
  - intros d a v post replies e He.
    rewrite (batchWriteLoop_prefix plcType pre frames Hpre) by assumption.
    cbn [batchWriteLoop app]. rewrite He. reflexivity.
  - intros d a v post replies frame e Hf.
    rewrite (batchWriteLoop_prefix plcType pre frames Hpre) by assumption.
    cbn [batchWriteLoop app]. rewrite Hf. reflexivity.
Qed.

Lemma X15_batch_write_stops_at_first_failure_witness :
  batchWriteWordUnits "Q" connectedState
    [("D", 200, -1); ("D", 201, 40000); ("D", 202, 1)]
    [Resolved sampleFrame; Resolved sampleFrame; Resolved sampleFrame]
  = ([map byte.of_Z [0x54; 0x00; 0; 0; 0; 0; 0; 0xff; 0xff; 0x03; 0;
                     0x0e; 0x00; 0x04; 0x00;
                     0x01; 0x14; 0x00; 0x00; 200; 0; 0; 0xa8; 1; 0; 0xff; 0xff]],
     Some (Throw RangeError)).
Proof.
  assert (Hc : isConnected connectedState = true) by reflexivity.
  assert (Hs : socket connectedState <> None) by discriminate.
  assert (Hpre : Forall2 (fun (item : string * Z * Z) frame =>
                   create4EWriteFrame "Q" (fst (fst item)) (snd (fst item))
                     [snd item] = Ok frame)
                   [("D", 200, -1)]
                   [map byte.of_Z [0x54; 0x00; 0; 0; 0; 0; 0; 0xff; 0xff; 0x03; 0;
                      0x0e; 0x00; 0x04; 0x00;
                      0x01; 0x14; 0x00; 0x00; 200; 0; 0; 0xa8; 1; 0; 0xff; 0xff]]).
  { constructor; [vm_compute; reflexivity | constructor]. }
  assert (He : create4EWriteFrame "Q" "D" 201 [40000] = Throw RangeError)
    by (vm_compute; reflexivity).
  destruct (X15_batch_write_stops_at_first_failure "Q" connectedState
              [("D", 200, -1)] _ [sampleFrame] Hc Hs Hpre eq_refl)
    as [_ [Hstop _]].
  exact (Hstop "D" 201 40000 [("D", 202, 1)]
           [Resolved sampleFrame; Resolved sampleFrame] RangeError He).
Defined.

(** ** Block reads *)

Lemma storeValues_get device address values :
  0 <= address ->
  forall i0 results i,
    0 <= i0 -> (i < length values)%nat ->
    objGet (keyOf device (address + (i0 + Z.of_nat i)))
      (storeValues device address i0 values results)
    = Some (nth i values 0).
Proof.
  intros Ha. induction values as [|v values IH]; intros i0 results i Hi0 Hi;
    [simpl in Hi; lia|].
  cbn [storeValues]. destruct i as [|i].
  - cbn [nth]. change (Z.of_nat 0) with 0. rewrite Z.add_0_r.
    rewrite storeValues_other; [apply objGet_objSet_same|].
    intros j Hj Heq. apply keyOf_inj in Heq; lia.
  - cbn [nth]. replace (i0 + Z.of_nat (S i)) with (i0 + 1 + Z.of_nat i) by lia.
    apply IH; [lia | simpl in Hi; lia].
Qed.

Lemma storeValues_keys_bound device address values :
  forall i0 results key,
    In key (map fst (storeValues device address i0 values results)) ->
    In key (map fst results)
    \/ exists i, (i < length values)%nat
                 /\ key = keyOf device (address + (i0 + Z.of_nat i)).
Proof.
  induction values as [|v values IH]; intros i0 results key H; cbn [storeValues] in H.
  - left. exact H.
  - destruct (IH _ _ _ H) as [Hin | [i [Hi Hk]]].
    + apply objSet_keys in Hin. destruct Hin as [-> | Hin]; [|left; exact Hin].
      right. exists 0%nat. split; [simpl; lia|].
      change (Z.of_nat 0) with 0. rewrite Z.add_0_r. reflexivity.
    + right. exists (S i). split; [simpl; lia|].
      rewrite Hk. f_equal. lia.
Qed.

(** X16. A block read fills consecutive keys.  For one address entry, with
    a non-negative safe-integer address (at most 2^53 - 1), of a
    connected instance whose frame is built and whose request is resolved
    with a response that decodes to [values], [batchReadWordUnits] sends
    that one frame and resolves to an object in which the i-th value is
    found under the device name followed by [address + i], and which has
    no other key.  The number of keys is the number of values the response
    carries, whatever count was asked for. *)
Theorem X16_block_read_fills_consecutive_keys :
  forall plcType st device address count frame response values,
    isConnected st = true -> socket st <> None ->
    0 <= address <= 9007199254740991 ->
    create4EReadFrame plcType device address (countOrOne count) = Ok frame ->
    parseReadResponse response = Ok values ->
    exists results,
      batchReadWordUnits plcType st [mkDeviceAddress device address count]
        [Resolved response]
      = ([frame], Some (Ok results))
      /\ (forall i, (i < length values)%nat ->
            objGet (keyOf device (address + Z.of_nat i)) results
            = Some (nth i values 0))
      /\ (forall key value,
            objGet key results = Some value ->
            exists i, (i < length values)%nat
                      /\ key = keyOf device (address + Z.of_nat i)).
Proof.
  intros plcType st dev addr cnt frame response values Hc Hs [Ha _] Hf Hp.
  exists (storeValues dev addr 0 values []).
  split; [|split].
  - unfold batchReadWordUnits. destruct (socket st); [|congruence].
    rewrite Hc. cbn [negb batchReadLoop device address count].
    rewrite Hf, Hp. reflexivity.
  - intros i Hi.
    rewrite <- (storeValues_get dev addr values Ha 0 [] i) by (lia || assumption).
    reflexivity.
  - intros key value Hg. apply objGet_In in Hg.
    apply storeValues_keys_bound in Hg. destruct Hg as [[] | [i [Hi Hk]]].
    exists i. split; [exact Hi | exact Hk].
Qed.

Lemma X16_block_read_fills_consecutive_keys_witness :
  exists results,
    batchReadWordUnits "Q" connectedState [mkDeviceAddress "D" 100 (Some 2)]
      [Resolved (sampleFrame ++ map byte.of_Z [0xfe; 0xff])]
    = ([map byte.of_Z [0x54; 0x00; 0; 0; 0; 0; 0; 0xff; 0xff; 0x03; 0;
                       0x0c; 0x00; 0x04; 0x00;
                       0x01; 0x04; 0x00; 0x00; 100; 0; 0; 0xa8; 2; 0]],
       Some (Ok results))
    /\ (forall i, (i < 2)%nat ->
          objGet (keyOf "D" (100 + Z.of_nat i)) results
          = Some (nth i [12345; -2] 0))
    /\ (forall key value,
          objGet key results = Some value ->
          exists i, (i < 2)%nat /\ key = keyOf "D" (100 + Z.of_nat i)).
Proof.
  assert (Hc : isConnected connectedState = true) by reflexivity.
  assert (Hs : socket connectedState <> None) by discriminate.
  assert (Hf : create4EReadFrame "Q" "D" 100 (countOrOne (Some 2))
               = Ok (map byte.of_Z [0x54; 0x00; 0; 0; 0; 0; 0; 0xff; 0xff; 0x03; 0;
                       0x0c; 0x00; 0x04; 0x00;
                       0x01; 0x04; 0x00; 0x00; 100; 0; 0; 0xa8; 2; 0]))
    by (vm_compute; reflexivity).
  assert (Hp : parseReadResponse (sampleFrame ++ map byte.of_Z [0xfe; 0xff])
               = Ok [12345; -2]) by (vm_compute; reflexivity).
  exact (X16_block_read_fills_consecutive_keys "Q" connectedState "D" 100 (Some 2)
           _ _ _ Hc Hs ltac:(lia) Hf Hp).
Defined.

(** ** Operations on an instance that is not connected *)

(** X17. Nothing is sent without a connection.  When [getIsConnected] is
    false, the four read and write operations fail with the
    not-connected-to-PLC error before looking at their arguments, and
    [plcRead] does so for every list of well-formed names (an ill-formed
    name is reported first); no frame is built or requested, and
    [sendRequest] itself rejects with its own not-connected error and
    leaves the instance unchanged. *)
Theorem X17_operations_need_a_connection :
  forall plcType st,
    getIsConnected st = false ->
    let refused := MCProtocolError NotConnectedToPLC None None in
    (forall addresses replies,
        batchReadWordUnits plcType st addresses replies = ([], Some (Throw refused)))
    /\ (forall device address replies,
          readRegister plcType st device address replies
          = ([], Some (Throw refused)))
    /\ (forall data replies,
          batchWriteWordUnits plcType st data replies = ([], Some (Throw refused)))
    /\ (forall device address value replies,
          writeRegister plcType st device address value replies
          = ([], Some (Throw refused)))
    /\ (forall registers addresses replies,
          mapRegisters registers = Ok addresses ->
          plcRead plcType st registers replies = ([], Some (Throw refused)))
    /\ (forall frame,
          sendRequest frame st = (st, Some (MCProtocolError NotConnected None None))).
Proof.
  intros plcType st H refused. unfold getIsConnected in H.
  assert (Hr : forall addresses replies,
             batchReadWordUnits plcType st addresses replies
             = ([], Some (Throw refused))).
  { intros. unfold batchReadWordUnits.
    destruct (socket st); [|reflexivity].
    destruct (isConnected st); [discriminate H | reflexivity]. }
  assert (Hw : forall data replies,
             batchWriteWordUnits plcType st data replies
             = ([], Some (Throw refused))).
  { intros. unfold batchWriteWordUnits.
    destruct (socket st); [|reflexivity].
    destruct (isConnected st); [discriminate H | reflexivity]. }
  repeat match goal with |- _ /\ _ => split end.
  - exact Hr.
  - intros. unfold readRegister. rewrite Hr. reflexivity.
  - exact Hw.
  - intros. unfold writeRegister. apply Hw.
  - intros registers addresses replies Hm. unfold plcRead.
    rewrite Hm, Hr. reflexivity.
  - intros frame. unfold sendRequest.
    destruct (socket st); [|reflexivity].
    destruct (isConnected st); [discriminate H | reflexivity].
Qed.

Lemma X17_operations_need_a_connection_witness :
  readRegister "Q" initial "D" 100 [Resolved sampleFrame]
  = ([], Some (Throw (MCProtocolError NotConnectedToPLC None None)))
  /\ plcRead "Q" (cleanup connectedState) ["D100"] [Resolved sampleFrame]
     = ([], Some (Throw (MCProtocolError NotConnectedToPLC None None))).
Proof.
  split.
  - destruct (X17_operations_need_a_connection "Q" initial eq_refl)
      as [_ [H _]]. apply H.
  - assert (Hd : getIsConnected (cleanup connectedState) = false)
      by (vm_compute; reflexivity).
    assert (Hm : mapRegisters ["D100"] = Ok [("D", 100)])
      by (vm_compute; reflexivity).
    destruct (X17_operations_need_a_connection "Q" (cleanup connectedState) Hd)
      as [_ [_ [_ [_ [H _]]]]].
    exact (H ["D100"] _ [Resolved sampleFrame] Hm).
Defined.

(** ** When a write frame is built *)

Lemma appendValues_result values :
  forall requestData,
    (Forall (fun v => -0x8000 <= v <= 0x7fff) values
     /\ appendValues requestData values
        = Ok (requestData ++ flat_map (le_split 2) values))
    \/ (~ Forall (fun v => -0x8000 <= v <= 0x7fff) values
        /\ appendValues requestData values = Throw RangeError).
Proof.
  induction values as [|v values IH]; intros requestData; cbn [appendValues flat_map].
  - left. split; [constructor | rewrite app_nil_r; reflexivity].
  - rewrite encodeValue_short_signed. unfold writeInt16LE.
    destruct (Z_le_dec (-0x8000) v) as [Hlo|Hlo];
      [destruct (Z_le_dec v 0x7fff) as [Hhi|Hhi]|].
    + rewrite checkInt_Ok by lia. cbn [bind].
      destruct (IH (requestData ++ le_split 2 v)) as [[Hall ->] | [Hnot ->]].
      * left. split; [constructor; [lia | assumption]|].
        rewrite <- app_assoc. reflexivity.
      * right. split; [|reflexivity].
        intros Hall. apply Hnot. apply Forall_cons_iff in Hall. tauto.
    + rewrite checkInt_Throw by lia. right. split; [|reflexivity].
      intros Hall. apply Forall_cons_iff in Hall. lia.
    + rewrite checkInt_Throw by lia. right. split; [|reflexivity].
      intros Hall. apply Forall_cons_iff in Hall. lia.
Qed.

Lemma length_flat_map_le_split (values : list Z) :
  length (flat_map (le_split 2) values) = (2 * length values)%nat.
Proof.
  induction values as [|v vs IH]; [reflexivity|].
  cbn [flat_map]. rewrite length_app, length_le_split, IH. simpl. lia.
Qed.

Lemma writeUInt16LE_Throw value :
  ~ 0 <= value <= 0xffff -> writeUInt16LE value = Throw RangeError.
Proof.
  intros H. unfold writeUInt16LE. rewrite checkInt_Throw by assumption. reflexivity.
Qed.

(** X18. Exactly when a write frame is built.  For a recognized device
    type and an offset whose device number fits its field,
    [create4EWriteFrame] returns a frame if and only if every value is a
    signed 16-bit number and the request still fits the 16-bit length
    field (8 bytes of timer, command, subcommand and count, the device
    number and code, two bytes per value); in every other case it throws a
    RangeError, so a value such as 40000 is refused rather than wrapped. *)
Theorem X18_write_frame_is_built_exactly_when_values_fit :
  forall plcType deviceType deviceCode address values,
    lookup deviceType DEVICE_CODES = Some deviceCode -> 0 <= address ->
    rereadDigits (getDeviceBase deviceType) address
      < 2 ^ (Z.of_nat (deviceNumberWidth plcType) * 8) ->
    let fits :=
      Forall (fun v => -0x8000 <= v <= 0x7fff) values
      /\ 8 + Z.of_nat (deviceNumberWidth plcType)
           + Z.of_nat (deviceCodeWidth plcType)
           + 2 * Z.of_nat (length values) <= 0xffff in
    (fits -> exists frame,
        create4EWriteFrame plcType deviceType address values = Ok frame)
    /\ (~ fits ->
        create4EWriteFrame plcType deviceType address values = Throw RangeError).
Proof.
  intros plcType deviceType deviceCode address values Hl Ha Hfit fits.
  assert (Hcases :
    forall d,
      length d = (deviceNumberWidth plcType + deviceCodeWidth plcType)%nat ->
      makeDeviceData plcType deviceType address = Ok d ->
      (fits -> exists frame,
          create4EWriteFrame plcType deviceType address values = Ok frame)
      /\ (~ fits ->
          create4EWriteFrame plcType deviceType address values = Throw RangeError)).
  { intros d Hd Hm. rewrite create4EWriteFrame_wrap. unfold writeRequestData.
    rewrite Hm, !encodeValue_short.
    rewrite (writeUInt16LE_Ok 5121) by lia.
    rewrite (writeUInt16LE_Ok (if (plcType =? "iQ-R")%string then 2 else 0))
      by (destruct (plcType =? "iQ-R")%string; lia).
    cbn [bind].
    assert (Hw : (3 <= deviceNumberWidth plcType + deviceCodeWidth plcType)%nat).
    { unfold deviceNumberWidth, deviceCodeWidth.
      destruct (plcType =? "iQ-R")%string; lia. }
    destruct (Z_le_dec (Z.of_nat (length values)) 0xffff) as [Hn|Hn].
    - rewrite (writeUInt16LE_Ok (Z.of_nat (length values))) by lia. cbn [bind].
      match goal with
      | |- context [appendValues ?acc values] =>
          destruct (appendValues_result values acc) as [[Hall ->] | [Hnot ->]]
      end.
      + cbn [bind]. unfold wrap4E. rewrite encodeValue_short.
        rewrite !length_app, !length_le_split, length_flat_map_le_split, Hd.
        cbn [length]. unfold wordSize.
        destruct (Z_le_dec (8 + Z.of_nat (deviceNumberWidth plcType)
                            + Z.of_nat (deviceCodeWidth plcType)
                            + 2 * Z.of_nat (length values)) 0xffff) as [Hb|Hb].
        * rewrite writeUInt16LE_Ok by lia. cbn [bind].
          split; [intros _; eexists; reflexivity|].
          intros Hnot. exfalso. apply Hnot. split; assumption.
        * rewrite writeUInt16LE_Throw by lia. cbn [bind].
          split; [|reflexivity]. intros [_ Hb']. contradiction.
      + cbn [bind]. split; [|reflexivity]. intros [Hall _]. contradiction.
    - rewrite (writeUInt16LE_Throw (Z.of_nat (length values))) by lia. cbn [bind].
      split; [|reflexivity]. intros [_ Hb]. lia. }
  pose proof (makeDeviceData_recognized plcType _ _ _ Hl Ha) as Hm. cbv zeta in Hm.
  unfold deviceNumberWidth, deviceCodeWidth in *.
  destruct (plcType =? "iQ-R")%string.
  - change (2 ^ (Z.of_nat 4 * 8)) with 4294967296 in Hfit.
    destruct (Z.leb_spec (rereadDigits (getDeviceBase deviceType) address) 4294967295);
      [|lia].
    apply (Hcases _ ltac:(rewrite length_app, !length_le_split; reflexivity) Hm).
  - change (2 ^ (Z.of_nat 3 * 8)) with 16777216 in Hfit.
    destruct (Z.leb_spec (rereadDigits (getDeviceBase deviceType) address) 16777215);
      [|lia].
    apply (Hcases _ ltac:(rewrite length_app, !length_le_split; reflexivity) Hm).
Qed.

Lemma X18_write_frame_is_built_exactly_when_values_fit_witness :
  create4EWriteFrame "Q" "D" 200 [1; 40000] = Throw RangeError.
Proof.
  assert (Hfit : rereadDigits (getDeviceBase "D") 200
                 < 2 ^ (Z.of_nat (deviceNumberWidth "Q") * 8))
    by (vm_compute; reflexivity).
  destruct (X18_write_frame_is_built_exactly_when_values_fit "Q" "D" 0xa8 200
              [1; 40000] eq_refl ltac:(lia) Hfit) as [_ H].
  apply H. intros [Hall _].
  apply Forall_cons_iff in Hall. destruct Hall as [_ Hall].
  apply Forall_cons_iff in Hall. destruct Hall as [Hv _]. lia.
Defined.

(** ** Responses that arrive late *)

(** X19. Responses are matched to requests by arrival order alone.  In a
    reachable state with two or more requests pending and nothing
    buffered, when the timer of the oldest request fires and a complete
    frame arrives afterwards, the oldest request is rejected with the
    request timeout and the frame is handed to the next request: it
    resolves or rejects the request sent second, whatever request it was
    the response to. *)
Theorem X19_late_response_answers_the_next_request :
  forall trace st id1 r1 id2 r2 rest k frame st1 st2,
    run initial trace = Some st ->
    responseBuffer st = [] ->
    pendingRequests st = (id1, r1) :: (id2, r2) :: rest ->
    complete frame ->
    step st (RequestTimerFires id1) = Some st1 ->
    step st1 (SocketData k frame) = Some st2 ->
    calls st2 = calls st ++ [(id1, timedOut); (id2, answer frame)]
    /\ pendingRequests st2 = rest.
Proof.
  intros trace st id1 r1 id2 r2 rest k frame st1 st2 Hrun Hb Hp Hc H1 H2.
  pose proof (reachable_Inv trace st Hrun) as H.
  pose proof (step_Inv st _ st1 H H1) as Hinv1.
  cbn [step] in H1, H2.
  destruct (memZ id1 (timers st)); [|discriminate H1].
  injection H1 as <-.
  destruct (k <? sockets _)%nat; [|discriminate H2].
  injection H2 as <-.
  assert (Hnd : ~ In id1 (map fst ((id2, r2) :: rest))).
  { pose proof (inv_nodup _ _ _ _ _ H) as Hnd. rewrite Hp in Hnd.
    cbn [map fst] in Hnd. apply NoDup_cons_iff in Hnd. tauto. }
  set (st1 := onRequestTimeout id1 (clearTimeout id1 st)) in *.
  assert (Hp1 : pendingRequests st1 = (id2, r2) :: rest).
  { change (pendingRequests st1) with (mapDelete id1 (pendingRequests st)).
    rewrite Hp. apply mapDelete_head. exact Hnd. }
  assert (Hc1 : calls st1 = calls st ++ [(id1, timedOut)]) by reflexivity.
  assert (Hb1 : responseBuffer st1 = []) by exact Hb.
  replace (handleResponse frame st1) with (handleResponse (concat [frame]) st1)
    by (cbn [concat]; rewrite app_nil_r; reflexivity).
  rewrite (handleResponse_frames [frame] st1 Hb1)
    by (constructor; [assumption | constructor]).
  cbn [fold_left].
  destruct (processResponse_answers frame st1 id2 r2 rest Hinv1 Hp1) as [-> ->].
  rewrite Hc1, <- app_assoc. split; reflexivity.
Qed.

Lemma X19_late_response_answers_the_next_request_witness :
  calls (handleResponse sampleFrame
           (onRequestTimeout 1 (clearTimeout 1 (stateAfter traceTwoOutstanding))))
  = calls (stateAfter traceTwoOutstanding)
    ++ [(1, timedOut); (2, answer sampleFrame)]
  /\ pendingRequests
       (handleResponse sampleFrame
          (onRequestTimeout 1 (clearTimeout 1 (stateAfter traceTwoOutstanding))))
     = [].
Proof.
  assert (Hrun : run initial traceTwoOutstanding
                 = Some (stateAfter traceTwoOutstanding))
    by (vm_compute; reflexivity).
  assert (Hb : responseBuffer (stateAfter traceTwoOutstanding) = [])
    by (vm_compute; reflexivity).
  assert (Hp : pendingRequests (stateAfter traceTwoOutstanding)
               = [(1, mkRequest 1 1); (2, mkRequest 2 2)])
    by (vm_compute; reflexivity).
  assert (Hc : complete sampleFrame) by (split; vm_compute; [lia | reflexivity]).
  assert (H1 : step (stateAfter traceTwoOutstanding) (RequestTimerFires 1)
               = Some (onRequestTimeout 1
                         (clearTimeout 1 (stateAfter traceTwoOutstanding))))
    by (vm_compute; reflexivity).
  assert (H2 : step (onRequestTimeout 1
                       (clearTimeout 1 (stateAfter traceTwoOutstanding)))
                 (SocketData 0 sampleFrame)
               = Some (handleResponse sampleFrame
                         (onRequestTimeout 1
                            (clearTimeout 1 (stateAfter traceTwoOutstanding)))))
    by (vm_compute; reflexivity).
  exact (X19_late_response_answers_the_next_request _ _ _ _ _ _ _ _ _ _ _
           Hrun Hb Hp Hc H1 H2).
Defined.

(** ** What a request can be answered with *)

(** X20. What a request can be answered with.  In every reachable state,
    every call of a request's continuation is one of these: a resolution
    with a complete frame that passed validation, which
    [parseReadResponse] therefore decodes without error; or a rejection
    with the invalid-subheader error, the PLC error of a non-zero status,
    the request timeout, the connection-closed error or the write error.
    In particular a request is never rejected with a RangeError: the
    frames the reassembler extracts are long enough for every field
    validation reads. *)
Theorem X20_requests_are_answered_with_frames_or_protocol_errors :
  forall trace st id o,
    run initial trace = Some st ->
    In (id, o) (calls st) ->
    answered o.
Proof.
  intros trace st id o Hrun Hin.
  assert (H : Forall (fun c => answered (snd c)) (calls st)).
  { apply (run_answered trace initial st); [constructor | exact Hrun]. }
  rewrite Forall_forall in H. apply (H (id, o) Hin).
Qed.

Lemma X20_requests_are_answered_with_frames_or_protocol_errors_witness :
  answered (Resolved sampleFrame).
Proof.
  assert (Hrun : run initial (traceTwoOutstanding ++ [SocketData 0 sampleFrame])
                 = Some (stateAfter (traceTwoOutstanding
                                       ++ [SocketData 0 sampleFrame])))
    by (vm_compute; reflexivity).
  apply (X20_requests_are_answered_with_frames_or_protocol_errors _ _ 1 _ Hrun).
  vm_compute. left. reflexivity.
Defined.

(** ** The compatibility wrapper *)

Lemma pushAddresses_seq deviceType startAddress n :
  forall i0 addresses,
    Type4E.pushAddresses n deviceType startAddress (Z.of_nat i0)
      (Z.of_nat (i0 + n)) addresses
    = addresses
      ++ map (fun k => mkDeviceAddress deviceType (startAddress + Z.of_nat k) None)
           (seq i0 n).
Proof.
  induction n as [|n IH]; intros i0 addresses; cbn [Type4E.pushAddresses seq map].
  - rewrite app_nil_r. reflexivity.
  - destruct (Z.ltb_spec (Z.of_nat i0) (Z.of_nat (i0 + S n))); [|lia].
    replace (Z.of_nat i0 + 1) with (Z.of_nat (S i0)) by lia.
    replace (i0 + S n)%nat with (S i0 + n)%nat by lia.
    rewrite IH, <- app_assoc. reflexivity.
Qed.

Lemma pushValues_seq deviceType startAddress results (xs : list wordExchange) :
  forall i0 values,
    (forall i x, nth_error xs i = Some x ->
       objGet (keyOf deviceType (startAddress + Z.of_nat (i0 + i))) results
       = hd_error (w_values x)) ->
    Type4E.pushValues (length xs) deviceType startAddress (Z.of_nat i0)
      (Z.of_nat (i0 + length xs)) results values
    = values ++ map (fun x => hd 0 (w_values x)) xs.
Proof.
  induction xs as [|x xs IH]; intros i0 values H;
    cbn [length Type4E.pushValues map].
  - rewrite app_nil_r. reflexivity.
  - destruct (Z.ltb_spec (Z.of_nat i0) (Z.of_nat (i0 + S (length xs)))); [|lia].
    replace (Z.of_nat i0 + 1) with (Z.of_nat (S i0)) by lia.
    replace (i0 + S (length xs))%nat with (S i0 + length xs)%nat by lia.
    rewrite IH.
    + rewrite <- app_assoc. cbn [app]. f_equal. f_equal.
      pose proof (H 0%nat x eq_refl) as Hfirst. rewrite Nat.add_0_r in Hfirst.
      rewrite Hfirst. destruct (w_values x) as [|v vs]; cbn [hd_error hd];
        [reflexivity|].
      destruct (Z.eqb_spec v 0); congruence.
    + intros i y Hy. rewrite <- (H (S i) y Hy). f_equal. f_equal. lia.
Qed.

Lemma batchReadLoop_words plcType deviceType startAddress (xs : list wordExchange) :
  forall i0 results requested,
    (forall i x, nth_error xs i = Some x ->
       create4EReadFrame plcType deviceType (startAddress + Z.of_nat (i0 + i)) 1
       = Ok (w_frame x)
       /\ parseReadResponse (w_response x) = Ok (w_values x)) ->
    batchReadLoop plcType
      (map (fun k => mkDeviceAddress deviceType (startAddress + Z.of_nat k) None)
         (seq i0 (length xs)))
      (map (fun x => Resolved (w_response x)) xs) results requested
    = (requested ++ map w_frame xs,
       Some (Ok (fold_left
                   (fun r kx => storeValues deviceType
                                  (startAddress + Z.of_nat (fst kx)) 0
                                  (w_values (snd kx)) r)
                   (combine (seq i0 (length xs)) xs) results))).
Proof.
  induction xs as [|x xs IH]; intros i0 results requested H;
    cbn [length seq map batchReadLoop combine fold_left].
  - rewrite app_nil_r. reflexivity.
  - cbn [device address count countOrOne fst snd].
    destruct (H 0%nat x eq_refl) as [Hf Hp]. rewrite Nat.add_0_r in Hf.
    rewrite Hf, Hp, IH.
    + rewrite <- app_assoc. reflexivity.
    + intros i y Hy. destruct (H (S i) y Hy) as [Hf' Hp'].
      replace (S i0 + i)%nat with (i0 + S i)%nat by lia. auto.
Qed.

Lemma storeWords_other deviceType startAddress (xs : list wordExchange) :
  0 <= startAddress ->
  forall i0 results k,
    (k < i0)%nat ->
    objGet (keyOf deviceType (startAddress + Z.of_nat k))
      (fold_left
         (fun r kx => storeValues deviceType (startAddress + Z.of_nat (fst kx)) 0
                        (w_values (snd kx)) r)
         (combine (seq i0 (length xs)) xs) results)
    = objGet (keyOf deviceType (startAddress + Z.of_nat k)) results.
Proof.
  intros Hs. induction xs as [|x xs IH]; intros i0 results k Hk;
    cbn [length seq combine fold_left]; [reflexivity|].
  rewrite IH by lia. cbn [fst snd]. apply storeValues_other.
  intros j Hj Heq. apply keyOf_inj in Heq; lia.
Qed.

Lemma storeWords_get deviceType startAddress (xs : list wordExchange) :
  0 <= startAddress ->
  (forall x, In x xs -> (length (w_values x) <= 1)%nat) ->
  forall i0 results,
    (forall j, (i0 <= j)%nat ->
       objGet (keyOf deviceType (startAddress + Z.of_nat j)) results = None) ->
    forall i x, nth_error xs i = Some x ->
      objGet (keyOf deviceType (startAddress + Z.of_nat (i0 + i)))
        (fold_left
           (fun r kx => storeValues deviceType (startAddress + Z.of_nat (fst kx)) 0
                          (w_values (snd kx)) r)
           (combine (seq i0 (length xs)) xs) results)
      = hd_error (w_values x).
Proof.
  intros Hs. induction xs as [|y xs IH]; intros Hlen i0 results Hfree i x Hx;
    [destruct i; discriminate Hx|].
  cbn [length seq combine fold_left fst snd].
  assert (Hy : (length (w_values y) <= 1)%nat) by (apply Hlen; left; reflexivity).
  destruct i as [|i].
  - injection Hx as ->. rewrite Nat.add_0_r.
    rewrite (storeWords_other deviceType startAddress xs Hs) by lia.
    destruct (w_values x) as [|v [|v' vs]]; cbn [storeValues hd_error].
    + apply Hfree. lia.
    + rewrite Z.add_0_r. apply objGet_objSet_same.
    + simpl in Hy. lia.
  - replace (i0 + S i)%nat with (S i0 + i)%nat by lia.
    apply IH; [intros z Hz; apply Hlen; right; exact Hz | | exact Hx].
    intros j Hj. destruct (w_values y) as [|v [|v' vs]]; cbn [storeValues].
    + apply Hfree. lia.
    + rewrite Z.add_0_r, objGet_objSet_other; [apply Hfree; lia|].
      intros Heq. apply keyOf_inj in Heq; lia.
    + simpl in Hy. lia.
Qed.

(** X21. [Type4E.batchread_wordunits] reads register by register and
    never reports a missing value.  For a connected wrapped instance and a
    head device made of upper-case letters and digits (leading zeros
    allowed) such that the numbers of the [n] registers are safe integers
    (at most 2^53 - 1), when the read frame of each of the [n] consecutive registers
    is built and each request is resolved with a response that decodes to
    at most one value, the call sends exactly those [n] frames, one
    register each and in order, and returns [n] numbers: the value of the
    response for a register that got one, and 0 for a register whose
    response carried none. *)
Theorem X21_wrapper_reads_register_by_register :
  forall plcType st headdevice letters digits (xs : list wordExchange),
    isConnected st = true -> socket st <> None ->
    registerForm isUpper headdevice letters digits ->
    readDigits 10 digits 0 + Z.of_nat (length xs) <= 9007199254740991 ->
    (forall i x, nth_error xs i = Some x ->
       create4EReadFrame plcType letters
         (readDigits 10 digits 0 + Z.of_nat i) 1 = Ok (w_frame x)
       /\ parseReadResponse (w_response x) = Ok (w_values x)
       /\ (length (w_values x) <= 1)%nat) ->
    Type4E.batchread_wordunits plcType (Some st) headdevice
      (Z.of_nat (length xs)) (map (fun x => Resolved (w_response x)) xs)
    = (map w_frame xs,
       Some (Type4E.Returned (map (fun x => hd 0 (w_values x)) xs))).
Proof.
  intros plcType st headdevice letters digits xs Hc Hs Hform _ Hxs.
  pose proof Hform as [_ [_ [_ [Hne Hdig]]]].
  apply matchRegister_form in Hform.
  assert (Hstart : 0 <= readDigits 10 digits 0)
    by (apply readDigits_nonneg; try assumption; lia).
  unfold Type4E.batchread_wordunits. rewrite Hform.
  rewrite (parseInt_digits digits None) by (assumption || exact I).
  cbn [numberOrNaN]. rewrite Nat2Z.id.
  pose proof (pushAddresses_seq letters (readDigits 10 digits 0) (length xs)
                0%nat []) as Ha.
  cbn [Z.of_nat Nat.add app] in Ha. rewrite Ha.
  unfold batchReadWordUnits. destruct (socket st); [|congruence].
  rewrite Hc. cbn [negb].
  rewrite (batchReadLoop_words plcType letters (readDigits 10 digits 0) xs 0%nat)
    by (intros i x Hx; destruct (Hxs i x Hx) as [Hf [Hp _]]; auto).
  cbn [app]. f_equal. f_equal. f_equal.
  pose proof (pushValues_seq letters (readDigits 10 digits 0)
                (fold_left
                   (fun r kx => storeValues letters
                                  (readDigits 10 digits 0 + Z.of_nat (fst kx)) 0
                                  (w_values (snd kx)) r)
                   (combine (seq 0 (length xs)) xs) [])
                xs 0%nat []) as Hv.
  cbn [Z.of_nat Nat.add app] in Hv. apply Hv.
  intros i x Hx.
  apply (storeWords_get letters (readDigits 10 digits 0) xs Hstart) with (i0 := 0%nat);
    try assumption.
  - intros y Hy. apply In_nth_error in Hy. destruct Hy as [k Hk].
    destruct (Hxs k y Hk) as [_ [_ Hl]]. exact Hl.
  - intros j _. reflexivity.
Qed.

Lemma X21_wrapper_reads_register_by_register_witness :
  Type4E.batchread_wordunits "Q" (Some connectedState) "D0100" 2
    [Resolved sampleFrame; Resolved (firstn 15 sampleFrame)]
  = ([sampleRequest;
      map byte.of_Z [0x54; 0x00; 0; 0; 0; 0; 0; 0xff; 0xff; 0x03; 0;
                     0x0c; 0x00; 0x04; 0x00;
                     0x01; 0x04; 0x00; 0x00; 101; 0; 0; 0xa8; 1; 0]],
     Some (Type4E.Returned [12345; 0])).
Proof.
  assert (Hc : isConnected connectedState = true) by reflexivity.
  assert (Hs : socket connectedState <> None) by discriminate.
  assert (Hform : registerForm isUpper "D0100" "D" "0100")
    by (unfold registerForm; repeat split; discriminate).
  apply (X21_wrapper_reads_register_by_register "Q" connectedState "D0100" "D" "0100"
           [(sampleRequest, sampleFrame, [12345]);
            (map byte.of_Z [0x54; 0x00; 0; 0; 0; 0; 0; 0xff; 0xff; 0x03; 0;
                            0x0c; 0x00; 0x04; 0x00;
                            0x01; 0x04; 0x00; 0x00; 101; 0; 0; 0xa8; 1; 0],
             firstn 15 sampleFrame, [])]
           Hc Hs Hform ltac:(vm_compute; discriminate)).
  intros [|[|i]] x Hx; [| |destruct i; discriminate Hx];
    injection Hx as <-; repeat split; vm_compute; solve [reflexivity | lia].
Defined.

(** ** When a read frame is built *)

(** X22. Exactly when a read frame is built.  For a recognized device
    type and a non-negative safe-integer offset, [create4EReadFrame]
    returns a frame if and only if the device number (the offset's decimal
    digits read in the base of the device type) fits the device-number
    field of the series and the count is between 0 and 65535; in every
    other case it throws a RangeError.  So on a hexadecimal device type an
    offset such as 1000000, read as 0x1000000, is out of reach of the
    3-byte field although the number itself would fit. *)
Theorem X22_read_frame_is_built_exactly_when_fields_fit :
  forall plcType deviceType deviceCode address count,
    lookup deviceType DEVICE_CODES = Some deviceCode ->
    0 <= address <= 9007199254740991 ->
    let fits :=
      rereadDigits (getDeviceBase deviceType) address
        < 2 ^ (Z.of_nat (deviceNumberWidth plcType) * 8)
      /\ 0 <= count <= 0xffff in
    (fits -> exists frame,
        create4EReadFrame plcType deviceType address count = Ok frame)
    /\ (~ fits ->
        create4EReadFrame plcType deviceType address count = Throw RangeError).
Proof.
  intros plcType deviceType deviceCode address count Hl [Ha _] fits. split.
  - intros [Hfit Hc]. apply (create4EReadFrame_built _ _ deviceCode); assumption.
  - intros Hnot. rewrite create4EReadFrame_wrap. unfold readRequestData.
    rewrite (makeDeviceData_recognized plcType _ _ _ Hl Ha).
    rewrite !encodeValue_short. rewrite (writeUInt16LE_Ok 1025) by lia.
    rewrite (writeUInt16LE_Ok (if (plcType =? "iQ-R")%string then 2 else 0))
      by (destruct (plcType =? "iQ-R")%string; lia).
    cbn [bind]. unfold fits, deviceNumberWidth in Hnot.
    destruct (plcType =? "iQ-R")%string.
    + change (2 ^ (Z.of_nat 4 * 8)) with 4294967296 in Hnot.
      destruct (Z.leb_spec (rereadDigits (getDeviceBase deviceType) address)
                  4294967295); [|reflexivity].
      cbn [bind]. rewrite (writeUInt16LE_Throw count) by lia. reflexivity.
    + change (2 ^ (Z.of_nat 3 * 8)) with 16777216 in Hnot.
      destruct (Z.leb_spec (rereadDigits (getDeviceBase deviceType) address)
                  16777215); [|reflexivity].
      cbn [bind]. rewrite (writeUInt16LE_Throw count) by lia. reflexivity.
Qed.

Lemma X22_read_frame_is_built_exactly_when_fields_fit_witness :
  create4EReadFrame "Q" "X" 1000000 1 = Throw RangeError
  /\ exists frame, create4EReadFrame "Q" "D" 1000000 1 = Ok frame.
Proof.
  split.
  - destruct (X22_read_frame_is_built_exactly_when_fields_fit "Q" "X" 0x9c 1000000 1
                eq_refl ltac:(lia)) as [_ H].
    apply H. intros [Hfit _]. vm_compute in Hfit. discriminate Hfit.
  - destruct (X22_read_frame_is_built_exactly_when_fields_fit "Q" "D" 0xa8 1000000 1
                eq_refl ltac:(lia)) as [H _].
    apply H. split; [vm_compute; reflexivity | lia].
Defined.
